(** * spc2wav: rendering an SPC stream into a WAV file with an ID3 tag

    A shallow embedding of [spc2wav.c] and the properties of its three
    core pieces: the binary packing primitives and the ID3 tag builder,
    the WAV container writer, and the fade envelope inside the streaming
    render loop.

    Conventions of the embedding.
    - C integers are [Z] with the wrap-around of their type written out
      ([u8], [u32], [u64], [i16]); the data model is LP64, so [size_t]
      and [uint64_t] are 64 bits wide and [unsigned int] is 32 bits wide.
    - A byte buffer is a [list Z] of values in [0, 256); a sample buffer
      is a [list Z] of values in the [int16_t] range.
    - Functions that mutate an object are computations in a state monad
      whose outcome is a result, [Undefined] (the C program has no
      defined behaviour: access outside an object, division by zero, a
      conversion whose value does not fit) or [Timeout] (a loop ran out
      of fuel).
    - [double] arithmetic is IEEE 754 binary64, through the executable
      specification [SpecFloat] of the standard library.

    The file has two parts: the embedding of the program, followed by
    the definitions that the statements need, and then the properties,
    in the order packing, output file, fade envelope, render loop, tag
    builder.  The rest of the program, that is the command line, the
    name of the output file and the times on the error stream, is
    embedded after the first part, and the further properties of all
    parts come last. *)

From Stdlib Require Import String Ascii.
From Stdlib Require Import ZArith List Lia Bool.
From Stdlib Require Import Floats.SpecFloat.
From Stdlib Require Import DecimalString.
From Stdlib Require DecimalFacts DecimalPos DecimalN.
Import ListNotations.

Local Open Scope Z_scope.

(** ** Machine integers *)

Definition u8 (z : Z) : Z := z mod 2 ^ 8.
Definition u32 (z : Z) : Z := z mod 2 ^ 32.
Definition u64 (z : Z) : Z := z mod 2 ^ 64.

(** Two's complement reading of the low 16 bits. *)
Definition i16 (z : Z) : Z := (z + 2 ^ 15) mod 2 ^ 16 - 2 ^ 15.

Definition in_int16 (z : Z) : bool := (- 32768 <=? z) && (z <=? 32767).

(** ** Characters and C strings

    A C string is given by the bytes of the array that holds it; its
    terminator is the first zero byte, or the end of the list. *)

Definition chr (c : ascii) : Z := Z.of_N (N_of_ascii c).

Fixpoint cstr (s : string) : list Z :=
  match s with
  | EmptyString => []
  | String c s' => chr c :: cstr s'
  end.

Fixpoint strnlen_nat (s : list Z) (maxlen : nat) : nat :=
  match maxlen, s with
  | S n, c :: s' => if c =? 0 then O else S (strnlen_nat s' n)
  | _, _ => O
  end.

Definition strnlen (s : list Z) (maxlen : Z) : Z :=
  Z.of_nat (strnlen_nat s (Z.to_nat maxlen)).

Definition strlen (s : list Z) : Z :=
  Z.of_nat (strnlen_nat s (length s)).

(** ** Outcomes and the state monad *)

Inductive outcome (A : Type) : Type :=
| Done (v : A)
| Undefined
| Timeout.

Arguments Done {A} v.
Arguments Undefined {A}.
Arguments Timeout {A}.

Definition M (S A : Type) : Type := S -> outcome (A * S).

Definition ret {S A : Type} (v : A) : M S A := fun s => Done (v, s).

Definition bind {S A B : Type} (m : M S A) (k : A -> M S B) : M S B :=
  fun s =>
    match m s with
    | Done (v, s') => k v s'
    | Undefined => Undefined
    | Timeout => Timeout
    end.

Definition get {S : Type} : M S S := fun s => Done (s, s).
Definition put {S : Type} (s : S) : M S unit := fun _ => Done (tt, s).
Definition timeout {S A : Type} : M S A := fun _ => Timeout.

(** An outcome that does not touch the state. *)
Definition lift {S A : Type} (o : outcome A) : M S A :=
  fun s =>
    match o with
    | Done v => Done (v, s)
    | Undefined => Undefined
    | Timeout => Timeout
    end.

Declare Scope monad_scope.
Delimit Scope monad_scope with monad.
Notation "v <- m ;; k" := (bind m (fun v => k))
  (at level 61, m at next level, right associativity) : monad_scope.
Notation "m ;; k" := (bind m (fun _ => k))
  (at level 61, right associativity) : monad_scope.
Local Open Scope monad_scope.

(** Run a computation on a component of a larger state. *)
Definition zoom {S T A : Type} (prj : S -> T) (upd : T -> S -> S)
    (m : M T A) : M S A :=
  fun s =>
    match m (prj s) with
    | Done (v, t) => Done (v, upd t s)
    | Undefined => Undefined
    | Timeout => Timeout
    end.

(** ** Memory objects

    An object is the list of its cells.  Reading or writing outside the
    object is undefined. *)

Fixpoint at_least {A : Type} (k : nat) (mem : list A) : bool :=
  match k, mem with
  | O, _ => true
  | S _, [] => false
  | S k', _ :: mem' => at_least k' mem'
  end.

(** The [n] cells from offset [off] on lie inside [mem]. *)
Definition in_bounds {A : Type} (mem : list A) (off n : Z) : bool :=
  (0 <=? off) && (0 <=? n) && at_least (Z.to_nat (off + n)) mem.

Definition load {A : Type} (mem : list A) (off n : Z) : outcome (list A) :=
  if in_bounds mem off n
  then Done (firstn (Z.to_nat n) (skipn (Z.to_nat off) mem))
  else Undefined.

Definition store {A : Type} (mem : list A) (off : Z) (cells : list A)
    : outcome (list A) :=
  if in_bounds mem off (Z.of_nat (length cells))
  then Done (firstn (Z.to_nat off) mem ++ cells
             ++ skipn (Z.to_nat off + length cells) mem)
  else Undefined.

(** [mem[off]] *)
Definition read {A : Type} (mem : list A) (off : Z) : outcome A :=
  match load mem off 1 with
  | Done (v :: _) => Done v
  | Done [] => Undefined
  | Undefined => Undefined
  | Timeout => Timeout
  end.

(** [v = mem[off]] and [mem[off..] = cells] on a state that is one object. *)
Definition peek {A : Type} (off : Z) : M (list A) A :=
  fun mem => lift (read mem off) mem.

Definition poke {A : Type} (off : Z) (cells : list A) : M (list A) unit :=
  fun mem =>
    match store mem off cells with
    | Done mem' => Done (tt, mem')
    | Undefined => Undefined
    | Timeout => Timeout
    end.

(** [memcpy(dst + off, src, n)] on the object [dst]. *)
Definition memcpy {A : Type} (off : Z) (src : list A) (n : Z)
    : M (list A) unit :=
  fun dst =>
    match load src 0 n with
    | Done cells => poke off cells dst
    | Undefined => Undefined
    | Timeout => Timeout
    end.

(** ** Binary packing primitives *)

Definition pack_int16le (n : Z) : list Z :=
  [ u8 n; u8 (Z.shiftr n 8) ].

Definition pack_uint16le (n : Z) : list Z :=
  [ u8 n; u8 (Z.shiftr n 8) ].

Definition pack_uint32le (n : Z) : list Z :=
  [ u8 n; u8 (Z.shiftr n 8); u8 (Z.shiftr n 16); u8 (Z.shiftr n 24) ].

Definition pack_uint32_syncsafe (val : Z) : list Z :=
  [ u8 (Z.shiftr (Z.land val 0x0FE00000) 21);
    u8 (Z.shiftr (Z.land val 0x001FC000) 14);
    u8 (Z.shiftr (Z.land val 0x00003F80) 7);
    u8 (Z.land val 0x0000007F) ].

(** The readers that a consumer of the file applies to these fields.
    The program has no decoder of its own; these follow the formats. *)

Definition unpack_uint32le (b : list Z) : Z :=
  fold_right (fun byte acc => byte + 256 * acc) 0 b.

Definition unpack_int16le (b : list Z) : Z :=
  i16 (fold_right (fun byte acc => byte + 256 * acc) 0 b).

(** Seven bits per byte, most significant group first. *)
Definition unpack_uint32_syncsafe (b : list Z) : Z :=
  fold_left (fun acc byte => acc * 128 + byte mod 128) b 0.

(** The [n] bytes of [bytes] from offset [off] on. *)
Definition slice (off n : Z) (bytes : list Z) : list Z :=
  firstn (Z.to_nat n) (skipn (Z.to_nat off) bytes).

(** ** The growable byte buffer of the tag builder *)

Record str_buffer : Type := {
  x : list Z;   (* the allocated object *)
  a : Z;        (* recorded capacity, [uint32_t] *)
  len : Z       (* used length, [uint32_t] *)
}.

Definition set_x (m : list Z) (s : str_buffer) : str_buffer :=
  {| x := m; a := a s; len := len s |}.

Definition set_len (n : Z) : M str_buffer unit :=
  fun s => Done (tt, {| x := x s; a := a s; len := n |}).

Definition on_x {A : Type} (m : M (list Z) A) : M str_buffer A :=
  zoom x set_x m.

(** The static [id3_buffer] before [main] touches it. *)
Definition id3_buffer : str_buffer := {| x := []; a := 0; len := 0 |}.

(** The bytes that count as part of the tag. *)
Definition used (s : str_buffer) : list Z :=
  firstn (Z.to_nat (len s)) (x s).

(** The total-size field of the preamble, as a reader decodes it. *)
Definition preamble_size (s : str_buffer) : Z :=
  unpack_uint32_syncsafe (slice 6 4 (x s)).

(** [s->x[s->len++] = c] *)
Definition putc (c : Z) : M str_buffer unit :=
  s <- get ;;
  on_x (poke (len s) [u8 c]) ;;
  set_len (u32 (len s + 1)).

(** [memcpy(&s->x[s->len], src, n)] *)
Definition copy_in (src : list Z) (n : Z) : M str_buffer unit :=
  s <- get ;;
  on_x (memcpy (len s) src n).

(** [pack_uint32_syncsafe(&s->x[s->len], val)] *)
Definition pack_in (val : Z) : M str_buffer unit :=
  s <- get ;;
  on_x (poke (len s) (pack_uint32_syncsafe val)).

(** [s->len += n] *)
Definition advance (n : Z) : M str_buffer unit :=
  s <- get ;;
  set_len (u32 (len s + n)).

Definition id3_update_len : M str_buffer unit :=
  s <- get ;;
  on_x (poke 6 (pack_uint32_syncsafe (u32 (len s - 10)))).

Definition id3_init : M str_buffer unit :=
  set_len 10 ;;
  on_x (poke 0 [chr "I"]) ;;
  on_x (poke 1 [chr "D"]) ;;
  on_x (poke 2 [chr "3"]) ;;
  on_x (poke 3 [0x04]) ;;
  on_x (poke 4 [0x00]) ;;
  on_x (poke 5 [0x00]) ;;
  id3_update_len.

(** The statements of [id3_add_text] after its allocation loop. *)
Definition append_text (frame data : list Z) (datalen : Z)
    : M str_buffer Z :=
  copy_in frame 4 ;;
  advance 4 ;;
  pack_in (u32 (1 + datalen + 1)) ;;
  advance 4 ;;
  putc 0x00 ;;
  putc 0x00 ;;
  putc 0x03 ;;
  copy_in data datalen ;;
  advance datalen ;;
  putc 0x00 ;;
  id3_update_len ;;
  ret 0.

(** The statements of [id3_add_comment] after its allocation loop. *)
Definition append_comment (data : list Z) (datalen : Z) : M str_buffer Z :=
  putc (chr "C") ;;
  putc (chr "O") ;;
  putc (chr "M") ;;
  putc (chr "M") ;;
  pack_in (u32 (1 + 3 + datalen + 1 + 1)) ;;
  advance 4 ;;
  putc 0x00 ;; (* flags *)
  putc 0x00 ;; (* flags *)
  putc 0x03 ;; (* encoding *)
  putc (chr "e") ;;
  putc (chr "n") ;;
  putc (chr "g") ;;
  putc 0x00 ;; (* short content descrip *)
  copy_in data datalen ;;
  advance datalen ;;
  putc 0x00 ;;
  id3_update_len ;;
  ret 0.

(** The statements of [id3_add_private] after its allocation loop. *)
Definition append_private (description data : list Z) (datalen : Z)
    : M str_buffer Z :=
  putc (chr "T") ;;
  putc (chr "X") ;;
  putc (chr "X") ;;
  putc (chr "X") ;;
  pack_in (u32 (1 + strlen description + 1 + datalen + 1)) ;;
  advance 4 ;;
  putc 0x00 ;; (* flags *)
  putc 0x00 ;; (* flags *)
  putc 0x03 ;; (* encoding *)
  copy_in description (strlen description) ;;
  advance (strlen description) ;;
  putc 0x00 ;; (* short content descrip *)
  copy_in data datalen ;;
  advance datalen ;;
  putc 0x00 ;;
  id3_update_len ;;
  ret 0.

Section Allocator.

(** Whether the allocator grants a request of the given size. *)
Variable may_alloc : Z -> bool.

Definition malloc (size : Z) : option (list Z) :=
  if (0 <? size) && may_alloc size
  then Some (repeat 0 (Z.to_nat size))
  else None.

(** The old contents are kept up to the smaller of the two sizes. *)
Definition realloc (p : list Z) (size : Z) : option (list Z) :=
  if (0 <? size) && may_alloc size
  then Some (firstn (Z.to_nat size) p
             ++ repeat 0 (Z.to_nat size - length p))
  else None.

(** The loop at the head of the three [id3_add_] functions:
    [while (need > s->a) { t = realloc(s->x, s->a + 512); ... }].
    The result is [-1] when the allocator refuses, [0] otherwise. *)
Fixpoint grow (fuel : nat) (need : Z) (s : str_buffer)
    : outcome (Z * str_buffer) :=
  if a s <? need then
    match fuel with
    | O => Timeout
    | S fuel' =>
        match realloc (x s) (u32 (a s + 512)) with
        | None => Done (-1, s)
        | Some t =>
            grow fuel' need
              {| x := t; a := u32 (a s + 512); len := len s |}
        end
    end
  else Done (0, s).

Definition id3_add_text (fuel : nat) (frame data : list Z) (datalen : Z)
    : M str_buffer Z :=
  s0 <- get ;;
  r <- grow fuel (u64 (u32 (len s0 + 10) + u64 (u64 (1 + datalen) + 1))) ;;
  if r =? -1 then ret (-1) else append_text frame data datalen.

Definition id3_add_comment (fuel : nat) (data : list Z) (datalen : Z)
    : M str_buffer Z :=
  s0 <- get ;;
  r <- grow fuel
         (u64 (u32 (len s0 + 10)
               + u64 (u64 (u64 (1 + 3 + datalen) + 1) + 1))) ;;
  if r =? -1 then ret (-1) else append_comment data datalen.

Definition id3_add_private (fuel : nat) (description data : list Z)
    (datalen : Z) : M str_buffer Z :=
  s0 <- get ;;
  r <- grow fuel
         (u64 (u32 (len s0 + 10)
               + u64 (u64 (u64 (u64 (1 + strlen description) + 1)
                           + datalen) + 1))) ;;
  if r =? -1 then ret (-1) else append_private description data datalen.

End Allocator.

(** ** The metadata source and the tag-building part of [main]

    [id666.h] is not part of the sources.  The record keeps the fields
    that [main] reads; each text field is the content of its [char]
    array, which [main] measures with [strnlen (_, 256)]. *)

Record id666 : Type := {
  song : list Z;
  game : list Z;
  dumper : list Z;
  comment : list Z;
  artist : list Z;
  publisher : list Z;
  year : Z
}.

(** [snprintf(yearTmp, 5, "%d", year)] into [char yearTmp[5]]. *)
Definition yearTmp (y : Z) : list Z :=
  firstn 4 (cstr (NilZero.string_of_int (Z.to_int y))) ++ [0].

Section Tags.

Variable may_alloc : Z -> bool.

(** [if (cond) { if (m == -1) return 1; }] followed by [k]. *)
Definition attempt (cond : bool) (m : M str_buffer Z)
    (k : M str_buffer (option Z)) : M str_buffer (option Z) :=
  if cond
  then r <- m ;; if r =? -1 then ret (Some 1) else k
  else k.

(** Lines 206 to 238 of [main].  The result is [Some 1] when [main]
    returns 1 there and [None] when it goes on. *)
Definition main_tags (fuel : nat) (embedId3 : bool) (id6 : id666)
    : M str_buffer (option Z) :=
  match malloc may_alloc 4096 with
  | None => ret (Some 1)
  | Some p =>
      put {| x := p; a := 4096; len := 0 |} ;;
      id3_init ;;
      if embedId3 then
        attempt (negb (strnlen (song id6) 256 =? 0))
          (id3_add_text may_alloc fuel (cstr "TIT2") (song id6)
             (strnlen (song id6) 256))
        (attempt (negb (strnlen (game id6) 256 =? 0))
          (id3_add_text may_alloc fuel (cstr "TALB") (game id6)
             (strnlen (game id6) 256))
        (attempt (negb (strnlen (dumper id6) 256 =? 0))
          (id3_add_private may_alloc fuel (cstr "spc_dumper") (dumper id6)
             (strnlen (game id6) 256))
        (attempt (negb (strnlen (comment id6) 256 =? 0))
          (id3_add_comment may_alloc fuel (comment id6)
             (strnlen (comment id6) 256))
        (attempt (negb (strnlen (artist id6) 256 =? 0))
          (id3_add_text may_alloc fuel (cstr "TPE1") (artist id6)
             (strnlen (artist id6) 256))
        (attempt (negb (strnlen (publisher id6) 256 =? 0))
          (id3_add_text may_alloc fuel (cstr "TPUB") (publisher id6)
             (strnlen (publisher id6) 256))
        (attempt (negb (year id6 =? -1))
          (id3_add_text may_alloc fuel (cstr "TDRC") (yearTmp (year id6))
             (strlen (yearTmp (year id6))))
        (ret None)))))))
      else ret None
  end.

End Tags.

(** ** The output file

    A [FILE] open for writing: the bytes delivered so far and the
    number of further bytes the device accepts.  The stream is taken
    without its buffer: [fwrite] delivers at once, and its result tells
    at once what the device did not accept.  On the fully buffered
    stream that [fopen] gives, a write that the device cuts short shows
    in the result of the [fwrite] that flushes the buffer or of
    [fclose], not of the [fwrite] that was given the bytes: the results
    of [fwrite] and of the writers on a device without room are those
    of a stream without buffer.  For a device with room for all that is
    written, the buffer changes no result. *)

Record FILE : Type := {
  written : list Z;
  room : Z
}.

(** [fwrite(ptr, size, nmemb, f)] on a stream without buffer: the
    result is the number of whole items delivered. *)
Definition fwrite (ptr : list Z) (size nmemb : Z) : M FILE Z :=
  fun f =>
    match load ptr 0 (size * nmemb) with
    | Done bytes =>
        let k := Z.max 0 (Z.min (size * nmemb) (room f)) in
        Done (k / size,
              {| written := written f ++ firstn (Z.to_nat k) bytes;
                 room := room f - k |})
    | Undefined => Undefined
    | Timeout => Timeout
    end.

(** [if (m != expect) return 0;] followed by [k]. *)
Definition or_return_0 {S : Type} (m : M S Z) (expect : Z) (k : M S Z)
    : M S Z :=
  n <- m ;; if n =? expect then k else ret 0.

Definition SAMPLE_RATE : Z := 32000.
Definition CHANNELS : Z := 2.
Definition sizeof_int16_t : Z := 2.

Definition write_wav_footer (id3 : str_buffer) : M FILE Z :=
  if len id3 =? 10 then ret 1 else
  or_return_0 (fwrite (cstr "ID3 ") 1 4) 4 (
  or_return_0 (fwrite (pack_uint32le (len id3)) 1 4) 4 (
  or_return_0 (fwrite (x id3) 1 (len id3)) (len id3) (
  ret 1))).

Definition write_wav_header (totalFrames : Z) (id3 : str_buffer)
    : M FILE Z :=
  let dataSize := u32 (u64 (u64 (totalFrames * sizeof_int16_t) * CHANNELS)) in
  let id3Size := if 10 <? len id3 then u32 (len id3 + 8) else 0 in
  or_return_0 (fwrite (cstr "RIFF") 1 4) 4 (
  or_return_0
    (fwrite (pack_uint32le (u32 (u32 (u32 (dataSize + 44) - 8) + id3Size)))
       1 4) 4 (
  or_return_0 (fwrite (cstr "WAVE") 1 4) 4 (
  or_return_0 (fwrite (cstr "fmt ") 1 4) 4 (
  or_return_0 (fwrite (pack_uint32le 16) 1 4) 4 (
  or_return_0 (fwrite (pack_uint16le 1) 1 2) 2 (
  or_return_0 (fwrite (pack_uint16le CHANNELS) 1 2) 2 (
  or_return_0 (fwrite (pack_uint32le SAMPLE_RATE) 1 4) 4 (
  or_return_0
    (fwrite (pack_uint32le (SAMPLE_RATE * CHANNELS * sizeof_int16_t)) 1 4)
    4 (
  or_return_0 (fwrite (pack_uint16le (CHANNELS * sizeof_int16_t)) 1 2) 2 (
  or_return_0 (fwrite (pack_uint16le (sizeof_int16_t * 8)) 1 2) 2 (
  or_return_0 (fwrite (cstr "data") 1 4) 4 (
  or_return_0 (fwrite (pack_uint32le dataSize) 1 4) 4 (
  ret 1))))))))))))).

Definition write_frames (d : list Z) (frameCount : Z) : M FILE Z :=
  n <- fwrite d (sizeof_int16_t * CHANNELS) frameCount ;;
  ret (if n =? frameCount then 1 else 0).

(** ** The fade envelope *)

Definition double : Type := spec_float.

(** Conversion of an integer to [double]; exact below [2 ^ 53]. *)
Definition double_of_Z (z : Z) : double := binary_normalize 53 1024 z 0 false.

Definition fmul (p q : double) : double := SFmul 53 1024 p q.

(** Division; a zero divisor is undefined (C11 6.5.5). *)
Definition fdiv (p q : double) : outcome double :=
  match q with
  | S754_zero _ => Undefined
  | _ => Done (SFdiv 53 1024 p q)
  end.

(** The integral part of a [double], towards zero. *)
Definition trunc_double (d : double) : option Z :=
  match d with
  | S754_zero _ => Some 0
  | S754_finite sign m e =>
      let mag := if 0 <=? e then Zpos m * 2 ^ e else Zpos m / 2 ^ (- e) in
      Some (if sign then - mag else mag)
  | S754_infinity _ => None
  | S754_nan => None
  end.

(** Conversion to [int16_t]; undefined when the integral part does not
    fit (C11 6.3.1.4). *)
Definition int16_of_double (d : double) : outcome Z :=
  match trunc_double d with
  | Some z => if in_int16 z then Done z else Undefined
  | None => Undefined
  end.

(** [data[k] *= fade] *)
Definition scale (k : Z) (fade : double) : M (list Z) unit :=
  v <- peek k ;;
  v' <- lift (int16_of_double (fmul (double_of_Z v) fade)) ;;
  poke k [v'].

(** [fade = (double)(f-i) / (double)framesFade] *)
Definition fade_factor (f i framesFade : Z) : outcome double :=
  fdiv (double_of_Z (u32 (f - i))) (double_of_Z framesFade).

Fixpoint fade_loop (fuel : nat) (framesFade frameCount f i : Z)
    : M (list Z) unit :=
  if i <? frameCount then
    match fuel with
    | O => timeout
    | S fuel' =>
        fade <- lift (fade_factor f i framesFade) ;;
        scale (u32 (u32 (i * 2) + 0)) fade ;;
        scale (u32 (u32 (i * 2) + 1)) fade ;;
        fade_loop fuel' framesFade frameCount f (u32 (i + 1))
    end
  else ret tt.

(** The start index [i] and the window end [f], lines 390 to 395. *)
Definition fade_window (framesRem framesFade : Z) : Z * Z :=
  if framesFade <? framesRem then
    let i := u32 (framesRem - framesFade) in
    (i, u32 (framesFade + i))
  else (0, framesRem).

(** The loop runs at most [frameCount] times, which is the fuel. *)
Definition fade_frames (framesRem framesFade frameCount : Z)
    : M (list Z) unit :=
  if framesFade <? u32 (framesRem - frameCount) then ret tt else
  let '(i, f) := fade_window framesRem framesFade in
  fade_loop (Z.to_nat frameCount) framesFade frameCount f i.

(** ** The frame packer *)

Fixpoint pack_frames_loop (fuel : nat) (s : list Z) (frameCount i d : Z)
    : M (list Z) unit :=
  if i <? frameCount then
    match fuel with
    | O => timeout
    | S fuel' =>
        l <- lift (read s (u32 (u32 (i * 2) + 0))) ;;
        poke d (pack_int16le l) ;;
        r <- lift (read s (u32 (u32 (i * 2) + 1))) ;;
        poke (d + sizeof_int16_t) (pack_int16le r) ;;
        pack_frames_loop fuel' s frameCount (u32 (i + 1))
          (d + sizeof_int16_t * CHANNELS)
    end
  else ret tt.

Definition pack_frames (s : list Z) (frameCount : Z) : M (list Z) unit :=
  pack_frames_loop (Z.to_nat frameCount) s frameCount 0 0.

(** ** The streaming render loop

    The decoder and the filter are collaborators: [spc_play spc count buf]
    decodes [count] samples into [buf], [spc_filter_run flt buf count]
    filters them in place. *)

Section Render.

Variables SNES_SPC SPC_Filter : Type.
Variable spc_play : SNES_SPC -> Z -> list Z -> SNES_SPC * list Z.
Variable spc_filter_run : SPC_Filter -> list Z -> Z -> SPC_Filter * list Z.

(** What [main] holds while it renders. *)
Record job : Type := {
  spc : SNES_SPC;
  flt : SPC_Filter;
  buf : list Z;        (* audio samples, native machine format *)
  pac : list Z;        (* audio samples, little-endian format *)
  out : FILE;
  stderr : list string (* lines printed to the error stream *)
}.

Definition set_buf (b : list Z) (j : job) : job :=
  {| spc := spc j; flt := flt j; buf := b; pac := pac j;
     out := out j; stderr := stderr j |}.

Definition set_pac (p : list Z) (j : job) : job :=
  {| spc := spc j; flt := flt j; buf := buf j; pac := p;
     out := out j; stderr := stderr j |}.

Definition set_out (f : FILE) (j : job) : job :=
  {| spc := spc j; flt := flt j; buf := buf j; pac := pac j;
     out := f; stderr := stderr j |}.

(** [spc_play(spc, fc * 2, buf); spc_filter_run(filter, buf, fc * 2);] *)
Definition decode (fc : Z) : M job unit :=
  fun j =>
    let '(spc', b1) := spc_play (spc j) (fc * 2) (buf j) in
    let '(flt', b2) := spc_filter_run (flt j) b1 (fc * 2) in
    Done (tt, {| spc := spc'; flt := flt'; buf := b2; pac := pac j;
                 out := out j; stderr := stderr j |}).

(** The loop of lines 264 to 272; the results of [write_frames] are
    dropped there. *)
Fixpoint render_loop (fuel : nat) (totalFrames fadeFrames : Z)
    : M job unit :=
  if totalFrames =? 0 then ret tt else
  match fuel with
  | O => timeout
  | S fuel' =>
      let fc := if totalFrames <? 4096 then totalFrames else 4096 in
      decode fc ;;
      zoom buf set_buf (fade_frames (u32 totalFrames) (u32 fadeFrames) fc) ;;
      j <- get ;;
      zoom pac set_pac (pack_frames (buf j) fc) ;;
      j <- get ;;
      zoom out set_out (write_frames (pac j) fc) ;;
      render_loop fuel' (u64 (totalFrames - fc)) fadeFrames
  end.

(** Lines 263 to 283 of [main]; the result is the exit status. *)
Definition main_render (fuel : nat) (totalFrames fadeFrames : Z)
    (id3 : str_buffer) : M job Z :=
  zoom out set_out (write_wav_header totalFrames id3) ;;
  render_loop fuel totalFrames fadeFrames ;;
  zoom out set_out (write_wav_footer id3) ;;
  ret 0.

End Render.

Arguments spc {SNES_SPC SPC_Filter} j.
Arguments flt {SNES_SPC SPC_Filter} j.
Arguments buf {SNES_SPC SPC_Filter} j.
Arguments pac {SNES_SPC SPC_Filter} j.
Arguments out {SNES_SPC SPC_Filter} j.
Arguments stderr {SNES_SPC SPC_Filter} j.
Arguments set_buf {SNES_SPC SPC_Filter} b j.
Arguments set_pac {SNES_SPC SPC_Filter} p j.
Arguments set_out {SNES_SPC SPC_Filter} f j.
Arguments render_loop {SNES_SPC SPC_Filter} spc_play spc_filter_run fuel
  totalFrames fadeFrames.
Arguments main_render {SNES_SPC SPC_Filter} spc_play spc_filter_run fuel
  totalFrames fadeFrames id3.

(** A decoder that yields the sample pair [(l, r)] for every frame, and
    a filter that leaves the samples as they are. *)
Definition constant_play (l r : Z) (st : unit) (count : Z) (b : list Z)
    : unit * list Z :=
  (st, firstn (Z.to_nat count) (concat (repeat [l; r] (Z.to_nat count)))
       ++ skipn (Z.to_nat count) b).

Definition identity_filter (st : unit) (b : list Z) (count : Z)
    : unit * list Z :=
  (st, b).

(** The sample pair of frame [k] in a stream of packed frames. *)
Definition frame_at (k : Z) (bytes : list Z) : Z * Z :=
  (unpack_int16le (slice (4 * k) 2 bytes),
   unpack_int16le (slice (4 * k + 2) 2 bytes)).

(** ** Definitions for the statements

    Readers of the output formats were given with the packing
    primitives; what follows names the inputs and the layouts that the
    theorems speak about. *)

(** The 44 bytes of the header, from the two sizes it carries. *)
Definition wav_header (riffSize dataSize : Z) : list Z :=
  cstr "RIFF" ++ pack_uint32le riffSize ++ cstr "WAVE" ++ cstr "fmt "
  ++ pack_uint32le 16 ++ pack_uint16le 1 ++ pack_uint16le 2
  ++ pack_uint32le 32000 ++ pack_uint32le 128000 ++ pack_uint16le 4
  ++ pack_uint16le 16 ++ cstr "data" ++ pack_uint32le dataSize.

(** The four bytes of a 32-bit integer in little-endian order: the
    least significant byte first. *)
Definition le32 (n : Z) : list Z :=
  [n mod 256; n / 256 mod 256; n / 65536 mod 256; n / 16777216 mod 256].

(** The factor one half, [1 * 2 ^ (-1)], as a binary64 number. *)
Definition one_half : double := S754_finite false 4503599627370496 (-53).

(** The state of [main] before rendering: the chunk buffers as they are
    allocated, an output device that accepts [space] bytes, and nothing
    printed so far. *)
Definition studio (space : Z) : job unit unit :=
  {| spc := tt; flt := tt;
     buf := repeat 0 (Z.to_nat (2 * 4096));
     pac := repeat 0 (Z.to_nat (2 * 2 * 4096));
     out := {| written := []; room := space |};
     stderr := [] |}.

(** ** The layout of the tag, as lists of bytes *)

(** Store [bytes] at the used length and advance by their number. *)
Definition emit (bytes : list Z) : M str_buffer unit :=
  s <- get ;;
  on_x (poke (len s) bytes) ;;
  advance (Z.of_nat (length bytes)).

(** The state after a successful [emit]. *)
Definition appended (bytes : list Z) (s : str_buffer) : str_buffer :=
  {| x := firstn (Z.to_nat (len s)) (x s) ++ bytes
          ++ skipn (Z.to_nat (len s) + length bytes) (x s);
     a := a s;
     len := u32 (len s + Z.of_nat (length bytes)) |}.

Definition text_frame (frame data : list Z) (datalen : Z) : list Z :=
  firstn 4 frame ++ pack_uint32_syncsafe (1 + datalen + 1) ++ [0; 0; 3]
  ++ firstn (Z.to_nat datalen) data ++ [0].

Definition comment_frame (data : list Z) (datalen : Z) : list Z :=
  cstr "COMM" ++ pack_uint32_syncsafe (1 + 3 + datalen + 1 + 1) ++ [0; 0; 3]
  ++ cstr "eng" ++ [0] ++ firstn (Z.to_nat datalen) data ++ [0].

Definition private_frame (description data : list Z) (datalen : Z)
    : list Z :=
  cstr "TXXX"
  ++ pack_uint32_syncsafe (1 + strlen description + 1 + datalen + 1)
  ++ [0; 0; 3]
  ++ firstn (Z.to_nat (strlen description)) description ++ [0]
  ++ firstn (Z.to_nat datalen) data ++ [0].

(** A tag whose total-size field is brought up to date. *)
Definition set_size (tag : list Z) : list Z :=
  firstn 6 tag ++ pack_uint32_syncsafe (Z.of_nat (length tag) - 10)
  ++ skipn 10 tag.

(** The representation invariant of a buffer that holds a tag: a
    preamble is in place, the used length does not exceed the capacity,
    and the recorded capacity is the size of the object. *)
Definition tag_ok (s : str_buffer) : Prop :=
  10 <= len s <= a s /\ Z.of_nat (length (x s)) = a s /\ a s < 2 ^ 32.

(** The buffer after [id3_update_len]. *)
Definition sealed (s : str_buffer) : str_buffer :=
  set_x (firstn 6 (x s) ++ pack_uint32_syncsafe (u32 (len s - 10))
         ++ skipn 10 (x s)) s.

(** [s1] is [s] with more room at the end of its object. *)
Definition grown (s s1 : str_buffer) : Prop :=
  exists k : nat,
    x s1 = x s ++ repeat 0 k /\ a s1 = a s + Z.of_nat k /\ len s1 = len s.

(** [s'] is [s] with the frame [F] appended and the tag sealed. *)
Definition extended (s : str_buffer) (F : list Z) (s' : str_buffer) : Prop :=
  tag_ok s'
  /\ len s' = len s + Z.of_nat (length F)
  /\ used s' = set_size (used s ++ F)
  /\ slice 6 4 (x s') = pack_uint32_syncsafe (len s' - 10)
  /\ (forall off n : Z,
        0 <= off -> 0 <= n -> off + n <= Z.of_nat (length F) ->
        slice (len s + off) n (x s') = slice off n F).

(** The three operations that add a frame. *)
Inductive tag_op : Type :=
| AddText (frame data : list Z) (datalen : Z)
| AddComment (data : list Z) (datalen : Z)
| AddPrivate (description data : list Z) (datalen : Z).

Definition run_op (may_alloc : Z -> bool) (fuel : nat) (op : tag_op)
    : M str_buffer Z :=
  match op with
  | AddText frame data datalen =>
      id3_add_text may_alloc fuel frame data datalen
  | AddComment data datalen =>
      id3_add_comment may_alloc fuel data datalen
  | AddPrivate description data datalen =>
      id3_add_private may_alloc fuel description data datalen
  end.

(** The buffers that the tag builder produces: a buffer whose object has
    the recorded capacity, initialised by [id3_init], and then extended
    by successful additions. *)
Inductive built (may_alloc : Z -> bool) : str_buffer -> Prop :=
| built_init (s s' : str_buffer) :
    Z.of_nat (length (x s)) = a s ->
    a s < 2 ^ 32 ->
    id3_init s = Done (tt, s') ->
    built may_alloc s'
| built_add (fuel : nat) (op : tag_op) (s s' : str_buffer) :
    built may_alloc s ->
    run_op may_alloc fuel op s = Done (0, s') ->
    built may_alloc s'.

(** The frame that an operation appends. *)
Definition frame_of (op : tag_op) : list Z :=
  match op with
  | AddText frame data datalen => text_frame frame data datalen
  | AddComment data datalen => comment_frame data datalen
  | AddPrivate description data datalen =>
      private_frame description data datalen
  end.

(** The tag buffer of a run that embeds no tag: the preamble alone. *)
Definition empty_tag : str_buffer :=
  {| x := [73; 68; 51; 4; 0; 0; 0; 0; 0; 0] ++ repeat 0 (Z.to_nat 4086);
     a := 4096;
     len := 10 |}.

(** A text of [2 ^ 28] bytes. *)
Definition long_text : list Z := repeat (chr "A") (Z.to_nat (2 ^ 28)).

(** A 256-byte text field of the metadata block, padded with zeros. *)
Definition field (s : string) : list Z :=
  cstr s ++ repeat 0 (256 - length (cstr s)).

(** The buffer as [main] allocates it, before [id3_init]. *)
Definition raw_buffer : str_buffer :=
  {| x := repeat 0 (Z.to_nat 4096); a := 4096; len := 0 |}.

(** The payload length of the frame that an operation appends, by the
    formulas of the tag builder's contract. *)
Definition payload_length (op : tag_op) : Z :=
  match op with
  | AddText _ _ n => n + 2
  | AddComment _ n => n + 6
  | AddPrivate description _ n => 1 + strlen description + 1 + n + 1
  end.

(** *** The tag that [main] assembles *)

Definition preamble : list Z := cstr "ID3" ++ [4; 0; 0; 0; 0; 0; 0].

Definition optional (cond : bool) (F : list Z) : list Z :=
  if cond then F else [].

Definition frame_song (id6 : id666) : list Z :=
  optional (negb (strnlen (song id6) 256 =? 0))
    (text_frame (cstr "TIT2") (song id6) (strnlen (song id6) 256)).

Definition frame_game (id6 : id666) : list Z :=
  optional (negb (strnlen (game id6) 256 =? 0))
    (text_frame (cstr "TALB") (game id6) (strnlen (game id6) 256)).

(** The data length of this frame is the length of the game title,
    as line 223 has it. *)
Definition frame_dumper (id6 : id666) : list Z :=
  optional (negb (strnlen (dumper id6) 256 =? 0))
    (private_frame (cstr "spc_dumper") (dumper id6)
       (strnlen (game id6) 256)).

Definition frame_comment (id6 : id666) : list Z :=
  optional (negb (strnlen (comment id6) 256 =? 0))
    (comment_frame (comment id6) (strnlen (comment id6) 256)).

Definition frame_artist (id6 : id666) : list Z :=
  optional (negb (strnlen (artist id6) 256 =? 0))
    (text_frame (cstr "TPE1") (artist id6) (strnlen (artist id6) 256)).

Definition frame_publisher (id6 : id666) : list Z :=
  optional (negb (strnlen (publisher id6) 256 =? 0))
    (text_frame (cstr "TPUB") (publisher id6)
       (strnlen (publisher id6) 256)).

Definition frame_year (id6 : id666) : list Z :=
  optional (negb (year id6 =? -1))
    (text_frame (cstr "TDRC") (yearTmp (year id6))
       (strlen (yearTmp (year id6)))).

Definition tag_frames (id6 : id666) : list Z :=
  frame_song id6 ++ frame_game id6 ++ frame_dumper id6 ++ frame_comment id6
  ++ frame_artist id6 ++ frame_publisher id6 ++ frame_year id6.

(** The buffer holds the sealed tag with the frames [Fs]. *)
Definition holds (s : str_buffer) (Fs : list Z) : Prop :=
  tag_ok s /\ used s = set_size (preamble ++ Fs).

(** Metadata with a game title longer than the name of the dumper. *)
Definition zelda : id666 :=
  {| song := field ""; game := field "Zelda"; dumper := field "Bob";
     comment := field ""; artist := field ""; publisher := field "";
     year := -1 |}.

(** Whether the source objects of an operation hold the bytes that it
    copies. *)
Definition readable (op : tag_op) : bool :=
  match op with
  | AddText frame data n => in_bounds frame 0 4 && in_bounds data 0 n
  | AddComment data n => in_bounds data 0 n
  | AddPrivate description data n =>
      in_bounds description 0 (strlen description) && in_bounds data 0 n
  end.

(** * The rest of the program *)

(** ** Text functions of the C library

    On strings as lists of bytes: the terminator is the first zero byte
    or the end of the list.  The locale is the "C" locale, which [main]
    never changes. *)

(** The characters of a string, before its terminator. *)
Definition chars (s : list Z) : list Z := firstn (Z.to_nat (strlen s)) s.

Definition tolower (c : Z) : Z :=
  if (65 <=? c) && (c <=? 90) then c + 32 else c.

Fixpoint strcmp (s1 s2 : list Z) : Z :=
  match s1, s2 with
  | [], [] => 0
  | [], c2 :: _ => 0 - c2
  | c1 :: _, [] => c1
  | c1 :: t1, c2 :: t2 =>
      if c1 =? c2 then (if c1 =? 0 then 0 else strcmp t1 t2) else c1 - c2
  end.

Fixpoint strncasecmp (s1 s2 : list Z) (n : nat) : Z :=
  match n with
  | O => 0
  | S n' =>
      let c1 := tolower (hd 0 s1) in
      let c2 := tolower (hd 0 s2) in
      if c1 =? c2
      then (if c1 =? 0 then 0 else strncasecmp (tl s1) (tl s2) n')
      else c1 - c2
  end.

(** [strchr(s, c)] for a character [c] other than the terminator: the
    string from the first [c] on, [None] for a null pointer. *)
Fixpoint strchr (s : list Z) (c : Z) : option (list Z) :=
  match s with
  | [] => None
  | b :: s' =>
      if b =? 0 then None
      else if b =? c then Some s
      else strchr s' c
  end.

(** [strrchr(s, c)] for a character [c] other than the terminator: the
    index of the last [c], [None] for a null pointer. *)
Fixpoint strrchr (s : list Z) (c : Z) : option Z :=
  match s with
  | [] => None
  | b :: s' =>
      if b =? 0 then None
      else match strrchr s' c with
           | Some i => Some (i + 1)
           | None => if b =? c then Some 0 else None
           end
  end.

Definition str_equals (s1 s2 : list Z) : bool := strcmp s1 s2 =? 0.

Definition str_istarts (s1 s2 : list Z) : bool :=
  strncasecmp s1 s2 (Z.to_nat (strlen s2)) =? 0.

(** The decimal text of an integer, as the conversion [%d] prints it. *)
Definition decimal (n : Z) : list Z :=
  cstr (NilZero.string_of_int (Z.to_int n)).

(** [%0wd] with an [unsigned int] argument: defined when the value is
    one that [int] has as well (C11 7.21.6.1 and 6.5.2.2). *)
Definition printf_0d (w : nat) (v : Z) : outcome (list Z) :=
  if v <=? 2147483647
  then Done (repeat (chr "0") (w - length (decimal v)) ++ decimal v)
  else Undefined.

(** ** Numbers on the command line *)

Fixpoint scan_uint_loop (s : list Z) (num : Z) : Z :=
  match s with
  | [] => num
  | c :: s' =>
      if c =? 0 then num
      else if (c <? 48) || (57 <? c) then num
      else scan_uint_loop s' (u32 (u32 (num * 10) + (c - 48)))
  end.

Definition scan_uint (str : list Z) : Z := scan_uint_loop str 0.

(** ** Times on the error stream *)

(** The state is the static [time_buf]. *)
Definition frame_to_time (frames : Z) : M (list Z) unit :=
  poke 0 [0] ;;
  let frames := frames / 32 in
  let mill := u32 (frames mod 1000) in
  let frames := frames / 1000 in
  let sec := u32 (frames mod 60) in
  let frames := frames / 60 in
  let min := u32 frames in
  m <- lift (printf_0d 2 min) ;;
  s <- lift (printf_0d 2 sec) ;;
  ms <- lift (printf_0d 3 mill) ;;
  poke 0 (m ++ cstr ":" ++ s ++ cstr "." ++ ms ++ [0]).

Definition time_buf : list Z := repeat 0 256.

(** ** The command line *)

Definition DEFAULT_AMP : Z := 0x180.

(** The settings that the options of the command line change. *)
Record settings : Type := {
  amp : Z;        (* [unsigned int] *)
  useAmpTag : Z;  (* [int] *)
  embedId3 : Z;   (* [int] *)
  fadeSecs : Z;   (* [uint32_t] *)
  totalSecs : Z   (* [uint32_t] *)
}.

Definition set_amp (v : Z) (o : settings) : settings :=
  {| amp := v; useAmpTag := useAmpTag o; embedId3 := embedId3 o;
     fadeSecs := fadeSecs o; totalSecs := totalSecs o |}.

Definition set_useAmpTag (v : Z) (o : settings) : settings :=
  {| amp := amp o; useAmpTag := v; embedId3 := embedId3 o;
     fadeSecs := fadeSecs o; totalSecs := totalSecs o |}.

Definition set_embedId3 (v : Z) (o : settings) : settings :=
  {| amp := amp o; useAmpTag := useAmpTag o; embedId3 := v;
     fadeSecs := fadeSecs o; totalSecs := totalSecs o |}.

Definition set_fadeSecs (v : Z) (o : settings) : settings :=
  {| amp := amp o; useAmpTag := useAmpTag o; embedId3 := embedId3 o;
     fadeSecs := v; totalSecs := totalSecs o |}.

Definition set_totalSecs (v : Z) (o : settings) : settings :=
  {| amp := amp o; useAmpTag := useAmpTag o; embedId3 := embedId3 o;
     fadeSecs := fadeSecs o; totalSecs := v |}.

(** Lines 75 to 83 of [main]. *)
Definition initial_settings : settings :=
  {| amp := DEFAULT_AMP; useAmpTag := 0; embedId3 := 0;
     fadeSecs := 0; totalSecs := 0 |}.

(** [fprintf(stderr, ...)]: the state is the bytes on the error stream. *)
Definition fprintf (text : list Z) : M (list Z) unit :=
  fun err => Done (tt, err ++ text).

Definition usage (self : list Z) (e : Z) : M (list Z) Z :=
  fprintf (cstr "Usage: " ++ chars self
           ++ cstr " --amp (amplitude) --use-amp-tag --id3 /path/to/file"
           ++ [10]) ;;
  fprintf (cstr "  " ++ [34] ++ cstr "Accurate" ++ [34]
           ++ cstr " SNES amplitude = 256" ++ [10]) ;;
  fprintf (cstr "  Default = 384" ++ [10]) ;;
  ret e.

(** How the option loop of [main] ends. *)
Inductive parsed : Type :=
| Exit (status : Z)                          (* [main] returns *)
| Files (o : settings) (argv : list (list Z)). (* [main] goes on *)

(** The loop of lines 87 to 154 on the arguments that are left; [argc]
    is their number, and [argv[argc]] is a null pointer. *)
Fixpoint parse_options (self : list Z) (o : settings)
    (argv : list (list Z)) : M (list Z) parsed :=
  match argv with
  | [] => ret (Files o [])
  | arg :: rest =>
      if str_equals arg (cstr "--") then ret (Files o rest)
      else if str_istarts arg (cstr "--amp") then
        match strchr arg (chr "=") with
        | Some c =>
            let v := scan_uint (tl c) in
            if v =? 0 then r <- usage self 1 ;; ret (Exit r)
            else parse_options self (set_amp v o) rest
        | None =>
            match rest with
            | [] => fun _ => Undefined (* [scan_uint] reads a null pointer *)
            | s :: rest' =>
                let v := scan_uint s in
                if v =? 0 then r <- usage self 1 ;; ret (Exit r)
                else parse_options self (set_amp v o) rest'
            end
        end
      else if str_istarts arg (cstr "--use-amp-tag") then
        parse_options self (set_useAmpTag 1 o) rest
      else if str_istarts arg (cstr "--id3") then
        parse_options self (set_embedId3 1 o) rest
      else if str_istarts arg (cstr "--fade") then
        match strchr arg (chr "=") with
        | Some c =>
            let v := scan_uint (tl c) in
            if v =? 0 then r <- usage self 1 ;; ret (Exit r)
            else parse_options self (set_fadeSecs v o) rest
        | None =>
            match rest with
            | [] => fun _ => Undefined (* [scan_uint] reads a null pointer *)
            | s :: rest' =>
                let v := scan_uint s in
                if v =? 0 then r <- usage self 1 ;; ret (Exit r)
                else parse_options self (set_fadeSecs v o) rest'
            end
        end
      else if str_istarts arg (cstr "--length") then
        match strchr arg (chr "=") with
        | Some c =>
            let v := scan_uint (tl c) in
            if v =? 0 then r <- usage self 1 ;; ret (Exit r)
            else parse_options self (set_totalSecs v o) rest
        | None =>
            match rest with
            | [] => fun _ => Undefined (* [scan_uint] reads a null pointer *)
            | s :: rest' =>
                let v := scan_uint s in
                if v =? 0 then r <- usage self 1 ;; ret (Exit r)
                else parse_options self (set_totalSecs v o) rest'
            end
        end
      else ret (Files o argv)
  end.

(** Lines 75 to 158 of [main], for a program that was started with its
    name in [argv[0]]. *)
Definition main_options (self : list Z) (argv : list (list Z))
    : M (list Z) parsed :=
  p <- parse_options self initial_settings argv ;;
  match p with
  | Exit r => ret (Exit r)
  | Files o [] => r <- usage self 1 ;; ret (Exit r)
  | Files o rest => ret (Files o rest)
  end.

Section OutFile.

Variable may_alloc : Z -> bool.

Definition strdup (s : list Z) : option (list Z) :=
  match malloc may_alloc (u64 (strlen s + 1)) with
  | Some p => Some (chars s ++ [0])
  | None => None
  end.

(** [strcpy(dst, src)] and [strcat(dst, src)] on the object [dst]. *)
Definition strcpy (src : list Z) : M (list Z) unit :=
  poke 0 (chars src ++ [0]).

Definition strcat (src : list Z) : M (list Z) unit :=
  dst <- get ;; poke (strlen dst) (chars src ++ [0]).

(** [c = strrchr(outFile, '.'); *c = 0;] *)
Definition cut_extension : M (list Z) unit :=
  outFile <- get ;;
  match strrchr outFile (chr ".") with
  | Some c => poke c [0]
  | None => fun _ => Undefined
  end.

(** The result of [snprintf(NULL, 0, ...)] for an output of [n]
    characters, converted to [unsigned int]. *)
Definition snprintf_len (n : Z) : Z :=
  u32 (if n <=? 2147483647 then n else -1).

(** Lines 160 to 173 of [main]: the object that [outFile] points to,
    from the arguments that the options left; [None] is a null
    pointer. *)
Definition main_outfile (argv : list (list Z))
    : outcome (option (list Z)) :=
  match argv with
  | [] => Undefined
  | _ :: name :: _ => Done (strdup name)
  | [arg] =>
      match strdup arg with
      | None => Undefined (* [strrchr] reads a null pointer *)
      | Some outFile =>
          match cut_extension outFile with
          | Done (_, outFile) =>
              let outFileLen := snprintf_len (strlen outFile + 4) in
              match malloc may_alloc (u32 (outFileLen + 1)) with
              | None => Undefined (* [strcpy] writes to a null pointer *)
              | Some outFile =>
                  match (strcpy arg ;; cut_extension ;;
                         strcat (cstr ".wav")) outFile with
                  | Done (_, outFile) => Done (Some outFile)
                  | Undefined => Undefined
                  | Timeout => Timeout
                  end
              end
          | Undefined => Undefined
          | Timeout => Timeout
          end
      end
  end.

End OutFile.

(** ** The lengths that [main] renders *)

(** Lines 194 to 204: a length in seconds from the command line, or
    else the length [ticks] of the metadata, converted to [uint64_t]. *)
Definition frames_of (secs ticks : Z) : Z :=
  if secs =? 0 then u64 ticks / 2 else u64 (u64 secs * 32000).

(** ** Definitions for the further statements *)

(** Cells stored into an object at an offset. *)
Definition splice {A : Type} (off : nat) (cells mem : list A) : list A :=
  firstn off mem ++ cells ++ skipn (off + length cells) mem.

(** The little-endian bytes of a run of samples. *)
Definition packed (samples : list Z) : list Z :=
  flat_map pack_int16le samples.

(** Fields written one after the other, each checked as
    [write_wav_header] checks them. *)
Fixpoint write_fields (fields : list (list Z)) : M FILE Z :=
  match fields with
  | [] => ret 1
  | p :: rest =>
      or_return_0 (fwrite p 1 (Z.of_nat (length p))) (Z.of_nat (length p))
        (write_fields rest)
  end.

(** The 44 bytes of the header of a stream of 16-bit stereo samples at
    32000 Hz, byte by byte: the chunk names, a format chunk of 16 bytes
    with format 1 (PCM), 2 channels, 32000 samples and 128000 bytes per
    second, 4 bytes per frame and 16 bits per sample, and the two
    sizes. *)
Definition riff_header (riffSize dataSize : Z) : list Z :=
  cstr "RIFF" ++ le32 riffSize ++ cstr "WAVE" ++ cstr "fmt "
  ++ [16; 0; 0; 0] ++ [1; 0] ++ [2; 0] ++ [0; 125; 0; 0] ++ [0; 244; 1; 0]
  ++ [4; 0] ++ [16; 0] ++ cstr "data" ++ le32 dataSize.

(** The bytes of the footer: none for a tag without frames. *)
Definition wav_footer (id3 : str_buffer) : list Z :=
  if len id3 =? 10 then []
  else cstr "ID3 " ++ le32 (len id3) ++ used id3.

(** The two size fields of the header. *)
Definition data_size (totalFrames : Z) : Z := (totalFrames * 2 * 2) mod 2 ^ 32.

Definition riff_size (totalFrames : Z) (id3 : str_buffer) : Z :=
  (data_size totalFrames + 44 - 8
   + (if 10 <? len id3 then len id3 + 8 else 0)) mod 2 ^ 32.

(** A tag buffer of 32 bytes that holds the preamble alone. *)
Definition small_tag : str_buffer :=
  {| x := preamble ++ repeat 0 22; a := 32; len := 10 |}.

(** A tag buffer whose used part is the preamble and two more bytes. *)
Definition marked_tag : str_buffer :=
  {| x := preamble ++ [7; 7]; a := 12; len := 12 |}.

(** A tag buffer of 300 bytes, all of them used. *)
Definition long_tag : str_buffer :=
  {| x := preamble ++ repeat 7 290; a := 300; len := 300 |}.

(** A state of [main] with room for two frames in its buffers. *)
Definition booth (space : Z) : job unit unit :=
  {| spc := tt; flt := tt;
     buf := [0; 0; 0; 0];
     pac := [0; 0; 0; 0; 0; 0; 0; 0];
     out := {| written := []; room := space |};
     stderr := [] |}.

Section Rendered.

Variables SNES_SPC SPC_Filter : Type.
Variable spc_play : SNES_SPC -> Z -> list Z -> SNES_SPC * list Z.
Variable spc_filter_run : SPC_Filter -> list Z -> Z -> SPC_Filter * list Z.

(** The samples of a stream of [totalFrames] frames without a fade,
    from the decoder and the filter alone: chunks of at most 4096
    frames, each one what the decoder left in the buffer and the filter
    made of it, with the states of both carried from chunk to chunk. *)
Fixpoint decoded (fuel : nat) (totalFrames : Z) (st : SNES_SPC)
    (ft : SPC_Filter) (b : list Z) : list Z :=
  if totalFrames =? 0 then [] else
  match fuel with
  | O => []
  | S fuel' =>
      let fc := if totalFrames <? 4096 then totalFrames else 4096 in
      let '(st', b1) := spc_play st (fc * 2) b in
      let '(ft', b2) := spc_filter_run ft b1 (fc * 2) in
      firstn (Z.to_nat (2 * fc)) b2
      ++ decoded fuel' (totalFrames - fc) st' ft' b2
  end.

(** The same with the fade: each chunk goes through [fade_frames] with
    the number of frames that are left. *)
Fixpoint rendered (fuel : nat) (totalFrames fadeFrames : Z) (st : SNES_SPC)
    (ft : SPC_Filter) (b : list Z) : outcome (list Z) :=
  if totalFrames =? 0 then Done [] else
  match fuel with
  | O => Timeout
  | S fuel' =>
      let fc := if totalFrames <? 4096 then totalFrames else 4096 in
      let '(st', b1) := spc_play st (fc * 2) b in
      let '(ft', b2) := spc_filter_run ft b1 (fc * 2) in
      match fade_frames (u32 totalFrames) (u32 fadeFrames) fc b2 with
      | Done (_, b3) =>
          match rendered fuel' (totalFrames - fc) fadeFrames st' ft' b3 with
          | Done rest => Done (firstn (Z.to_nat (2 * fc)) b3 ++ rest)
          | Undefined => Undefined
          | Timeout => Timeout
          end
      | Undefined => Undefined
      | Timeout => Timeout
      end
  end.

End Rendered.

Arguments decoded {SNES_SPC SPC_Filter} spc_play spc_filter_run fuel
  totalFrames st ft b.
Arguments rendered {SNES_SPC SPC_Filter} spc_play spc_filter_run fuel
  totalFrames fadeFrames st ft b.

(** Whether a string ends the digits of a number: it is empty, or its
    first byte is not a digit. *)
Definition no_digit (rest : list Z) : Prop :=
  match rest with
  | [] => True
  | c :: _ => c < 48 \/ 57 < c
  end.

(** The digits of a decimal numeral, most significant first. *)
Definition digits (d : Decimal.uint) : list Z :=
  cstr (NilEmpty.string_of_uint d).

(** The value of a numeral after the digits [acc]. *)
Fixpoint value_acc (d : Decimal.uint) (acc : Z) : Z :=
  match d with
  | Decimal.Nil => acc
  | Decimal.D0 l => value_acc l (0 + 10 * acc)
  | Decimal.D1 l => value_acc l (1 + 10 * acc)
  | Decimal.D2 l => value_acc l (2 + 10 * acc)
  | Decimal.D3 l => value_acc l (3 + 10 * acc)
  | Decimal.D4 l => value_acc l (4 + 10 * acc)
  | Decimal.D5 l => value_acc l (5 + 10 * acc)
  | Decimal.D6 l => value_acc l (6 + 10 * acc)
  | Decimal.D7 l => value_acc l (7 + 10 * acc)
  | Decimal.D8 l => value_acc l (8 + 10 * acc)
  | Decimal.D9 l => value_acc l (9 + 10 * acc)
  end.

(** The three lines of [usage]. *)
Definition usage_text (self : list Z) : list Z :=
  (cstr "Usage: " ++ chars self
   ++ cstr " --amp (amplitude) --use-amp-tag --id3 /path/to/file" ++ [10])
  ++ (cstr "  " ++ [34] ++ cstr "Accurate" ++ [34]
      ++ cstr " SNES amplitude = 256" ++ [10])
  ++ (cstr "  Default = 384" ++ [10]).

(** What a run of the option loop can end with. *)
Definition loop_outcome (self : list Z) (argv : list (list Z))
    (err : list Z) (p : parsed) (err' : list Z) : Prop :=
  match p with
  | Exit r => r = 1 /\ err' = err ++ usage_text self
  | Files o rest =>
      err' = err /\ amp o <> 0 /\ exists k : nat, rest = skipn k argv
  end.

(** The setting that an option with a value changes, by the tests of
    lines 93, 119 and 135. *)
Definition option_setter (arg : list Z)
    : option (Z -> settings -> settings) :=
  if str_istarts arg (cstr "--amp") then Some set_amp
  else if str_istarts arg (cstr "--fade") then Some set_fadeSecs
  else if str_istarts arg (cstr "--length") then Some set_totalSecs
  else None.

(** The names of the options that take a value, with their settings. *)
Definition value_options : list (list Z * (Z -> settings -> settings)) :=
  [ (cstr "--amp", set_amp); (cstr "--fade", set_fadeSecs);
    (cstr "--length", set_totalSecs) ].

(** The end of a string inside an object: the end of the object, or a
    zero byte. *)
Definition ends (rest : list Z) : Prop :=
  match rest with
  | [] => True
  | c :: _ => c = 0
  end.

(** The zero-padded text of a number. *)
Definition padded (w : nat) (v : Z) : list Z :=
  repeat (chr "0") (w - length (decimal v)) ++ decimal v.

(** The fields of the text of [frame_to_time]. *)
Definition time_text (min sec mill : Z) : list Z :=
  padded 2 min ++ cstr ":" ++ padded 2 sec ++ cstr "." ++ padded 3 mill.

(** * Properties *)

(** ** Machine integers *)

Lemma u8_small (z : Z) : 0 <= z < 256 -> u8 z = z.
Proof. intros H. unfold u8. apply Z.mod_small. lia. Qed.

Lemma u32_small (z : Z) : 0 <= z < 2 ^ 32 -> u32 z = z.
Proof. intros H. unfold u32. apply Z.mod_small. lia. Qed.

Lemma u64_small (z : Z) : 0 <= z < 2 ^ 64 -> u64 z = z.
Proof. intros H. unfold u64. apply Z.mod_small. lia. Qed.

Lemma u32_range (z : Z) : 0 <= u32 z < 2 ^ 32.
Proof. unfold u32. apply Z.mod_pos_bound. lia. Qed.

(** ** The monad *)

Lemma bind_get {S A : Type} (k : S -> M S A) (s : S) :
  (v <- get ;; k v) s = k s s.
Proof. reflexivity. Qed.

Lemma bind_Done {S A B : Type} (m : M S A) (k : A -> M S B) (s : S)
    (r : B * S) :
  (v <- m ;; k v) s = Done r ->
  exists (v : A) (s1 : S), m s = Done (v, s1) /\ k v s1 = Done r.
Proof.
  unfold bind. destruct (m s) as [[v s1] | |]; try discriminate.
  intros Hk. exists v, s1. split; [reflexivity | exact Hk].
Qed.

(** ** Packing *)

(** Each byte of the syncsafe form is a group of seven bits. *)
Lemma syncsafe_group (val mask k : Z) :
  0 <= k ->
  Z.shiftr mask k = 127 ->
  u8 (Z.shiftr (Z.land val mask) k) = (val / 2 ^ k) mod 128.
Proof.
  intros Hk Hmask.
  rewrite Z.shiftr_land, Hmask.
  change 127 with (Z.ones 7).
  rewrite Z.land_ones by lia.
  rewrite Z.shiftr_div_pow2 by lia.
  apply u8_small.
  change (2 ^ 7) with 128.
  pose proof (Z.mod_pos_bound (val / 2 ^ k) 128). lia.
Qed.

Lemma pack_uint32_syncsafe_groups (val : Z) :
  pack_uint32_syncsafe val =
  [ (val / 2 ^ 21) mod 128; (val / 2 ^ 14) mod 128;
    (val / 2 ^ 7) mod 128; val mod 128 ].
Proof.
  unfold pack_uint32_syncsafe.
  rewrite !syncsafe_group by (reflexivity || lia).
  replace (u8 (Z.land val 127)) with (val mod 128).
  - reflexivity.
  - change 127 with (Z.ones 7). rewrite Z.land_ones by lia.
    symmetry. apply u8_small.
    change (2 ^ 7) with 128.
    pose proof (Z.mod_pos_bound val 128). lia.
Qed.

Lemma length_pack_uint32_syncsafe (val : Z) :
  length (pack_uint32_syncsafe val) = 4%nat.
Proof. reflexivity. Qed.

(** Decoding gives back the low 28 bits. *)
Lemma unpack_pack_syncsafe (val : Z) :
  unpack_uint32_syncsafe (pack_uint32_syncsafe val) = val mod 2 ^ 28.
Proof.
  rewrite pack_uint32_syncsafe_groups.
  unfold unpack_uint32_syncsafe. cbn [fold_left].
  rewrite !Z.mod_mod by lia.
  change (2 ^ 21) with 2097152. change (2 ^ 14) with 16384.
  change (2 ^ 7) with 128. change (2 ^ 28) with 268435456.
  Z.to_euclidean_division_equations. lia.
Qed.

Lemma pack_syncsafe_mod (val : Z) :
  pack_uint32_syncsafe val = pack_uint32_syncsafe (val mod 2 ^ 28).
Proof.
  rewrite !pack_uint32_syncsafe_groups.
  change (2 ^ 21) with 2097152. change (2 ^ 14) with 16384.
  change (2 ^ 7) with 128. change (2 ^ 28) with 268435456.
  f_equal; [| f_equal; [| f_equal; [| f_equal ]]];
    Z.to_euclidean_division_equations; lia.
Qed.

Lemma pack_syncsafe_u32 (val : Z) :
  pack_uint32_syncsafe (u32 val) = pack_uint32_syncsafe val.
Proof.
  rewrite (pack_syncsafe_mod (u32 val)), (pack_syncsafe_mod val).
  f_equal. unfold u32.
  change (2 ^ 32) with 4294967296. change (2 ^ 28) with 268435456.
  Z.to_euclidean_division_equations. lia.
Qed.

Lemma unpack_pack_uint32le (n : Z) :
  unpack_uint32le (pack_uint32le n) = n mod 2 ^ 32.
Proof.
  unfold unpack_uint32le, pack_uint32le, u8. cbn [fold_right].
  rewrite !Z.shiftr_div_pow2 by lia.
  change (2 ^ 8) with 256. change (2 ^ 16) with 65536.
  change (2 ^ 24) with 16777216. change (2 ^ 32) with 4294967296.
  Z.to_euclidean_division_equations. lia.
Qed.

(** C4. Syncsafe round trip: a value below [2 ^ 28] is recovered exactly
    from the four bytes of [pack_uint32_syncsafe], and for every 32-bit
    value the bits from 28 up have no influence on the bytes. *)
Theorem syncsafe_round_trip (v : Z) :
  0 <= v < 2 ^ 32 ->
  (v < 2 ^ 28 ->
   unpack_uint32_syncsafe (pack_uint32_syncsafe v) = v)
  /\ pack_uint32_syncsafe v = pack_uint32_syncsafe (v mod 2 ^ 28).
Proof.
  intros Hv. split.
  - intros Hlt. rewrite unpack_pack_syncsafe. apply Z.mod_small. lia.
  - apply pack_syncsafe_mod.
Qed.

Lemma syncsafe_round_trip_witness :
  0 <= 200000001 < 2 ^ 32
  /\ (200000001 < 2 ^ 28 ->
      unpack_uint32_syncsafe (pack_uint32_syncsafe 200000001) = 200000001)
  /\ pack_uint32_syncsafe 200000001
     = pack_uint32_syncsafe (200000001 mod 2 ^ 28).
Proof.
  split; [lia | apply (syncsafe_round_trip 200000001); lia].
Defined.

(** ** The output file *)

Lemma at_least_length {A : Type} (k : nat) (mem : list A) :
  at_least k mem = true <-> (k <= length mem)%nat.
Proof.
  revert mem. induction k as [|k IH]; intros [|c mem]; cbn [at_least length].
  - split; [lia | reflexivity].
  - split; [lia | reflexivity].
  - split; [discriminate | lia].
  - rewrite IH. lia.
Qed.

Lemma in_bounds_true {A : Type} (mem : list A) (off n : Z) :
  in_bounds mem off n = true <->
  0 <= off /\ 0 <= n /\ off + n <= Z.of_nat (length mem).
Proof.
  unfold in_bounds.
  rewrite !andb_true_iff, !Z.leb_le, at_least_length. lia.
Qed.

Lemma in_bounds_same_length {A : Type} (m1 m2 : list A) (off n : Z) :
  length m1 = length m2 ->
  in_bounds m1 off n = in_bounds m2 off n.
Proof.
  intros Hlen. apply eq_true_iff_eq.
  rewrite !in_bounds_true, Hlen. reflexivity.
Qed.

Lemma load_all {A : Type} (mem : list A) (n : Z) :
  0 <= n <= Z.of_nat (length mem) ->
  load mem 0 n = Done (firstn (Z.to_nat n) mem).
Proof.
  intros H. unfold load.
  replace (in_bounds mem 0 n) with true
    by (symmetry; apply in_bounds_true; lia).
  reflexivity.
Qed.

(** A write that the device accepts in full. *)
Lemma fwrite_all (ptr : list Z) (n : Z) (w : list Z) (r : Z) :
  0 <= n <= Z.of_nat (length ptr) ->
  n <= r ->
  fwrite ptr 1 n {| written := w; room := r |}
  = Done (n, {| written := w ++ firstn (Z.to_nat n) ptr; room := r - n |}).
Proof.
  intros Hn Hr. unfold fwrite.
  rewrite Z.mul_1_l, load_all by lia.
  cbn [room written].
  replace (Z.max 0 (Z.min n r)) with n by lia.
  rewrite Z.div_1_r, firstn_firstn, Nat.min_id.
  reflexivity.
Qed.

Lemma or_return_0_fwrite (ptr : list Z) (n : Z) (k : M FILE Z)
    (w : list Z) (r : Z) :
  Z.of_nat (length ptr) = n ->
  n <= r ->
  or_return_0 (fwrite ptr 1 n) n k {| written := w; room := r |}
  = k {| written := w ++ ptr; room := r - n |}.
Proof.
  intros Hlen Hr. unfold or_return_0, bind.
  rewrite fwrite_all by lia.
  rewrite Z.eqb_refl.
  rewrite firstn_all2 by lia.
  reflexivity.
Qed.

Lemma main_tags_without_id3 (id6 : id666) :
  main_tags (fun _ => true) 0 false id6 id3_buffer = Done (None, empty_tag).
Proof. vm_compute. reflexivity. Qed.

Lemma write_wav_header_bytes (totalFrames : Z) (id3 : str_buffer) (f : FILE) :
  44 <= room f ->
  write_wav_header totalFrames id3 f
  = Done (1, {| written :=
                  written f
                  ++ wav_header
                       (u32 (u32 (u32 (u32 (u64 (u64 (totalFrames * 2) * 2))
                                       + 44) - 8)
                             + (if 10 <? len id3 then u32 (len id3 + 8)
                                else 0)))
                       (u32 (u64 (u64 (totalFrames * 2) * 2)));
                room := room f - 44 |}).
Proof.
  destruct f as [w r]. cbn [room written]. intros Hr.
  unfold write_wav_header, SAMPLE_RATE, CHANNELS, sizeof_int16_t.
  repeat (rewrite or_return_0_fwrite by (try reflexivity; lia)).
  unfold ret, wav_header. rewrite <- !app_assoc.
  do 2 f_equal. f_equal. lia.
Qed.

Lemma wrap_frames (totalFrames : Z) :
  u32 (u64 (u64 (totalFrames * 2) * 2)) = (totalFrames * 2 * 2) mod 2 ^ 32.
Proof.
  unfold u32, u64.
  change (2 ^ 32) with 4294967296. change (2 ^ 64) with 18446744073709551616.
  Z.to_euclidean_division_equations. lia.
Qed.

Lemma wrap_riff (d t : Z) (c : bool) :
  u32 (u32 (u32 (d + 44) - 8) + (if c then u32 t else 0))
  = (d + 44 - 8 + (if c then t else 0)) mod 2 ^ 32.
Proof.
  unfold u32. change (2 ^ 32) with 4294967296.
  destruct c; Z.to_euclidean_division_equations; lia.
Qed.

(** C2, as the code has it.  [write_wav_header] writes a data-size field
    equal to [totalFrames * 2 * 2] reduced modulo [2 ^ 32], and a RIFF
    size field equal to that data size plus [44 - 8] plus, when the used
    length of the tag buffer exceeds 10, that length plus 8, again
    reduced modulo [2 ^ 32].  The fields hold the sums themselves when
    the RIFF sum is below [2 ^ 32]. *)
Theorem write_wav_header_sizes (totalFrames : Z) (id3 : str_buffer)
    (f : FILE) :
  0 <= totalFrames < 2 ^ 64 ->
  0 <= len id3 < 2 ^ 32 ->
  44 <= room f ->
  let dataSize := (totalFrames * 2 * 2) mod 2 ^ 32 in
  let id3Size := if 10 <? len id3 then len id3 + 8 else 0 in
  exists hdr : list Z,
    write_wav_header totalFrames id3 f
    = Done (1, {| written := written f ++ hdr; room := room f - 44 |})
    /\ length hdr = 44%nat
    /\ unpack_uint32le (slice 40 4 hdr) = dataSize
    /\ unpack_uint32le (slice 4 4 hdr)
       = (dataSize + 44 - 8 + id3Size) mod 2 ^ 32
    /\ (totalFrames * 2 * 2 + 44 - 8 + id3Size < 2 ^ 32 ->
        unpack_uint32le (slice 40 4 hdr) = totalFrames * 2 * 2
        /\ unpack_uint32le (slice 4 4 hdr)
           = totalFrames * 2 * 2 + 44 - 8 + id3Size).
Proof.
  intros Hframes Hlen Hroom dataSize id3Size.
  eexists. split; [apply write_wav_header_bytes; exact Hroom|].
  split; [reflexivity|].
  assert (Hdata : unpack_uint32le
                    (slice 40 4
                       (wav_header
                          (u32 (u32 (u32 (u32 (u64 (u64 (totalFrames * 2) * 2))
                                          + 44) - 8)
                                + (if 10 <? len id3 then u32 (len id3 + 8)
                                   else 0)))
                          (u32 (u64 (u64 (totalFrames * 2) * 2)))))
                  = dataSize).
  { change (slice 40 4 (wav_header ?r ?d)) with (pack_uint32le d).
    rewrite unpack_pack_uint32le, wrap_frames.
    apply Z.mod_mod. lia. }
  assert (Hriff : unpack_uint32le
                    (slice 4 4
                       (wav_header
                          (u32 (u32 (u32 (u32 (u64 (u64 (totalFrames * 2) * 2))
                                          + 44) - 8)
                                + (if 10 <? len id3 then u32 (len id3 + 8)
                                   else 0)))
                          (u32 (u64 (u64 (totalFrames * 2) * 2)))))
                  = (dataSize + 44 - 8 + id3Size) mod 2 ^ 32).
  { change (slice 4 4 (wav_header ?r ?d)) with (pack_uint32le r).
    rewrite unpack_pack_uint32le, wrap_riff, wrap_frames.
    apply Z.mod_mod. lia. }
  split; [exact Hdata|]. split; [exact Hriff|].
  intros Hfit. rewrite Hdata, Hriff. subst dataSize id3Size.
  assert (0 <= (if 10 <? len id3 then len id3 + 8 else 0))
    by (destruct (10 <? len id3); lia).
  rewrite (Z.mod_small (totalFrames * 2 * 2)) by lia.
  split; [reflexivity|]. apply Z.mod_small. lia.
Qed.

Lemma write_wav_header_sizes_witness :
  0 <= 1000 < 2 ^ 64 /\ 0 <= len empty_tag < 2 ^ 32
  /\ 44 <= room {| written := []; room := 44 |}
  /\ exists hdr : list Z,
       write_wav_header 1000 empty_tag {| written := []; room := 44 |}
       = Done (1, {| written := [] ++ hdr; room := 44 - 44 |})
       /\ unpack_uint32le (slice 40 4 hdr) = 4000
       /\ unpack_uint32le (slice 4 4 hdr) = 4036.
Proof.
  assert (H1 : 0 <= 1000 < 2 ^ 64) by lia.
  assert (H2 : 0 <= len empty_tag < 2 ^ 32) by (cbn; lia).
  assert (H3 : 44 <= room {| written := []; room := 44 |}) by (cbn; lia).
  repeat (split; [assumption|]).
  destruct (write_wav_header_sizes 1000 empty_tag
              {| written := []; room := 44 |} H1 H2 H3)
    as (hdr & Hrun & _ & _ & _ & Hexact).
  exists hdr. split; [exact Hrun|].
  apply Hexact. cbn. lia.
Defined.

(** The claim of C2 read for every frame count fails where the product
    leaves 32 bits: a length of 40000 seconds is [40000 * 32000] frames,
    and the data-size field holds 825032704 instead of 5120000000. *)
Lemma write_wav_header_wraps :
  exists f' : FILE,
    write_wav_header (40000 * 32000) empty_tag
      {| written := []; room := 44 |}
    = Done (1, f')
    /\ unpack_uint32le (slice 40 4 (written f')) = 825032704
    /\ unpack_uint32le (slice 40 4 (written f')) <> 40000 * 32000 * 2 * 2.
Proof.
  eexists. split; [|split].
  - vm_compute. reflexivity.
  - vm_compute. reflexivity.
  - vm_compute. discriminate.
Qed.

Lemma pack_uint32le_le32 (n : Z) : pack_uint32le n = le32 n.
Proof.
  unfold pack_uint32le, le32, u8.
  rewrite !Z.shiftr_div_pow2 by lia. reflexivity.
Qed.

(** C9. Footer omission: a tag buffer whose used length is exactly 10
    makes [write_wav_footer] write nothing; a buffer whose used length is
    greater than 10 makes it write the magic "ID3 ", the used length as a
    32-bit little-endian integer, least significant byte first, and then
    the used bytes of the buffer. *)
Theorem write_wav_footer_bytes (id3 : str_buffer) (f : FILE) :
  (len id3 = 10 -> write_wav_footer id3 f = Done (1, f))
  /\ (10 < len id3 ->
      len id3 <= Z.of_nat (length (x id3)) ->
      8 + len id3 <= room f ->
      write_wav_footer id3 f
      = Done (1, {| written :=
                      written f ++ [73; 68; 51; 32]
                      ++ [len id3 mod 256; len id3 / 256 mod 256;
                          len id3 / 65536 mod 256;
                          len id3 / 16777216 mod 256]
                      ++ firstn (Z.to_nat (len id3)) (x id3);
                    room := room f - (8 + len id3) |})).
Proof.
  split.
  - intros Hlen. unfold write_wav_footer. rewrite Hlen. reflexivity.
  - intros Hlen Hx Hroom. destruct f as [w r]. cbn [room written] in *.
    unfold write_wav_footer.
    replace (len id3 =? 10) with false by (symmetry; apply Z.eqb_neq; lia).
    do 2 (rewrite or_return_0_fwrite by (try reflexivity; lia)).
    unfold or_return_0, bind.
    rewrite fwrite_all by lia.
    rewrite Z.eqb_refl. unfold ret.
    rewrite pack_uint32le_le32. unfold le32.
    rewrite <- !app_assoc. do 2 f_equal. f_equal. lia.
Qed.

Lemma write_wav_footer_bytes_witness :
  write_wav_footer empty_tag {| written := [1; 2]; room := 0 |}
  = Done (1, {| written := [1; 2]; room := 0 |})
  /\ write_wav_footer long_tag {| written := []; room := 308 |}
     = Done (1, {| written :=
                     [73; 68; 51; 32] ++ [44; 1; 0; 0]
                     ++ [73; 68; 51; 4; 0; 0; 0; 0; 0; 0] ++ repeat 7 290;
                   room := 0 |}).
Proof.
  split.
  - apply (proj1 (write_wav_footer_bytes empty_tag
                    {| written := [1; 2]; room := 0 |})).
    reflexivity.
  - apply (proj2 (write_wav_footer_bytes long_tag
                    {| written := []; room := 308 |})); cbn; lia.
Defined.

(** A write that the device cuts short. *)
Lemma fwrite_short (ptr : list Z) (n : Z) (w : list Z) (r : Z) :
  0 <= r < n ->
  n <= Z.of_nat (length ptr) ->
  fwrite ptr 1 n {| written := w; room := r |}
  = Done (r, {| written := w ++ firstn (Z.to_nat r) ptr; room := 0 |}).
Proof.
  intros Hr Hn. unfold fwrite.
  rewrite Z.mul_1_l, load_all by lia.
  cbn [room written].
  replace (Z.max 0 (Z.min n r)) with r by lia.
  rewrite Z.div_1_r, firstn_firstn, Z.sub_diag.
  replace (Nat.min (Z.to_nat r) (Z.to_nat n)) with (Z.to_nat r) by lia.
  reflexivity.
Qed.

Lemma or_return_0_short (ptr : list Z) (n : Z) (k : M FILE Z)
    (w : list Z) (r : Z) :
  0 <= r < n ->
  n <= Z.of_nat (length ptr) ->
  or_return_0 (fwrite ptr 1 n) n k {| written := w; room := r |}
  = Done (0, {| written := w ++ firstn (Z.to_nat r) ptr; room := 0 |}).
Proof.
  intros Hr Hn. unfold or_return_0, bind.
  rewrite fwrite_short by lia.
  replace (r =? n) with false by (symmetry; apply Z.eqb_neq; lia).
  reflexivity.
Qed.

(** On any device, what [write_wav_footer] delivers for a tag with
    frames is the part of the footer that the device accepts, and the
    result is 1 exactly when that is all of it. *)
Lemma write_wav_footer_any_device (id3 : str_buffer) (f : FILE) :
  len id3 <> 10 ->
  0 <= len id3 <= Z.of_nat (length (x id3)) ->
  0 <= room f ->
  write_wav_footer id3 f
  = Done (if 8 + len id3 <=? room f then 1 else 0,
          {| written :=
               written f
               ++ firstn (Z.to_nat (room f))
                    (cstr "ID3 " ++ pack_uint32le (len id3) ++ used id3);
             room := room f - Z.min (room f) (8 + len id3) |}).
Proof.
  intros Htag Hlen Hroom. destruct f as [w r]. cbn [room written] in *.
  unfold write_wav_footer.
  replace (len id3 =? 10) with false by (symmetry; apply Z.eqb_neq; lia).
  assert (Hmagic : length (cstr "ID3 ") = 4%nat) by reflexivity.
  assert (Hle : length (pack_uint32le (len id3)) = 4%nat) by reflexivity.
  assert (Hused : length (used id3) = Z.to_nat (len id3))
    by (unfold used; rewrite length_firstn; lia).
  destruct (Z_lt_le_dec r 4) as [H4 | H4].
  { rewrite or_return_0_short by (rewrite ?Hmagic; lia).
    replace (8 + len id3 <=? r) with false
      by (symmetry; apply Z.leb_gt; lia).
    rewrite firstn_app, Hmagic.
    replace (Z.to_nat r - 4)%nat with 0%nat by lia.
    cbn [firstn]. rewrite app_nil_r.
    do 2 f_equal. f_equal. lia. }
  rewrite or_return_0_fwrite by (rewrite ?Hmagic; lia).
  destruct (Z_lt_le_dec r 8) as [H8 | H8].
  { rewrite or_return_0_short by (rewrite ?Hle; lia).
    replace (8 + len id3 <=? r) with false
      by (symmetry; apply Z.leb_gt; lia).
    rewrite firstn_app, Hmagic, (firstn_all2 (cstr "ID3 "))
      by (rewrite Hmagic; lia).
    rewrite firstn_app, Hle.
    replace (Z.to_nat r - 4 - 4)%nat with 0%nat by lia.
    cbn [firstn]. rewrite app_nil_r, <- app_assoc.
    replace (Z.to_nat (r - 4)) with (Z.to_nat r - 4)%nat by lia.
    do 2 f_equal. f_equal. lia. }
  rewrite or_return_0_fwrite by (rewrite ?Hle; lia).
  rewrite firstn_app, Hmagic, (firstn_all2 (cstr "ID3 "))
      by (rewrite Hmagic; lia).
  rewrite firstn_app, Hle, (firstn_all2 (pack_uint32le (len id3)))
    by (rewrite Hle; lia).
  destruct (Z_lt_le_dec r (8 + len id3)) as [Hall | Hall].
  - rewrite or_return_0_short by lia.
    replace (8 + len id3 <=? r) with false
      by (symmetry; apply Z.leb_gt; lia).
    unfold used. rewrite firstn_firstn, <- !app_assoc.
    replace (Nat.min (Z.to_nat r - 4 - 4) (Z.to_nat (len id3)))
      with (Z.to_nat (r - 4 - 4)) by lia.
    do 2 f_equal. f_equal. lia.
  - unfold or_return_0, bind. rewrite fwrite_all by lia.
    rewrite Z.eqb_refl. unfold ret.
    replace (8 + len id3 <=? r) with true
      by (symmetry; apply Z.leb_le; lia).
    rewrite (firstn_all2 (used id3)) by lia.
    unfold used. rewrite <- !app_assoc.
    do 2 f_equal. f_equal. lia.
Qed.

(** ** The fade envelope *)

Lemma fade_loop_finished (fuel : nat) (framesFade frameCount f i : Z)
    (data : list Z) :
  frameCount <= i ->
  fade_loop fuel framesFade frameCount f i data = Done (tt, data).
Proof.
  intros Hi.
  destruct fuel; cbn [fade_loop];
    replace (i <? frameCount) with false
      by (symmetry; apply Z.ltb_ge; lia);
    reflexivity.
Qed.

(** C6. Fade no-op safety: with a fade window of length 0 and
    [framesRem >= frameCount], [fade_frames] returns with every sample
    of the chunk unchanged; its run is defined, so no division by zero
    is evaluated. *)
Theorem fade_frames_no_window (data : list Z) (framesRem frameCount : Z) :
  0 <= frameCount ->
  frameCount <= framesRem ->
  framesRem < 2 ^ 32 ->
  fade_frames framesRem 0 frameCount data = Done (tt, data).
Proof.
  intros Hcount Hrem Hmax. unfold fade_frames.
  rewrite (u32_small (framesRem - frameCount)) by lia.
  destruct (0 <? framesRem - frameCount) eqn:Hearly; [reflexivity|].
  apply Z.ltb_ge in Hearly.
  unfold fade_window.
  destruct (0 <? framesRem) eqn:Hpos.
  - rewrite Z.sub_0_r, (u32_small framesRem) by lia.
    apply fade_loop_finished. lia.
  - apply fade_loop_finished. apply Z.ltb_ge in Hpos. lia.
Qed.

Lemma fade_frames_no_window_witness :
  0 <= 2 /\ 2 <= 2 /\ 2 < 2 ^ 32
  /\ fade_frames 2 0 2 [100; -100; 100; -100]
     = Done (tt, [100; -100; 100; -100]).
Proof.
  repeat (split; [lia|]).
  apply (fade_frames_no_window [100; -100; 100; -100] 2 2); lia.
Defined.

(** The same holds when the caller asks for more frames than remain:
    the unsigned difference wraps to a positive number and the function
    returns at once. *)
Lemma fade_frames_no_window_any (data : list Z) (framesRem frameCount : Z) :
  0 <= framesRem < 2 ^ 32 ->
  0 <= frameCount < 2 ^ 32 ->
  fade_frames framesRem 0 frameCount data = Done (tt, data).
Proof.
  intros Hrem Hcount.
  destruct (Z.eq_dec framesRem frameCount) as [Heq | Hne].
  - subst frameCount. unfold fade_frames.
    rewrite Z.sub_diag. change (0 <? u32 0) with false. cbv iota.
    unfold fade_window.
    destruct (0 <? framesRem) eqn:Hpos.
    + rewrite Z.sub_0_r, (u32_small framesRem) by lia.
      apply fade_loop_finished. lia.
    + apply fade_loop_finished. apply Z.ltb_ge in Hpos. lia.
  - unfold fade_frames.
    replace (0 <? u32 (framesRem - frameCount)) with true; [reflexivity|].
    symmetry. apply Z.ltb_lt. unfold u32.
    change (2 ^ 32) with 4294967296 in *.
    Z.to_euclidean_division_equations. lia.
Qed.

(** The loop itself would divide by zero: the function is safe for a
    window of length 0 because the loop body is never reached. *)
Example fade_loop_zero_window :
  fade_loop 1 0 1 1 0 [100; -100] = Undefined.
Proof. reflexivity. Qed.

(** C7. Truncated window: when the frames that remain do not exceed the
    fade window, the fade is in progress on entry: nothing is skipped,
    the loop starts at the first frame of the chunk, and the window end
    is [framesRem].  For [fadeFrames = 100] and [framesRem = 50] the
    factor of the first frame is 50/100 = 0.5, so that a first frame
    [(1000, -1000)] becomes [(500, -500)]. *)
Theorem fade_window_truncated (data : list Z)
    (framesRem framesFade frameCount : Z) :
  0 <= frameCount <= framesRem ->
  framesRem <= framesFade ->
  framesFade < 2 ^ 32 ->
  fade_window framesRem framesFade = (0, framesRem)
  /\ fade_frames framesRem framesFade frameCount data
     = fade_loop (Z.to_nat frameCount) framesFade frameCount framesRem 0 data
  /\ fade_factor (snd (fade_window 50 100)) (fst (fade_window 50 100)) 100
     = Done one_half
  /\ fade_frames 50 100 2 [1000; -1000; 1000; -1000]
     = Done (tt, [500; -500; 490; -490]).
Proof.
  intros Hcount Hle Hmax.
  assert (Hwin : fade_window framesRem framesFade = (0, framesRem)).
  { unfold fade_window.
    replace (framesFade <? framesRem) with false
      by (symmetry; apply Z.ltb_ge; lia).
    reflexivity. }
  split; [exact Hwin|]. split; [|split].
  - unfold fade_frames.
    rewrite (u32_small (framesRem - frameCount)) by lia.
    replace (framesFade <? framesRem - frameCount) with false
      by (symmetry; apply Z.ltb_ge; lia).
    rewrite Hwin. reflexivity.
  - vm_compute. reflexivity.
  - vm_compute. reflexivity.
Qed.

Lemma fade_window_truncated_witness :
  0 <= 2 <= 50 /\ 50 <= 100 /\ 100 < 2 ^ 32
  /\ fade_window 50 100 = (0, 50)
  /\ fade_frames 50 100 2 [1000; -1000; 1000; -1000]
     = fade_loop (Z.to_nat 2) 100 2 50 0 [1000; -1000; 1000; -1000]
  /\ fade_factor (snd (fade_window 50 100)) (fst (fade_window 50 100)) 100
     = Done one_half
  /\ fade_frames 50 100 2 [1000; -1000; 1000; -1000]
     = Done (tt, [500; -500; 490; -490]).
Proof.
  repeat (split; [lia|]).
  apply (fade_window_truncated [1000; -1000; 1000; -1000] 50 100 2); lia.
Defined.

(** ** The render loop *)

(** C1, as the code has it.  With a decoder that yields [(100, -100)]
    for every frame, [totalFrames = 10] and [fadeFrames = 5], the loop
    writes ten frames in one chunk: frames 0 to 5 are [(100, -100)], and
    frames 6 to 9 are scaled by 4/5, 3/5, 2/5 and 1/5; the last frame is
    [(20, -20)]. *)
Theorem render_fade_scenario :
  exists j' : job unit unit,
    render_loop (constant_play 100 (-100)) identity_filter 1 10 5 (studio 40)
    = Done (tt, j')
    /\ length (written (out j')) = 40%nat
    /\ map (fun k => frame_at k (written (out j'))) [0; 1; 2; 3; 4; 5; 6; 7; 8; 9]
       = [ (100, -100); (100, -100); (100, -100); (100, -100); (100, -100);
           (100, -100); (80, -80); (60, -60); (40, -40); (20, -20) ].
Proof.
  eexists. split; [vm_compute; reflexivity|].
  split; vm_compute; reflexivity.
Qed.

(** The last frame of that run is not silent. *)
Lemma render_fade_last_frame :
  exists j' : job unit unit,
    render_loop (constant_play 100 (-100)) identity_filter 1 10 5 (studio 40)
    = Done (tt, j')
    /\ frame_at 9 (written (out j')) <> (0, 0).
Proof.
  eexists. split; [vm_compute; reflexivity|].
  vm_compute. discriminate.
Qed.

(** The factor of the last frame of a stream is [1 / fadeFrames]. *)
Example fade_factor_last_frame :
  fade_factor (snd (fade_window 10 5)) 9 5
  = fdiv (double_of_Z 1) (double_of_Z 5).
Proof. reflexivity. Qed.

(** C8 on the code: an output device that accepts no byte at all makes
    every write of the header and of the frame fall short, and
    [main_render] still ends with status 0, without a line on the error
    stream. *)
Theorem main_render_full_device :
  exists j' : job unit unit,
    main_render (constant_play 100 (-100)) identity_filter 1 1 0 empty_tag
      (studio 0)
    = Done (0, j')
    /\ written (out j') = []
    /\ stderr j' = [].
Proof.
  eexists. split; [vm_compute; reflexivity|].
  split; reflexivity.
Qed.

(** *** The loops end within their fuel *)

Lemma lift_timeout {S A : Type} (o : outcome A) (s : S) :
  lift o s = Timeout -> o = Timeout.
Proof. destruct o; cbn; intros H; [discriminate | discriminate | reflexivity]. Qed.

Lemma read_no_timeout {A : Type} (mem : list A) (off : Z) :
  read mem off <> Timeout.
Proof.
  unfold read, load. destruct (in_bounds mem off 1); [|discriminate].
  destruct (firstn (Z.to_nat 1) (skipn (Z.to_nat off) mem)); discriminate.
Qed.

Lemma poke_no_timeout {A : Type} (off : Z) (cells mem : list A) :
  poke off cells mem <> Timeout.
Proof.
  unfold poke, store.
  destruct (in_bounds mem off (Z.of_nat (length cells))); discriminate.
Qed.

Lemma scale_no_timeout (k : Z) (fade : double) (data : list Z) :
  scale k fade data <> Timeout.
Proof.
  unfold scale, bind, peek. intros Hrun.
  destruct (lift (read data k) data) as [[v d1] | |] eqn:Hread.
  - destruct (lift (int16_of_double (fmul (double_of_Z v) fade)) d1)
      as [[v' d2] | |] eqn:Hconv.
    + revert Hrun. apply poke_no_timeout.
    + discriminate Hrun.
    + apply lift_timeout in Hconv. unfold int16_of_double in Hconv.
      destruct (trunc_double (fmul (double_of_Z v) fade)) as [z|];
        [destruct (in_int16 z)|]; discriminate Hconv.
  - discriminate Hrun.
  - apply lift_timeout in Hread. revert Hread. apply read_no_timeout.
Qed.

Lemma fade_loop_no_timeout (fuel : nat) (framesFade frameCount f : Z) :
  forall (i : Z) (data : list Z),
    0 <= i ->
    frameCount < 2 ^ 32 ->
    frameCount - i <= Z.of_nat fuel ->
    fade_loop fuel framesFade frameCount f i data <> Timeout.
Proof.
  induction fuel as [|fuel IH]; intros i data Hi Hmax Hfuel;
    cbn [fade_loop]; destruct (i <? frameCount) eqn:Hlt;
    try discriminate; apply Z.ltb_lt in Hlt; [lia|].
  unfold bind. intros Hrun.
  destruct (lift (fade_factor f i framesFade) data) as [[fade d0] | |]
    eqn:Hfade.
  - destruct (scale (u32 (u32 (i * 2) + 0)) fade d0) as [[u1 d1] | |]
      eqn:Hleft.
    + destruct (scale (u32 (u32 (i * 2) + 1)) fade d1) as [[u2 d2] | |]
        eqn:Hright.
      * revert Hrun. rewrite (u32_small (i + 1)) by lia.
        apply IH; lia.
      * discriminate Hrun.
      * revert Hright. apply scale_no_timeout.
    + discriminate Hrun.
    + revert Hleft. apply scale_no_timeout.
  - discriminate Hrun.
  - apply lift_timeout in Hfade. unfold fade_factor, fdiv in Hfade.
    destruct (double_of_Z framesFade); discriminate Hfade.
Qed.

(** [fade_frames] returns or is undefined; the fuel it hands to its loop
    is enough. *)
Lemma fade_frames_no_timeout (framesRem framesFade frameCount : Z)
    (data : list Z) :
  frameCount < 2 ^ 32 ->
  fade_frames framesRem framesFade frameCount data <> Timeout.
Proof.
  intros Hmax. unfold fade_frames.
  destruct (framesFade <? u32 (framesRem - frameCount)); [discriminate|].
  destruct (fade_window framesRem framesFade) as [i f] eqn:Hwin.
  apply fade_loop_no_timeout; [|exact Hmax|].
  - unfold fade_window in Hwin.
    destruct (framesFade <? framesRem);
      injection Hwin as Hi _; subst i;
      [apply u32_range | lia].
  - assert (0 <= i).
    { unfold fade_window in Hwin.
      destruct (framesFade <? framesRem);
        injection Hwin as Hi _; subst i;
        [apply u32_range | lia]. }
    lia.
Qed.

Lemma pack_frames_loop_no_timeout (fuel : nat) (s : list Z)
    (frameCount : Z) :
  forall (i d : Z) (mem : list Z),
    0 <= i ->
    frameCount < 2 ^ 32 ->
    frameCount - i <= Z.of_nat fuel ->
    pack_frames_loop fuel s frameCount i d mem <> Timeout.
Proof.
  induction fuel as [|fuel IH]; intros i d mem Hi Hmax Hfuel;
    cbn [pack_frames_loop]; destruct (i <? frameCount) eqn:Hlt;
    try discriminate; apply Z.ltb_lt in Hlt; [lia|].
  unfold bind. intros Hrun.
  destruct (lift (read s (u32 (u32 (i * 2) + 0))) mem) as [[l m0] | |]
    eqn:Hl; [| discriminate Hrun
             | apply lift_timeout in Hl; revert Hl; apply read_no_timeout].
  destruct (poke d (pack_int16le l) m0) as [[u1 m1] | |] eqn:Hp1;
    [| discriminate Hrun | revert Hp1; apply poke_no_timeout].
  destruct (lift (read s (u32 (u32 (i * 2) + 1))) m1) as [[r m2] | |]
    eqn:Hr; [| discriminate Hrun
             | apply lift_timeout in Hr; revert Hr; apply read_no_timeout].
  destruct (poke (d + sizeof_int16_t) (pack_int16le r) m2)
    as [[u2 m3] | |] eqn:Hp2;
    [| discriminate Hrun | revert Hp2; apply poke_no_timeout].
  revert Hrun. rewrite (u32_small (i + 1)) by lia.
  apply IH; lia.
Qed.

Lemma pack_frames_no_timeout (s : list Z) (frameCount : Z) (mem : list Z) :
  frameCount < 2 ^ 32 ->
  pack_frames s frameCount mem <> Timeout.
Proof.
  intros Hmax. unfold pack_frames.
  apply pack_frames_loop_no_timeout; lia.
Qed.

Lemma fwrite_no_timeout (ptr : list Z) (size nmemb : Z) (f : FILE) :
  fwrite ptr size nmemb f <> Timeout.
Proof.
  unfold fwrite, load. destruct (in_bounds ptr 0 (size * nmemb));
    discriminate.
Qed.

Section RenderLoop.

Variables SNES_SPC SPC_Filter : Type.
Variable spc_play : SNES_SPC -> Z -> list Z -> SNES_SPC * list Z.
Variable spc_filter_run : SPC_Filter -> list Z -> Z -> SPC_Filter * list Z.

Let job' : Type := job SNES_SPC SPC_Filter.

Lemma zoom_timeout {T A : Type} (prj : job' -> T) (upd : T -> job' -> job')
    (m : M T A) (j : job') :
  zoom prj upd m j = Timeout -> m (prj j) = Timeout.
Proof.
  unfold zoom. destruct (m (prj j)) as [[v t] | |];
    [discriminate | discriminate | reflexivity].
Qed.

Lemma zoom_Done {T A : Type} (prj : job' -> T) (upd : T -> job' -> job')
    (m : M T A) (j j' : job') (v : A) :
  zoom prj upd m j = Done (v, j') ->
  exists t : T, m (prj j) = Done (v, t) /\ j' = upd t j.
Proof.
  unfold zoom. destruct (m (prj j)) as [[v0 t] | |]; try discriminate.
  intros Hrun. exists t. split; congruence.
Qed.

Lemma decode_Done (fc : Z) (j : job') :
  exists j1 : job',
    decode SNES_SPC SPC_Filter spc_play spc_filter_run fc j = Done (tt, j1)
    /\ stderr j1 = stderr j.
Proof.
  unfold decode.
  destruct (spc_play (spc j) (fc * 2) (buf j)) as [spc' b1].
  destruct (spc_filter_run (flt j) b1 (fc * 2)) as [flt' b2].
  eexists. split; reflexivity.
Qed.

(** One chunk per unit of fuel is enough. *)
Lemma render_loop_no_timeout (fuel : nat) (fadeFrames : Z) :
  forall (totalFrames : Z) (j : job'),
    0 <= totalFrames < 2 ^ 64 ->
    totalFrames <= 4096 * Z.of_nat fuel ->
    render_loop spc_play spc_filter_run fuel totalFrames fadeFrames j
    <> Timeout.
Proof.
  induction fuel as [|fuel IH]; intros totalFrames j Hrange Hfuel;
    cbn [render_loop]; destruct (totalFrames =? 0) eqn:Hzero;
    try discriminate; apply Z.eqb_neq in Hzero; [lia|].
  set (fc := if totalFrames <? 4096 then totalFrames else 4096).
  assert (Hfc : 1 <= fc <= 4096
                /\ (fc = totalFrames \/ (fc = 4096 /\ 4096 <= totalFrames)))
    by (subst fc; destruct (totalFrames <? 4096) eqn:Hlt;
        [apply Z.ltb_lt in Hlt | apply Z.ltb_ge in Hlt]; lia).
  unfold bind. intros Hrun.
  destruct (decode_Done fc j) as (j1 & Hdec & _). rewrite Hdec in Hrun.
  destruct (zoom buf set_buf
              (fade_frames (u32 totalFrames) (u32 fadeFrames) fc) j1)
    as [[u2 j2] | |] eqn:Hfade;
    [| discriminate Hrun
     | apply zoom_timeout in Hfade; revert Hfade;
       apply fade_frames_no_timeout; lia].
  unfold get in Hrun.
  destruct (zoom pac set_pac (pack_frames (buf j2) fc) j2)
    as [[u3 j3] | |] eqn:Hpack;
    [| discriminate Hrun
     | apply zoom_timeout in Hpack; revert Hpack;
       apply pack_frames_no_timeout; lia].
  destruct (zoom out set_out (write_frames (pac j3) fc) j3)
    as [[u4 j4] | |] eqn:Hwrite; [| discriminate Hrun |].
  - revert Hrun. rewrite (u64_small (totalFrames - fc)) by lia.
    apply IH; lia.
  - apply zoom_timeout in Hwrite. unfold write_frames, bind in Hwrite.
    destruct (fwrite (pac j3) (sizeof_int16_t * CHANNELS) fc (out j3))
      as [[n f1] | |] eqn:Hfw; try discriminate Hwrite.
    revert Hfw. apply fwrite_no_timeout.
Qed.

(** The loop prints nothing. *)
Lemma render_loop_stderr (fuel : nat) (fadeFrames : Z) :
  forall (totalFrames : Z) (j j' : job') (u : unit),
    render_loop spc_play spc_filter_run fuel totalFrames fadeFrames j
    = Done (u, j') ->
    stderr j' = stderr j.
Proof.
  induction fuel as [|fuel IH]; intros totalFrames j j' u;
    cbn [render_loop]; destruct (totalFrames =? 0);
    try discriminate;
    try (intros Hrun; unfold ret in Hrun;
         assert (j' = j) by congruence; subst j'; reflexivity).
  set (fc := if totalFrames <? 4096 then totalFrames else 4096).
  intros Hrun.
  apply bind_Done in Hrun. destruct Hrun as (u1 & j1 & Hdec & Hrun).
  destruct (decode_Done fc j) as (j1' & Hdec' & Herr1).
  assert (j1' = j1) by congruence. subst j1'.
  apply bind_Done in Hrun. destruct Hrun as (u2 & j2 & Hfade & Hrun).
  apply zoom_Done in Hfade. destruct Hfade as (b & _ & Hj2).
  rewrite bind_get in Hrun.
  apply bind_Done in Hrun. destruct Hrun as (u3 & j3 & Hpack & Hrun).
  apply zoom_Done in Hpack. destruct Hpack as (p & _ & Hj3).
  rewrite bind_get in Hrun.
  apply bind_Done in Hrun. destruct Hrun as (u4 & j4 & Hwrite & Hrun).
  apply zoom_Done in Hwrite. destruct Hwrite as (f & _ & Hj4).
  apply IH in Hrun. rewrite Hrun. subst j4 j3 j2. exact Herr1.
Qed.

(** Whatever the output device does, a run of the rendering part of
    [main] that ends, ends with status 0 and prints nothing. *)
Lemma main_render_status (fuel : nat) (totalFrames fadeFrames : Z)
    (id3 : str_buffer) (j j' : job') (r : Z) :
  main_render spc_play spc_filter_run fuel totalFrames fadeFrames id3 j
  = Done (r, j') ->
  r = 0 /\ stderr j' = stderr j.
Proof.
  unfold main_render. intros Hrun.
  apply bind_Done in Hrun. destruct Hrun as (r1 & j1 & Hhdr & Hrun).
  apply zoom_Done in Hhdr. destruct Hhdr as (f1 & _ & Hj1).
  apply bind_Done in Hrun. destruct Hrun as (u2 & j2 & Hloop & Hrun).
  apply render_loop_stderr in Hloop.
  apply bind_Done in Hrun. destruct Hrun as (r3 & j3 & Hftr & Hrun).
  apply zoom_Done in Hftr. destruct Hftr as (f3 & _ & Hj3).
  unfold ret in Hrun.
  assert (Hr : r = 0) by congruence.
  assert (Hj : j' = j3) by congruence.
  split; [exact Hr|]. subst j' j3 j1. exact Hloop.
Qed.

End RenderLoop.

(** ** The tag builder *)

Lemma bind_emit {A : Type} (bytes : list Z) (k : M str_buffer A)
    (s : str_buffer) :
  (emit bytes ;; k) s
  = if in_bounds (x s) (len s) (Z.of_nat (length bytes))
    then k (appended bytes s)
    else Undefined.
Proof.
  unfold emit, bind, get, on_x, zoom, poke, store, advance, set_len, set_x.
  cbn [len x a].
  destruct (in_bounds (x s) (len s) (Z.of_nat (length bytes))); reflexivity.
Qed.

Lemma bind_putc {A : Type} (c : Z) (k : M str_buffer A) (s : str_buffer) :
  (putc c ;; k) s = (emit [u8 c] ;; k) s.
Proof.
  unfold putc, emit, bind, get. cbn [length Z.of_nat].
  unfold on_x, zoom.
  destruct (poke (len s) [u8 c] (x s)) as [[u t] | |]; reflexivity.
Qed.

Lemma bind_pack_in {A : Type} (val : Z) (k : M str_buffer A)
    (s : str_buffer) :
  (pack_in val ;; advance 4 ;; k) s
  = (emit (pack_uint32_syncsafe val) ;; k) s.
Proof.
  unfold pack_in, emit, bind, get. cbn [length Z.of_nat].
  destruct (on_x (poke (len s) (pack_uint32_syncsafe val)) s)
    as [[u s1] | |]; reflexivity.
Qed.

Lemma bind_copy_in {A : Type} (src : list Z) (n : Z) (k : M str_buffer A)
    (s : str_buffer) :
  (copy_in src n ;; advance n ;; k) s
  = if in_bounds src 0 n
    then (emit (firstn (Z.to_nat n) src) ;; k) s
    else Undefined.
Proof.
  unfold copy_in, emit, bind, get, on_x, zoom, memcpy, load.
  destruct (in_bounds src 0 n) eqn:Hsrc; [|reflexivity].
  apply in_bounds_true in Hsrc.
  rewrite skipn_0, length_firstn.
  replace (Z.of_nat (Nat.min (Z.to_nat n) (length src))) with n by lia.
  destruct (poke (len s) (firstn (Z.to_nat n) src) (x s)) as [[u t] | |];
    reflexivity.
Qed.

Lemma length_appended (bytes : list Z) (s : str_buffer) :
  in_bounds (x s) (len s) (Z.of_nat (length bytes)) = true ->
  length (x (appended bytes s)) = length (x s).
Proof.
  intros Hb. apply in_bounds_true in Hb. unfold appended. cbn [x].
  rewrite !length_app, length_firstn, length_skipn. lia.
Qed.

Lemma splice_twice (l b1 b2 : list Z) (n : nat) :
  (n + length b1 <= length l)%nat ->
  firstn (n + length b1) (firstn n l ++ b1 ++ skipn (n + length b1) l)
  ++ b2
  ++ skipn (n + length b1 + length b2)
       (firstn n l ++ b1 ++ skipn (n + length b1) l)
  = firstn n l ++ (b1 ++ b2) ++ skipn (n + length (b1 ++ b2)) l.
Proof.
  intros Hfit.
  assert (Hn : length (firstn n l ++ b1) = (n + length b1)%nat)
    by (rewrite length_app, length_firstn; lia).
  rewrite (app_assoc (firstn n l) b1).
  rewrite firstn_app, skipn_app, Hn.
  rewrite (firstn_all2 (firstn n l ++ b1)) by (rewrite Hn; lia).
  rewrite (skipn_all2 (firstn n l ++ b1)) by (rewrite Hn; lia).
  replace (n + length b1 - (n + length b1))%nat with 0%nat by lia.
  replace (n + length b1 + length b2 - (n + length b1))%nat
    with (length b2) by lia.
  rewrite skipn_skipn, length_app.
  cbn [firstn app]. rewrite app_nil_r, <- !app_assoc.
  do 3 f_equal. f_equal. lia.
Qed.

(** Two appends in a row are one append. *)
Lemma appended_appended (b1 b2 : list Z) (s : str_buffer) :
  Z.of_nat (length (x s)) < 2 ^ 32 ->
  in_bounds (x s) (len s) (Z.of_nat (length b1)) = true ->
  appended b2 (appended b1 s) = appended (b1 ++ b2) s.
Proof.
  intros Hmax Hb. apply in_bounds_true in Hb.
  unfold appended. cbn [x a len].
  rewrite (u32_small (len s + Z.of_nat (length b1))) by lia.
  replace (Z.to_nat (len s + Z.of_nat (length b1)))
    with (Z.to_nat (len s) + length b1)%nat by lia.
  rewrite splice_twice by lia.
  f_equal. rewrite length_app. f_equal. lia.
Qed.

Lemma emit_emit {A : Type} (b1 b2 : list Z) (k : M str_buffer A)
    (s : str_buffer) :
  0 <= len s ->
  Z.of_nat (length (x s)) < 2 ^ 32 ->
  (emit b1 ;; emit b2 ;; k) s = (emit (b1 ++ b2) ;; k) s.
Proof.
  intros Hlen Hmax.
  rewrite (bind_emit b1), (bind_emit (b1 ++ b2)).
  destruct (in_bounds (x s) (len s) (Z.of_nat (length b1))) eqn:Hb1.
  - rewrite bind_emit.
    rewrite (in_bounds_same_length (x (appended b1 s)) (x s))
      by (apply length_appended; exact Hb1).
    rewrite appended_appended by assumption.
    apply in_bounds_true in Hb1.
    replace (len (appended b1 s)) with (len s + Z.of_nat (length b1))
      by (unfold appended; cbn [len]; rewrite u32_small; lia).
    rewrite length_app.
    destruct (in_bounds (x s) (len s + Z.of_nat (length b1))
                (Z.of_nat (length b2))) eqn:Hb2.
    + replace (in_bounds (x s) (len s) (Z.of_nat (length b1 + length b2)))
        with true; [reflexivity|].
      symmetry. apply in_bounds_true. apply in_bounds_true in Hb2. lia.
    + replace (in_bounds (x s) (len s) (Z.of_nat (length b1 + length b2)))
        with false; [reflexivity|].
      symmetry. apply not_true_iff_false. intros Hb.
      apply in_bounds_true in Hb.
      apply not_true_iff_false in Hb2. apply Hb2.
      apply in_bounds_true. lia.
  - replace (in_bounds (x s) (len s) (Z.of_nat (length (b1 ++ b2))))
      with false; [reflexivity|].
    symmetry. apply not_true_iff_false. intros Hb.
    apply in_bounds_true in Hb. rewrite length_app in Hb.
    apply not_true_iff_false in Hb1. apply Hb1.
    apply in_bounds_true. lia.
Qed.

Lemma emit_nil {A : Type} (k : M str_buffer A) (s : str_buffer) :
  0 <= len s <= Z.of_nat (length (x s)) ->
  len s < 2 ^ 32 ->
  (emit [] ;; k) s = k s.
Proof.
  intros Hlen Hmax. rewrite bind_emit.
  replace (in_bounds (x s) (len s) (Z.of_nat (length (@nil Z)))) with true
    by (symmetry; apply in_bounds_true; cbn; lia).
  f_equal. unfold appended. cbn [length app].
  rewrite Nat.add_0_r, firstn_skipn, Z.add_0_r, u32_small by lia.
  destruct s; reflexivity.
Qed.

Lemma under_emit {A : Type} (acc : list Z) (m1 m2 : M str_buffer A)
    (s : str_buffer) :
  (forall t : str_buffer, m1 t = m2 t) ->
  (emit acc ;; m1) s = (emit acc ;; m2) s.
Proof.
  intros Heq. rewrite !bind_emit.
  destruct (in_bounds (x s) (len s) (Z.of_nat (length acc)));
    [apply Heq | reflexivity].
Qed.

Section Fusion.

Context {A : Type}.
Variable s : str_buffer.
Hypothesis len_pos : 0 <= len s.
Hypothesis x_small : Z.of_nat (length (x s)) < 2 ^ 32.

Lemma emit_putc (acc : list Z) (c : Z) (k : M str_buffer A) :
  (emit acc ;; putc c ;; k) s = (emit (acc ++ [u8 c]) ;; k) s.
Proof.
  rewrite (under_emit acc _ (emit [u8 c] ;; k))
    by (intros t; apply bind_putc).
  apply emit_emit; assumption.
Qed.

Lemma emit_pack_in (acc : list Z) (val : Z) (k : M str_buffer A) :
  (emit acc ;; pack_in val ;; advance 4 ;; k) s
  = (emit (acc ++ pack_uint32_syncsafe val) ;; k) s.
Proof.
  rewrite (under_emit acc _ (emit (pack_uint32_syncsafe val) ;; k))
    by (intros t; apply bind_pack_in).
  apply emit_emit; assumption.
Qed.

Lemma emit_copy_in (acc src : list Z) (n : Z) (k : M str_buffer A) :
  in_bounds src 0 n = true ->
  (emit acc ;; copy_in src n ;; advance n ;; k) s
  = (emit (acc ++ firstn (Z.to_nat n) src) ;; k) s.
Proof.
  intros Hsrc.
  rewrite (under_emit acc _ (emit (firstn (Z.to_nat n) src) ;; k))
    by (intros t; rewrite bind_copy_in, Hsrc; reflexivity).
  apply emit_emit; assumption.
Qed.

Lemma emit_copy_in_outside (acc src : list Z) (n : Z)
    (k : M str_buffer A) :
  in_bounds src 0 n = false ->
  (emit acc ;; copy_in src n ;; advance n ;; k) s = Undefined.
Proof.
  intros Hsrc. rewrite bind_emit.
  destruct (in_bounds (x s) (len s) (Z.of_nat (length acc)));
    [|reflexivity].
  rewrite bind_copy_in, Hsrc. reflexivity.
Qed.

End Fusion.

Lemma update_len_ret (s : str_buffer) :
  (id3_update_len ;; ret 0) s
  = if in_bounds (x s) 6 4 then Done (0, sealed s) else Undefined.
Proof.
  unfold id3_update_len, bind, get, on_x, zoom, poke, store, ret, sealed.
  change (Z.of_nat (length (pack_uint32_syncsafe (u32 (len s - 10)))))
    with 4.
  destruct (in_bounds (x s) 6 4); reflexivity.
Qed.

Ltac fuse :=
  repeat first
    [ rewrite emit_putc by assumption
    | rewrite emit_pack_in by assumption ].

(** [append_text] writes one text frame and seals the tag. *)
Lemma append_text_eq (frame data : list Z) (datalen : Z) (s : str_buffer) :
  0 <= len s <= Z.of_nat (length (x s)) ->
  Z.of_nat (length (x s)) < 2 ^ 32 ->
  append_text frame data datalen s
  = if in_bounds frame 0 4 && in_bounds data 0 datalen
    then (emit (text_frame frame data datalen) ;; id3_update_len ;; ret 0) s
    else Undefined.
Proof.
  intros Hlen Hmax.
  assert (Hpos : 0 <= len s) by lia.
  unfold append_text. rewrite <- emit_nil by lia.
  destruct (in_bounds frame 0 4) eqn:Hframe; cbn [andb];
    [|apply emit_copy_in_outside; exact Hframe].
  rewrite emit_copy_in by assumption. fuse.
  destruct (in_bounds data 0 datalen) eqn:Hdata;
    [|apply emit_copy_in_outside; exact Hdata].
  rewrite emit_copy_in by assumption. fuse.
  unfold text_frame. rewrite pack_syncsafe_u32.
  cbn [app]. rewrite <- !app_assoc. reflexivity.
Qed.

Lemma append_comment_eq (data : list Z) (datalen : Z) (s : str_buffer) :
  0 <= len s <= Z.of_nat (length (x s)) ->
  Z.of_nat (length (x s)) < 2 ^ 32 ->
  append_comment data datalen s
  = if in_bounds data 0 datalen
    then (emit (comment_frame data datalen) ;; id3_update_len ;; ret 0) s
    else Undefined.
Proof.
  intros Hlen Hmax.
  assert (Hpos : 0 <= len s) by lia.
  unfold append_comment. rewrite <- emit_nil by lia. fuse.
  destruct (in_bounds data 0 datalen) eqn:Hdata;
    [|apply emit_copy_in_outside; exact Hdata].
  rewrite emit_copy_in by assumption. fuse.
  unfold comment_frame. rewrite pack_syncsafe_u32.
  cbn [app]. rewrite <- !app_assoc. reflexivity.
Qed.

Lemma append_private_eq (description data : list Z) (datalen : Z)
    (s : str_buffer) :
  0 <= len s <= Z.of_nat (length (x s)) ->
  Z.of_nat (length (x s)) < 2 ^ 32 ->
  append_private description data datalen s
  = if in_bounds description 0 (strlen description)
       && in_bounds data 0 datalen
    then (emit (private_frame description data datalen) ;;
          id3_update_len ;; ret 0) s
    else Undefined.
Proof.
  intros Hlen Hmax.
  assert (Hpos : 0 <= len s) by lia.
  unfold append_private. rewrite <- emit_nil by lia. fuse.
  destruct (in_bounds description 0 (strlen description)) eqn:Hdesc;
    cbn [andb]; [|apply emit_copy_in_outside; exact Hdesc].
  rewrite emit_copy_in by assumption. fuse.
  destruct (in_bounds data 0 datalen) eqn:Hdata;
    [|apply emit_copy_in_outside; exact Hdata].
  rewrite emit_copy_in by assumption. fuse.
  unfold private_frame. rewrite pack_syncsafe_u32.
  cbn [app]. rewrite <- !app_assoc. reflexivity.
Qed.

(** One frame appended and the tag sealed, in closed form. *)
Lemma emit_sealed (F : list Z) (s : str_buffer) :
  10 <= Z.of_nat (length (x s)) ->
  (emit F ;; id3_update_len ;; ret 0) s
  = if in_bounds (x s) (len s) (Z.of_nat (length F))
    then Done (0, sealed (appended F s))
    else Undefined.
Proof.
  intros Hx. rewrite bind_emit.
  destruct (in_bounds (x s) (len s) (Z.of_nat (length F))) eqn:Hfit;
    [|reflexivity].
  rewrite update_len_ret.
  rewrite (in_bounds_same_length (x (appended F s)) (x s))
    by (apply length_appended; exact Hfit).
  replace (in_bounds (x s) 6 4) with true
    by (symmetry; apply in_bounds_true; lia).
  reflexivity.
Qed.

(** *** The allocation loop *)

Section Grow.

Variable may_alloc : Z -> bool.

Lemma u32_add_512_mod (n : Z) : u32 (n + 512) mod 512 = n mod 512.
Proof.
  unfold u32. change (2 ^ 32) with 4294967296.
  Z.to_euclidean_division_equations. lia.
Qed.

(** Once the capacity has no value of its residue class left between
    [need] and [2 ^ 32], the loop cannot end with success. *)
Lemma grow_stuck (fuel : nat) (need : Z) :
  forall (s s' : str_buffer) (r : Z),
    0 <= a s < 2 ^ 32 ->
    (forall v : Z, 0 <= v < 2 ^ 32 -> v mod 512 = a s mod 512 -> v < need) ->
    grow may_alloc fuel need s = Done (r, s') ->
    r = -1.
Proof.
  induction fuel as [|fuel IH]; intros s s' r Ha Hclass Hrun;
    cbn [grow] in Hrun;
    replace (a s <? need) with true in Hrun
      by (symmetry; apply Z.ltb_lt; apply Hclass; [lia | reflexivity]).
  - discriminate Hrun.
  - destruct (realloc may_alloc (x s) (u32 (a s + 512))) as [t|].
    + apply IH in Hrun; [exact Hrun | cbn [a]; apply u32_range |].
      cbn [a]. intros v Hv Hres. apply Hclass; [exact Hv|].
      rewrite Hres. apply u32_add_512_mod.
    + inversion Hrun. reflexivity.
Qed.

Lemma grown_refl (s : str_buffer) : grown s s.
Proof.
  exists 0%nat. cbn [repeat]. rewrite app_nil_r. repeat split. lia.
Qed.

Lemma grow_inv (fuel : nat) (need : Z) :
  forall (s s' : str_buffer) (r : Z),
    tag_ok s ->
    grow may_alloc fuel need s = Done (r, s') ->
    r = -1
    \/ (r = 0 /\ grown s s' /\ need <= a s' /\ a s' < 2 ^ 32).
Proof.
  induction fuel as [|fuel IH]; intros s s' r Hok Hrun;
    cbn [grow] in Hrun; destruct (a s <? need) eqn:Hneed;
    try discriminate Hrun;
    try (apply Z.ltb_ge in Hneed; inversion Hrun; subst; right;
         destruct Hok as (_ & _ & Hmax);
         repeat split; [apply grown_refl | lia | lia]).
  destruct Hok as (Hlen & Hx & Hmax).
  destruct (realloc may_alloc (x s) (u32 (a s + 512))) as [t|] eqn:Halloc;
    [|inversion Hrun; left; reflexivity].
  destruct (Z_lt_le_dec (a s + 512) (2 ^ 32)) as [Hroom | Hwrap].
  - rewrite (u32_small (a s + 512)) in * by lia.
    unfold realloc in Halloc.
    destruct ((0 <? a s + 512) && may_alloc (a s + 512));
      [|discriminate Halloc].
    inversion Halloc as [Ht]. clear Halloc.
    rewrite firstn_all2 in Ht by lia.
    replace (Z.to_nat (a s + 512) - length (x s))%nat with 512%nat in Ht
      by lia.
    apply IH in Hrun.
    + destruct Hrun as [Hfail | (Hr & (k & Hx' & Ha' & Hlen') & Hfit & Hmax')];
        [left; exact Hfail|].
      right. cbn [x a len] in *. subst t.
      repeat split; try assumption.
      exists (512 + k)%nat.
      rewrite repeat_app, app_assoc. repeat split; [exact Hx' | lia | exact Hlen'].
    + subst t. unfold tag_ok. cbn [x a len].
      rewrite length_app, repeat_length. lia.
  - apply grow_stuck in Hrun; [left; exact Hrun | apply u32_range |].
    cbn [a]. intros v Hv Hres.
    rewrite u32_add_512_mod in Hres.
    apply Z.ltb_lt in Hneed.
    assert (v <= a s); [|lia].
    change (2 ^ 32) with 4294967296 in *.
    Z.to_euclidean_division_equations. lia.
Qed.

(** With an allocator that grants every request, enough fuel ends the
    loop with success. *)
Lemma grow_enough (fuel : nat) (need : Z) :
  forall s : str_buffer,
    (forall n : Z, may_alloc n = true) ->
    tag_ok s ->
    need + 512 <= 2 ^ 32 ->
    need - a s <= 512 * Z.of_nat fuel ->
    exists s' : str_buffer, grow may_alloc fuel need s = Done (0, s').
Proof.
  induction fuel as [|fuel IH]; intros s Hgrant Hok Hneed Hfuel;
    cbn [grow]; destruct (a s <? need) eqn:Hlt;
    try (eexists; reflexivity);
    apply Z.ltb_lt in Hlt; [lia|].
  destruct Hok as (Hlen & Hx & Hmax).
  rewrite (u32_small (a s + 512)) by lia.
  unfold realloc. rewrite Hgrant.
  replace (0 <? a s + 512) with true by (symmetry; apply Z.ltb_lt; lia).
  cbn [andb]. apply IH; try assumption.
  - unfold tag_ok. cbn [x a len].
    rewrite length_app, length_firstn, repeat_length. lia.
  - cbn [a]. lia.
Qed.

End Grow.

(** *** Slices of a sealed tag *)

Lemma slice_app_r (A B : list Z) (k off n : Z) :
  Z.of_nat (length A) = k ->
  0 <= off ->
  slice (k + off) n (A ++ B) = slice off n B.
Proof.
  intros Hk Hoff. unfold slice.
  rewrite skipn_app, skipn_all2 by lia.
  replace (Z.to_nat (k + off) - length A)%nat with (Z.to_nat off) by lia.
  reflexivity.
Qed.

Lemma slice_app_l (B C : list Z) (off n : Z) :
  0 <= off -> 0 <= n ->
  off + n <= Z.of_nat (length B) ->
  slice off n (B ++ C) = slice off n B.
Proof.
  intros Hoff Hn Hfit. unfold slice.
  rewrite skipn_app, firstn_app, length_skipn.
  replace (Z.to_nat n - (length B - Z.to_nat off))%nat with 0%nat by lia.
  cbn [firstn]. apply app_nil_r.
Qed.

Lemma slice_all (B : list Z) (n : Z) :
  Z.of_nat (length B) = n ->
  slice 0 n B = B.
Proof.
  intros Hn. unfold slice. cbn [Z.to_nat skipn]. apply firstn_all2. lia.
Qed.

(** Sealing touches the first ten bytes only. *)
Lemma reseal_app (U T P : list Z) :
  (10 <= length U)%nat ->
  firstn 6 (U ++ T) ++ P ++ skipn 10 (U ++ T)
  = (firstn 6 U ++ P ++ skipn 10 U) ++ T.
Proof.
  intros HU. rewrite firstn_app, skipn_app.
  replace (6 - length U)%nat with 0%nat by lia.
  replace (10 - length U)%nat with 0%nat by lia.
  cbn [firstn skipn]. rewrite app_nil_r, <- !app_assoc. reflexivity.
Qed.

Lemma grown_used (s s1 : str_buffer) :
  0 <= len s <= Z.of_nat (length (x s)) ->
  grown s s1 ->
  used s1 = used s /\ len s1 = len s
  /\ Z.of_nat (length (x s1)) = Z.of_nat (length (x s)) + (a s1 - a s)
  /\ a s <= a s1.
Proof.
  intros Hlen (k & Hx & Ha & Hl). unfold used.
  rewrite Hx, Hl, firstn_app, length_app, repeat_length.
  replace (Z.to_nat (len s) - length (x s))%nat with 0%nat by lia.
  cbn [firstn]. rewrite app_nil_r. repeat split; lia.
Qed.

Lemma sealed_appended_extended (s s1 : str_buffer) (F : list Z) :
  tag_ok s ->
  grown s s1 ->
  a s1 < 2 ^ 32 ->
  len s1 + Z.of_nat (length F) <= Z.of_nat (length (x s1)) ->
  extended s F (sealed (appended F s1)).
Proof.
  intros (Hlen & Hx & Hmax) Hgrown Hmax1 Hfit.
  destruct (grown_used s s1 ltac:(lia) Hgrown) as (Hused & Hlen1 & Hx1 & Ha1).
  unfold used in Hused.
  set (n := Z.to_nat (len s1)) in *.
  set (U := firstn n (x s1)) in *.
  assert (HU : length U = n) by (subst U; rewrite length_firstn; lia).
  assert (Hn : (10 <= n)%nat) by lia.
  assert (Hlen' : len (sealed (appended F s1)) = len s + Z.of_nat (length F)).
  { unfold sealed, appended, set_x. cbn [len].
    rewrite u32_small by lia. lia. }
  assert (Hx' : x (sealed (appended F s1))
                = (firstn 6 U
                   ++ pack_uint32_syncsafe
                        (len s + Z.of_nat (length F) - 10)
                   ++ skipn 10 U)
                  ++ F ++ skipn (n + length F) (x s1)).
  { unfold sealed, appended, set_x. cbn [x len]. fold n. fold U.
    rewrite reseal_app by lia.
    rewrite (u32_small (len s1 + _)) by lia.
    rewrite u32_small by lia. rewrite Hlen1. reflexivity. }
  set (P := pack_uint32_syncsafe (len s + Z.of_nat (length F) - 10)) in *.
  assert (HU' : length (firstn 6 U ++ P ++ skipn 10 U) = n).
  { rewrite !length_app, length_firstn, length_skipn.
    subst P. rewrite length_pack_uint32_syncsafe. lia. }
  assert (Ha' : a (sealed (appended F s1)) = a s1) by reflexivity.
  unfold extended, tag_ok. rewrite Hlen', Ha'. repeat split.
  - lia.
  - lia.
  - rewrite Hx', length_app, HU', length_app, length_skipn. lia.
  - lia.
  - unfold used at 1. rewrite Hlen', Hx'.
    rewrite app_assoc, firstn_app.
    rewrite firstn_all2 by (rewrite length_app, HU'; lia).
    replace (Z.to_nat (len s + Z.of_nat (length F))
             - length ((firstn 6 U ++ P ++ skipn 10 U) ++ F))%nat
      with 0%nat by (rewrite length_app, HU'; lia).
    cbn [firstn]. rewrite app_nil_r.
    unfold set_size, used. rewrite <- Hused.
    rewrite reseal_app by lia.
    rewrite length_app, HU.
    replace (Z.of_nat (n + length F) - 10)
      with (len s + Z.of_nat (length F) - 10) by lia.
    reflexivity.
  - rewrite Hx'. rewrite <- !app_assoc.
    change 6 with (6 + 0) at 1.
    rewrite slice_app_r by (try rewrite length_firstn; lia).
    rewrite slice_app_l
      by (subst P; try rewrite length_pack_uint32_syncsafe; lia).
    apply slice_all. reflexivity.
  - intros off m Hoff Hm Hin. rewrite Hx'.
    rewrite slice_app_r by lia.
    apply slice_app_l; assumption.
Qed.

(** *** The three [id3_add_] functions *)

Section AddFrame.

Variable may_alloc : Z -> bool.
Variable body : M str_buffer Z.
Variable F : list Z.
Variable ok : bool.

Hypothesis body_eq :
  forall t : str_buffer,
    0 <= len t <= Z.of_nat (length (x t)) ->
    Z.of_nat (length (x t)) < 2 ^ 32 ->
    body t
    = if ok then (emit F ;; id3_update_len ;; ret 0) t else Undefined.

Lemma add_frame_inv (fuel : nat) (need : Z) (s s' : str_buffer) (r : Z) :
  tag_ok s ->
  (r0 <- grow may_alloc fuel need ;;
   if r0 =? -1 then ret (-1) else body) s = Done (r, s') ->
  r = -1 \/ (r = 0 /\ ok = true /\ extended s F s').
Proof.
  intros Hok Hrun. unfold bind in Hrun.
  destruct (grow may_alloc fuel need s) as [[r0 s1] | |] eqn:Hgrow;
    try discriminate Hrun.
  apply grow_inv in Hgrow; [|exact Hok].
  destruct Hgrow as [Hfail | (Hr0 & Hgrown & Hneed & Hmax1)]; subst r0.
  - inversion Hrun. left. reflexivity.
  - right. cbn [Z.eqb] in Hrun.
    pose proof Hok as (Hlen & Hx & Hmax).
    destruct (grown_used s s1 ltac:(lia) Hgrown) as (_ & Hlen1 & Hx1 & Ha1).
    rewrite body_eq in Hrun by lia.
    destruct ok; [|discriminate Hrun].
    rewrite emit_sealed in Hrun by lia.
    destruct (in_bounds (x s1) (len s1) (Z.of_nat (length F))) eqn:Hfit;
      [|discriminate Hrun].
    apply in_bounds_true in Hfit.
    inversion Hrun. subst. do 2 (split; [reflexivity|]).
    apply sealed_appended_extended; try assumption. lia.
Qed.

Lemma add_frame_enough (fuel : nat) (need : Z) (s : str_buffer) :
  (forall n : Z, may_alloc n = true) ->
  tag_ok s ->
  ok = true ->
  need = len s + Z.of_nat (length F) ->
  need + 512 <= 2 ^ 32 ->
  need - a s <= 512 * Z.of_nat fuel ->
  exists s' : str_buffer,
    (r0 <- grow may_alloc fuel need ;;
     if r0 =? -1 then ret (-1) else body) s = Done (0, s').
Proof.
  intros Hgrant Hok Htrue Hneed Hmax Hfuel.
  destruct (grow_enough may_alloc fuel need s Hgrant Hok Hmax Hfuel)
    as (s1 & Hgrow).
  unfold bind. rewrite Hgrow. cbn [Z.eqb].
  apply grow_inv in Hgrow; [|exact Hok].
  destruct Hgrow as [Hfail | (_ & Hgrown & Hfit & Hmax1)];
    [discriminate Hfail|].
  pose proof Hok as (Hlen & Hx & Hmax0).
  destruct (grown_used s s1 ltac:(lia) Hgrown) as (_ & Hlen1 & Hx1 & Ha1).
  rewrite body_eq, Htrue by lia.
  rewrite emit_sealed by lia.
  replace (in_bounds (x s1) (len s1) (Z.of_nat (length F))) with true
    by (symmetry; apply in_bounds_true; lia).
  eexists. reflexivity.
Qed.

End AddFrame.

Lemma length_text_frame (frame data : list Z) (datalen : Z) :
  in_bounds frame 0 4 && in_bounds data 0 datalen = true ->
  Z.of_nat (length (text_frame frame data datalen)) = 10 + (1 + datalen + 1).
Proof.
  intros Hsrc. apply andb_prop in Hsrc. destruct Hsrc as [Hf Hd].
  apply in_bounds_true in Hf. apply in_bounds_true in Hd.
  unfold text_frame.
  rewrite !length_app, !length_firstn, length_pack_uint32_syncsafe.
  cbn [length]. lia.
Qed.

Lemma length_comment_frame (data : list Z) (datalen : Z) :
  in_bounds data 0 datalen = true ->
  Z.of_nat (length (comment_frame data datalen))
  = 10 + (1 + 3 + datalen + 1 + 1).
Proof.
  intros Hd. apply in_bounds_true in Hd.
  unfold comment_frame.
  rewrite !length_app, !length_firstn, length_pack_uint32_syncsafe.
  cbn [length cstr]. lia.
Qed.

Lemma length_private_frame (description data : list Z) (datalen : Z) :
  in_bounds description 0 (strlen description) && in_bounds data 0 datalen
  = true ->
  Z.of_nat (length (private_frame description data datalen))
  = 10 + (1 + strlen description + 1 + datalen + 1).
Proof.
  intros Hsrc. apply andb_prop in Hsrc. destruct Hsrc as [Hf Hd].
  apply in_bounds_true in Hf. apply in_bounds_true in Hd.
  unfold private_frame.
  rewrite !length_app, !length_firstn, length_pack_uint32_syncsafe.
  cbn [length cstr]. lia.
Qed.

Section Add.

Variable may_alloc : Z -> bool.
Variable fuel : nat.
Variables s s' : str_buffer.
Variable r : Z.
Hypothesis s_ok : tag_ok s.

Lemma id3_add_text_inv (frame data : list Z) (datalen : Z) :
  id3_add_text may_alloc fuel frame data datalen s = Done (r, s') ->
  r = -1
  \/ (r = 0
      /\ in_bounds frame 0 4 && in_bounds data 0 datalen = true
      /\ extended s (text_frame frame data datalen) s').
Proof.
  unfold id3_add_text. rewrite bind_get.
  apply add_frame_inv; [|exact s_ok].
  intros t Hlen Hmax. apply append_text_eq; assumption.
Qed.

Lemma id3_add_comment_inv (data : list Z) (datalen : Z) :
  id3_add_comment may_alloc fuel data datalen s = Done (r, s') ->
  r = -1
  \/ (r = 0
      /\ in_bounds data 0 datalen = true
      /\ extended s (comment_frame data datalen) s').
Proof.
  unfold id3_add_comment. rewrite bind_get.
  apply add_frame_inv; [|exact s_ok].
  intros t Hlen Hmax. apply append_comment_eq; assumption.
Qed.

Lemma id3_add_private_inv (description data : list Z) (datalen : Z) :
  id3_add_private may_alloc fuel description data datalen s
  = Done (r, s') ->
  r = -1
  \/ (r = 0
      /\ in_bounds description 0 (strlen description)
         && in_bounds data 0 datalen = true
      /\ extended s (private_frame description data datalen) s').
Proof.
  unfold id3_add_private. rewrite bind_get.
  apply add_frame_inv; [|exact s_ok].
  intros t Hlen Hmax. apply append_private_eq; assumption.
Qed.

End Add.

(** With an allocator that grants every request, enough fuel, and a
    text that fits the 32-bit capacity, [id3_add_text] succeeds. *)
Lemma id3_add_text_enough (fuel : nat) (frame data : list Z) (datalen : Z)
    (s : str_buffer) :
  tag_ok s ->
  in_bounds frame 0 4 && in_bounds data 0 datalen = true ->
  len s + 10 + (1 + datalen + 1) + 512 <= 2 ^ 32 ->
  len s + 10 + (1 + datalen + 1) - a s <= 512 * Z.of_nat fuel ->
  exists s' : str_buffer,
    id3_add_text (fun _ => true) fuel frame data datalen s = Done (0, s').
Proof.
  intros Hok Hsrc Hmax Hfuel.
  pose proof (length_text_frame frame data datalen Hsrc) as HF.
  pose proof Hok as (Hlen & _).
  assert (Hd : 0 <= datalen).
  { apply andb_prop in Hsrc. destruct Hsrc as [_ Hd].
    apply in_bounds_true in Hd. lia. }
  unfold id3_add_text. rewrite bind_get.
  apply (add_frame_enough (fun _ => true) (append_text frame data datalen)
           (text_frame frame data datalen)
           (in_bounds frame 0 4 && in_bounds data 0 datalen)).
  - intros t Ht Hmaxt. apply append_text_eq; assumption.
  - reflexivity.
  - exact Hok.
  - exact Hsrc.
  - rewrite HF, (u32_small (len s + 10)) by lia.
    rewrite (u64_small (1 + datalen)) by lia.
    rewrite (u64_small (1 + datalen + 1)) by lia.
    rewrite u64_small by lia. lia.
  - rewrite (u32_small (len s + 10)) by lia.
    rewrite (u64_small (1 + datalen)) by lia.
    rewrite (u64_small (1 + datalen + 1)) by lia.
    rewrite u64_small by lia. lia.
  - rewrite (u32_small (len s + 10)) by lia.
    rewrite (u64_small (1 + datalen)) by lia.
    rewrite (u64_small (1 + datalen + 1)) by lia.
    rewrite u64_small by lia. lia.
Qed.

(** *** The preamble *)

Lemma length_store (mem cells mem' : list Z) (off : Z) :
  store mem off cells = Done mem' ->
  length mem' = length mem.
Proof.
  unfold store.
  destruct (in_bounds mem off (Z.of_nat (length cells))) eqn:Hb;
    [|discriminate].
  apply in_bounds_true in Hb. intros Hrun.
  assert (Hmem : mem' = firstn (Z.to_nat off) mem ++ cells
                        ++ skipn (Z.to_nat off + length cells) mem)
    by congruence.
  subst mem'. rewrite !length_app, length_firstn, length_skipn. lia.
Qed.

(** A store into the object changes neither the lengths nor the size. *)
Lemma on_x_poke_shape (off : Z) (cells : list Z) (s s1 : str_buffer)
    (u : unit) :
  on_x (poke off cells) s = Done (u, s1) ->
  len s1 = len s /\ a s1 = a s /\ length (x s1) = length (x s).
Proof.
  unfold on_x, zoom, poke.
  destruct (store (x s) off cells) as [t | |] eqn:Hstore; try discriminate.
  apply length_store in Hstore.
  intros Hrun. assert (Hs1 : s1 = set_x t s) by congruence. subst s1.
  unfold set_x. cbn [len a x]. repeat split. exact Hstore.
Qed.

Lemma id3_update_len_eq (s : str_buffer) :
  id3_update_len s
  = if in_bounds (x s) 6 4 then Done (tt, sealed s) else Undefined.
Proof.
  unfold id3_update_len. rewrite bind_get.
  unfold on_x, zoom, poke, store, sealed.
  change (Z.of_nat (length (pack_uint32_syncsafe (u32 (len s - 10)))))
    with 4.
  destruct (in_bounds (x s) 6 4); reflexivity.
Qed.

Lemma sealed_size (s : str_buffer) :
  in_bounds (x s) 6 4 = true ->
  slice 6 4 (x (sealed s)) = pack_uint32_syncsafe (u32 (len s - 10)).
Proof.
  intros Hb. apply in_bounds_true in Hb.
  unfold sealed, set_x. cbn [x].
  change (slice 6 4) with (slice (6 + 0) 4).
  rewrite slice_app_r by (try rewrite length_firstn; lia).
  rewrite slice_app_l by (try rewrite length_pack_uint32_syncsafe; lia).
  apply slice_all. reflexivity.
Qed.

Lemma id3_update_len_done (s s' : str_buffer) (u : unit) :
  id3_update_len s = Done (u, s') ->
  len s' = len s /\ a s' = a s /\ length (x s') = length (x s)
  /\ 10 <= Z.of_nat (length (x s))
  /\ slice 6 4 (x s') = pack_uint32_syncsafe (u32 (len s - 10)).
Proof.
  intros Hrun.
  assert (Hshape : len s' = len s /\ a s' = a s
                   /\ length (x s') = length (x s)).
  { unfold id3_update_len in Hrun. rewrite bind_get in Hrun.
    apply on_x_poke_shape in Hrun. exact Hrun. }
  rewrite id3_update_len_eq in Hrun.
  destruct (in_bounds (x s) 6 4) eqn:Hb; [|discriminate].
  assert (Hs' : s' = sealed s) by congruence.
  destruct Hshape as (Hlen & Ha & Hx).
  repeat split; try assumption.
  - apply in_bounds_true in Hb. lia.
  - subst s'. apply sealed_size. exact Hb.
Qed.

Lemma id3_init_done (s s' : str_buffer) (u : unit) :
  id3_init s = Done (u, s') ->
  len s' = 10 /\ a s' = a s /\ length (x s') = length (x s)
  /\ 10 <= Z.of_nat (length (x s))
  /\ slice 6 4 (x s') = pack_uint32_syncsafe 0.
Proof.
  unfold id3_init. intros Hrun.
  apply bind_Done in Hrun. destruct Hrun as (u0 & s0 & Hset & Hrun).
  assert (Hs0 : s0 = {| x := x s; a := a s; len := 10 |})
    by (unfold set_len in Hset; congruence).
  clear Hset.
  assert (Hshape : len s0 = 10 /\ a s0 = a s
                   /\ length (x s0) = length (x s))
    by (subst s0; repeat split).
  clear Hs0.
  do 6 (apply bind_Done in Hrun;
        destruct Hrun as (? & ? & Hpoke & Hrun);
        apply on_x_poke_shape in Hpoke;
        destruct Hpoke as (Hl & Hc & Hn), Hshape as (Hl0 & Hc0 & Hn0);
        rewrite <- Hl in Hl0; rewrite <- Hc in Hc0; rewrite <- Hn in Hn0;
        assert (Hshape := conj Hl0 (conj Hc0 Hn0));
        clear Hl Hc Hn Hl0 Hc0 Hn0).
  apply id3_update_len_done in Hrun.
  destruct Hrun as (Hlen & Ha & Hx & Hten & Hsize).
  destruct Hshape as (Hl0 & Hc0 & Hn0).
  rewrite Hl0 in *.
  repeat split; try congruence. exact Hsize.
Qed.

(** [id3_init] on a buffer whose object has the recorded capacity makes
    a buffer that holds a tag. *)
Lemma id3_init_ok (s s' : str_buffer) :
  Z.of_nat (length (x s)) = a s ->
  a s < 2 ^ 32 ->
  id3_init s = Done (tt, s') ->
  tag_ok s' /\ preamble_size s' = 0.
Proof.
  intros Hx Hmax Hrun. apply id3_init_done in Hrun.
  destruct Hrun as (Hlen & Ha & Hx' & Hten & Hsize).
  split.
  - unfold tag_ok. rewrite Hlen, Ha, Hx'. lia.
  - unfold preamble_size. rewrite Hsize. reflexivity.
Qed.

Lemma empty_tag_ok : tag_ok empty_tag.
Proof.
  unfold tag_ok, empty_tag. cbn [x a len].
  rewrite length_app, repeat_length. cbn [length]. lia.
Qed.

Lemma run_op_inv (may_alloc : Z -> bool) (fuel : nat) (op : tag_op)
    (s s' : str_buffer) :
  tag_ok s ->
  run_op may_alloc fuel op s = Done (0, s') ->
  extended s (frame_of op) s'.
Proof.
  intros Hok Hrun. destruct op as [frame data n | data n | descr data n];
    cbn [run_op frame_of] in *.
  - apply id3_add_text_inv in Hrun; [|exact Hok].
    destruct Hrun as [Hfail | (_ & _ & Hext)];
      [discriminate Hfail | exact Hext].
  - apply id3_add_comment_inv in Hrun; [|exact Hok].
    destruct Hrun as [Hfail | (_ & _ & Hext)];
      [discriminate Hfail | exact Hext].
  - apply id3_add_private_inv in Hrun; [|exact Hok].
    destruct Hrun as [Hfail | (_ & _ & Hext)];
      [discriminate Hfail | exact Hext].
Qed.

Lemma extended_preamble_size (s s' : str_buffer) (F : list Z) :
  extended s F s' ->
  preamble_size s' = (len s' - 10) mod 2 ^ 28.
Proof.
  intros (_ & _ & _ & Hsize & _). unfold preamble_size.
  rewrite Hsize. apply unpack_pack_syncsafe.
Qed.

Lemma built_ok (may_alloc : Z -> bool) (s : str_buffer) :
  built may_alloc s ->
  tag_ok s /\ preamble_size s = (len s - 10) mod 2 ^ 28.
Proof.
  induction 1 as [s s' Hx Hmax Hrun | fuel op s s' Hbuilt [Hok _] Hrun].
  - pose proof (id3_init_done _ _ _ Hrun) as (Hlen & _).
    apply id3_init_ok in Hrun; [|assumption..].
    destruct Hrun as [Hok Hsize].
    split; [exact Hok|]. rewrite Hsize, Hlen. reflexivity.
  - apply run_op_inv in Hrun; [|exact Hok].
    split; [apply Hrun | apply (extended_preamble_size _ _ _ Hrun)].
Qed.

(** C3, as the code has it.  After [id3_init] the used length is 10 and
    the total-size field decodes to 0.  After [id3_init] and after every
    successful [id3_add_text], [id3_add_comment] or [id3_add_private]
    that follows, the field decodes to the used length minus 10 reduced
    modulo [2 ^ 28]: to the used length minus 10 itself whenever that is
    below [2 ^ 28]. *)
Theorem preamble_size_invariant :
  (forall s s' : str_buffer,
     id3_init s = Done (tt, s') ->
     len s' = 10 /\ preamble_size s' = 0)
  /\ (forall (may_alloc : Z -> bool) (s : str_buffer),
        built may_alloc s ->
        10 <= len s
        /\ preamble_size s = (len s - 10) mod 2 ^ 28
        /\ (len s - 10 < 2 ^ 28 -> preamble_size s = len s - 10)).
Proof.
  split.
  - intros s s' Hrun. apply id3_init_done in Hrun.
    destruct Hrun as (Hlen & _ & _ & _ & Hsize). split; [exact Hlen|].
    unfold preamble_size. rewrite Hsize. reflexivity.
  - intros may_alloc s Hbuilt.
    apply built_ok in Hbuilt. destruct Hbuilt as [(Hlen & _) Hsize].
    split; [lia|]. split; [exact Hsize|].
    intros Hsmall. rewrite Hsize. apply Z.mod_small. lia.
Qed.

Lemma built_empty_tag : built (fun _ => true) empty_tag.
Proof.
  apply (built_init _ raw_buffer).
  - reflexivity.
  - cbn. lia.
  - vm_compute. reflexivity.
Qed.

Lemma preamble_size_invariant_witness :
  exists s' : str_buffer,
    run_op (fun _ => true) 0 (AddComment (cstr "ripped in 1994") 14)
      empty_tag
    = Done (0, s')
    /\ built (fun _ => true) s'
    /\ len s' = 40
    /\ preamble_size s' = 30.
Proof.
  eexists. split; [vm_compute; reflexivity|].
  assert (Hbuilt :
            built (fun _ => true)
              (sealed
                 (appended (comment_frame (cstr "ripped in 1994") 14)
                    empty_tag))).
  { apply (built_add _ 0%nat (AddComment (cstr "ripped in 1994") 14)
             empty_tag); [exact built_empty_tag|].
    vm_compute. reflexivity. }
  split; [exact Hbuilt|]. split; [reflexivity|].
  apply (proj2 preamble_size_invariant (fun _ => true) _ Hbuilt).
  vm_compute. reflexivity.
Defined.

Lemma long_text_in_bounds (n : Z) :
  0 <= n <= 2 ^ 28 ->
  in_bounds (cstr "TIT2") 0 4 && in_bounds long_text 0 n = true.
Proof.
  intros Hn. apply andb_true_intro. split; [reflexivity|].
  apply in_bounds_true. unfold long_text. rewrite repeat_length. lia.
Qed.

(** The claim of C3 read for every input fails at the width of the
    field: a text of [2 ^ 28 - 12] bytes brings the used length to
    [2 ^ 28 + 10], and the field decodes to 0. *)
Lemma preamble_size_wraps :
  exists s' : str_buffer,
    run_op (fun _ => true) (Z.to_nat (2 ^ 20))
      (AddText (cstr "TIT2") long_text (2 ^ 28 - 12)) empty_tag
    = Done (0, s')
    /\ built (fun _ => true) s'
    /\ preamble_size s' <> len s' - 10.
Proof.
  assert (Hsrc := long_text_in_bounds (2 ^ 28 - 12) ltac:(lia)).
  destruct (id3_add_text_enough (Z.to_nat (2 ^ 20)) (cstr "TIT2") long_text
              (2 ^ 28 - 12) empty_tag empty_tag_ok Hsrc)
    as (s' & Hrun).
  - change (len empty_tag) with 10. lia.
  - change (len empty_tag) with 10. change (a empty_tag) with 4096. lia.
  - exists s'. split; [exact Hrun|]. split.
    + apply (built_add _ (Z.to_nat (2 ^ 20))
               (AddText (cstr "TIT2") long_text (2 ^ 28 - 12)) empty_tag);
        [exact built_empty_tag | exact Hrun].
    + apply (id3_add_text_inv _ _ _ _ _ empty_tag_ok) in Hrun.
      destruct Hrun as [Hfail | (_ & _ & Hext)]; [discriminate Hfail|].
      rewrite (extended_preamble_size _ _ _ Hext).
      destruct Hext as (_ & Hlen & _).
      rewrite Hlen, (length_text_frame _ _ _ Hsrc).
      change (len empty_tag) with 10.
      replace (10 + (10 + (1 + (2 ^ 28 - 12) + 1)) - 10) with (2 ^ 28)
        by lia.
      rewrite Z.mod_same by lia. lia.
Qed.

(** *** Payload lengths *)

Lemma strnlen_le (s : list Z) (maxlen : Z) :
  0 <= maxlen -> 0 <= strnlen s maxlen <= maxlen.
Proof.
  intros Hmax. unfold strnlen.
  assert (H : forall (n : nat) (l : list Z), (strnlen_nat l n <= n)%nat).
  { induction n as [|n IH]; intros l.
    - destruct l; cbn [strnlen_nat]; lia.
    - destruct l as [|c l]; cbn [strnlen_nat]; [lia|].
      destruct (c =? 0); [lia|]. specialize (IH l). lia. }
  specialize (H (Z.to_nat maxlen) s). lia.
Qed.

Lemma slice_text_prefix (frame data : list Z) (n : Z) :
  in_bounds frame 0 4 && in_bounds data 0 n = true ->
  slice 4 4 (text_frame frame data n) = pack_uint32_syncsafe (1 + n + 1).
Proof.
  intros Hsrc. apply andb_prop in Hsrc. destruct Hsrc as [Hf _].
  apply in_bounds_true in Hf. unfold text_frame.
  change (slice 4 4) with (slice (4 + 0) 4).
  rewrite slice_app_r by (try rewrite length_firstn; lia).
  rewrite slice_app_l by (try rewrite length_pack_uint32_syncsafe; lia).
  apply slice_all. reflexivity.
Qed.

Lemma slice_comment_prefix (data : list Z) (n : Z) :
  slice 4 4 (comment_frame data n)
  = pack_uint32_syncsafe (1 + 3 + n + 1 + 1).
Proof.
  unfold comment_frame.
  change (slice 4 4) with (slice (4 + 0) 4).
  rewrite slice_app_r by (reflexivity || lia).
  rewrite slice_app_l by (try rewrite length_pack_uint32_syncsafe; lia).
  apply slice_all. reflexivity.
Qed.

Lemma slice_private_prefix (description data : list Z) (n : Z) :
  slice 4 4 (private_frame description data n)
  = pack_uint32_syncsafe (1 + strlen description + 1 + n + 1).
Proof.
  unfold private_frame.
  change (slice 4 4) with (slice (4 + 0) 4).
  rewrite slice_app_r by (reflexivity || lia).
  rewrite slice_app_l by (try rewrite length_pack_uint32_syncsafe; lia).
  apply slice_all. reflexivity.
Qed.

(** The payload-length prefix of the frame that was just appended. *)
Lemma extended_prefix (s s' : str_buffer) (F : list Z) :
  extended s F s' ->
  8 <= Z.of_nat (length F) ->
  slice (len s + 4) 4 (x s') = slice 4 4 F.
Proof.
  intros (_ & _ & _ & _ & Hslice) HF. apply Hslice; lia.
Qed.

(** C5, as the code has it.  The payload-length prefix that
    [id3_add_text] writes decodes to [n + 2], the one of
    [id3_add_comment] to [n + 6], and the one of [id3_add_private] with
    a description of length [d] to [1 + d + 1 + n + 1], each reduced
    modulo [2 ^ 28]: to the sum itself whenever that is below [2 ^ 28].
    One text frame with the text "Hello" on a freshly initialised buffer
    makes the used length 27 and the total-size field decode to 17. *)
Theorem payload_length_prefix :
  (forall (may_alloc : Z -> bool) (fuel : nat) (op : tag_op)
     (s s' : str_buffer),
     tag_ok s ->
     run_op may_alloc fuel op s = Done (0, s') ->
     unpack_uint32_syncsafe (slice (len s + 4) 4 (x s'))
     = payload_length op mod 2 ^ 28
     /\ (payload_length op < 2 ^ 28 ->
         unpack_uint32_syncsafe (slice (len s + 4) 4 (x s'))
         = payload_length op))
  /\ (exists s' : str_buffer,
        (id3_init ;;
         id3_add_text (fun _ => true) 0 (cstr "TIT2") (cstr "Hello") 5)
          raw_buffer
        = Done (0, s')
        /\ len s' = 27
        /\ preamble_size s' = 17).
Proof.
  split.
  - intros may_alloc fuel op s s' Hok Hrun.
    assert (Hmod : unpack_uint32_syncsafe (slice (len s + 4) 4 (x s'))
                   = payload_length op mod 2 ^ 28
                   /\ 0 <= payload_length op).
    { destruct op as [frame data n | data n | description data n];
        cbn [run_op payload_length] in *.
      - apply id3_add_text_inv in Hrun; [|exact Hok].
        destruct Hrun as [Hfail | (_ & Hsrc & Hext)]; [discriminate Hfail|].
        pose proof (length_text_frame _ _ _ Hsrc) as HF.
        apply andb_prop in Hsrc as Hsrc'. destruct Hsrc' as [_ Hd].
        apply in_bounds_true in Hd.
        rewrite (extended_prefix _ _ _ Hext) by lia.
        rewrite slice_text_prefix, unpack_pack_syncsafe by exact Hsrc.
        replace (1 + n + 1) with (n + 2) by lia.
        split; [reflexivity | lia].
      - apply id3_add_comment_inv in Hrun; [|exact Hok].
        destruct Hrun as [Hfail | (_ & Hsrc & Hext)]; [discriminate Hfail|].
        pose proof (length_comment_frame _ _ Hsrc) as HF.
        apply in_bounds_true in Hsrc.
        rewrite (extended_prefix _ _ _ Hext) by lia.
        rewrite slice_comment_prefix, unpack_pack_syncsafe.
        replace (1 + 3 + n + 1 + 1) with (n + 6) by lia.
        split; [reflexivity | lia].
      - apply id3_add_private_inv in Hrun; [|exact Hok].
        destruct Hrun as [Hfail | (_ & Hsrc & Hext)]; [discriminate Hfail|].
        pose proof (length_private_frame _ _ _ Hsrc) as HF.
        apply andb_prop in Hsrc. destruct Hsrc as [Hdesc Hd].
        apply in_bounds_true in Hdesc. apply in_bounds_true in Hd.
        rewrite (extended_prefix _ _ _ Hext) by lia.
        rewrite slice_private_prefix, unpack_pack_syncsafe.
        split; [reflexivity | lia]. }
    destruct Hmod as [Hmod Hpos]. split; [exact Hmod|].
    intros Hsmall. rewrite Hmod. apply Z.mod_small. lia.
  - eexists. split; [vm_compute; reflexivity|].
    split; vm_compute; reflexivity.
Qed.

Lemma payload_length_prefix_witness :
  tag_ok empty_tag
  /\ exists s' : str_buffer,
       run_op (fun _ => true) 0 (AddPrivate (cstr "spc_dumper") (cstr "abc") 3)
         empty_tag
       = Done (0, s')
       /\ payload_length (AddPrivate (cstr "spc_dumper") (cstr "abc") 3) = 16
       /\ unpack_uint32_syncsafe (slice (len empty_tag + 4) 4 (x s'))
          = payload_length (AddPrivate (cstr "spc_dumper") (cstr "abc") 3).
Proof.
  split; [exact empty_tag_ok|].
  eexists. split; [vm_compute; reflexivity|].
  split; [reflexivity|].
  apply (proj1 payload_length_prefix (fun _ => true) 0%nat
           (AddPrivate (cstr "spc_dumper") (cstr "abc") 3) empty_tag).
  - exact empty_tag_ok.
  - vm_compute. reflexivity.
  - vm_compute. reflexivity.
Defined.

(** The claim of C5 read for every length fails at the width of the
    prefix: a text of [2 ^ 28 - 2] bytes gets the prefix 0. *)
Lemma payload_length_prefix_wraps :
  exists s' : str_buffer,
    id3_add_text (fun _ => true) (Z.to_nat (2 ^ 20)) (cstr "TIT2") long_text
      (2 ^ 28 - 2) empty_tag
    = Done (0, s')
    /\ unpack_uint32_syncsafe (slice (len empty_tag + 4) 4 (x s'))
       <> (2 ^ 28 - 2) + 2.
Proof.
  assert (Hsrc := long_text_in_bounds (2 ^ 28 - 2) ltac:(lia)).
  destruct (id3_add_text_enough (Z.to_nat (2 ^ 20)) (cstr "TIT2") long_text
              (2 ^ 28 - 2) empty_tag empty_tag_ok Hsrc)
    as (s' & Hrun).
  - change (len empty_tag) with 10. lia.
  - change (len empty_tag) with 10. change (a empty_tag) with 4096. lia.
  - exists s'. split; [exact Hrun|].
    apply (id3_add_text_inv _ _ _ _ _ empty_tag_ok) in Hrun.
    destruct Hrun as [Hfail | (_ & _ & Hext)]; [discriminate Hfail|].
    pose proof (length_text_frame _ _ _ Hsrc) as HF.
    rewrite (extended_prefix _ _ _ Hext) by lia.
    rewrite slice_text_prefix, unpack_pack_syncsafe by exact Hsrc.
    replace (1 + (2 ^ 28 - 2) + 1) with (2 ^ 28) by lia.
    rewrite Z.mod_same by lia. lia.
Qed.

(** *** The tag that [main] assembles *)

Lemma length_set_size (U : list Z) :
  (10 <= length U)%nat ->
  length (set_size U) = length U.
Proof.
  intros HU. unfold set_size.
  rewrite !length_app, length_firstn, length_skipn,
    length_pack_uint32_syncsafe. lia.
Qed.

Lemma firstn_set_size (U : list Z) :
  (10 <= length U)%nat ->
  firstn 6 (set_size U) = firstn 6 U.
Proof.
  intros HU. unfold set_size.
  rewrite firstn_app, length_firstn.
  replace (6 - Nat.min 6 (length U))%nat with 0%nat by lia.
  rewrite firstn_firstn. cbn [firstn Nat.min]. apply app_nil_r.
Qed.

Lemma skipn_set_size (U : list Z) :
  (10 <= length U)%nat ->
  skipn 10 (set_size U) = skipn 10 U.
Proof.
  intros HU. unfold set_size.
  assert (Hten : length (firstn 6 U
                         ++ pack_uint32_syncsafe (Z.of_nat (length U) - 10))
                 = 10%nat)
    by (rewrite length_app, length_firstn, length_pack_uint32_syncsafe; lia).
  rewrite app_assoc, skipn_app, Hten.
  rewrite skipn_all2 by lia.
  reflexivity.
Qed.

(** Sealing again after an append forgets the earlier seal. *)
Lemma set_size_absorb (U F : list Z) :
  (10 <= length U)%nat ->
  set_size (set_size U ++ F) = set_size (U ++ F).
Proof.
  intros HU. unfold set_size at 1 3.
  rewrite !reseal_app by (try rewrite length_set_size; lia).
  rewrite !length_app, length_set_size by lia.
  rewrite firstn_set_size, skipn_set_size by lia.
  reflexivity.
Qed.

Lemma holds_extended (s s' : str_buffer) (Fs F : list Z) :
  holds s Fs ->
  extended s F s' ->
  holds s' (Fs ++ F).
Proof.
  intros [Hok Hused] (Hok' & _ & Hused' & _).
  split; [exact Hok'|].
  rewrite Hused', Hused, set_size_absorb, app_assoc; [reflexivity|].
  rewrite length_app. cbn [preamble cstr length app]. lia.
Qed.

Lemma holds_empty_tag : holds empty_tag [].
Proof. split; [exact empty_tag_ok | reflexivity]. Qed.

Section MainTags.

Variable may_alloc : Z -> bool.
Variable fuel : nat.

(** One guarded addition of [main]. *)
Lemma attempt_step (cond : bool) (op : tag_op)
    (k : M str_buffer (option Z)) (s s' : str_buffer) (Fs : list Z) :
  holds s Fs ->
  attempt cond (run_op may_alloc fuel op) k s = Done (None, s') ->
  exists s1 : str_buffer,
    holds s1 (Fs ++ optional cond (frame_of op))
    /\ (cond = true -> readable op = true)
    /\ k s1 = Done (None, s').
Proof.
  intros Hholds Hrun. unfold attempt in Hrun.
  destruct cond; cbn [optional].
  - apply bind_Done in Hrun. destruct Hrun as (r & s1 & Hop & Hk).
    destruct (r =? -1) eqn:Hr; [discriminate Hk|].
    exists s1.
    assert (Hdone : readable op = true /\ extended s (frame_of op) s1).
    { destruct Hholds as [Hok _].
      destruct op as [frame data n | data n | description data n];
        cbn [run_op frame_of readable] in *.
      - apply id3_add_text_inv in Hop; [|exact Hok].
        destruct Hop as [Hfail | (_ & Hsrc & Hext)];
          [subst r; discriminate Hr | split; assumption].
      - apply id3_add_comment_inv in Hop; [|exact Hok].
        destruct Hop as [Hfail | (_ & Hsrc & Hext)];
          [subst r; discriminate Hr | split; assumption].
      - apply id3_add_private_inv in Hop; [|exact Hok].
        destruct Hop as [Hfail | (_ & Hsrc & Hext)];
          [subst r; discriminate Hr | split; assumption]. }
    destruct Hdone as [Hsrc Hext].
    split; [|split]; [|intros _; exact Hsrc | exact Hk].
    apply (holds_extended s); assumption.
  - exists s. rewrite app_nil_r.
    split; [|split]; [exact Hholds | discriminate | exact Hrun].
Qed.

Lemma attempt_text (cond : bool) (frame data : list Z) (n : Z)
    (k : M str_buffer (option Z)) (s s' : str_buffer) (Fs : list Z) :
  holds s Fs ->
  attempt cond (id3_add_text may_alloc fuel frame data n) k s
  = Done (None, s') ->
  exists s1 : str_buffer,
    holds s1 (Fs ++ optional cond (text_frame frame data n))
    /\ (cond = true -> in_bounds frame 0 4 && in_bounds data 0 n = true)
    /\ k s1 = Done (None, s').
Proof. exact (attempt_step cond (AddText frame data n) k s s' Fs). Qed.

Lemma attempt_comment (cond : bool) (data : list Z) (n : Z)
    (k : M str_buffer (option Z)) (s s' : str_buffer) (Fs : list Z) :
  holds s Fs ->
  attempt cond (id3_add_comment may_alloc fuel data n) k s
  = Done (None, s') ->
  exists s1 : str_buffer,
    holds s1 (Fs ++ optional cond (comment_frame data n))
    /\ (cond = true -> in_bounds data 0 n = true)
    /\ k s1 = Done (None, s').
Proof. exact (attempt_step cond (AddComment data n) k s s' Fs). Qed.

Lemma attempt_private (cond : bool) (description data : list Z) (n : Z)
    (k : M str_buffer (option Z)) (s s' : str_buffer) (Fs : list Z) :
  holds s Fs ->
  attempt cond (id3_add_private may_alloc fuel description data n) k s
  = Done (None, s') ->
  exists s1 : str_buffer,
    holds s1 (Fs ++ optional cond (private_frame description data n))
    /\ (cond = true ->
        in_bounds description 0 (strlen description) && in_bounds data 0 n
        = true)
    /\ k s1 = Done (None, s').
Proof.
  exact (attempt_step cond (AddPrivate description data n) k s s' Fs).
Qed.

Lemma main_tags_prologue (k : M str_buffer (option Z)) (p : list Z)
    (s : str_buffer) :
  malloc may_alloc 4096 = Some p ->
  (put {| x := p; a := 4096; len := 0 |} ;; id3_init ;; k) s
  = k empty_tag.
Proof.
  unfold malloc. destruct ((0 <? 4096) && may_alloc 4096);
    [|discriminate].
  intros Hp.
  assert (Hp' : p = repeat 0 (Z.to_nat 4096)) by congruence.
  subst p.
  unfold bind at 1. unfold put.
  unfold bind.
  replace (id3_init {| x := repeat 0 (Z.to_nat 4096); a := 4096; len := 0 |})
    with (Done (tt, empty_tag)) by (vm_compute; reflexivity).
  reflexivity.
Qed.

(** The used bytes after [main]'s tag-building part: the preamble, the
    frames of the fields that are present when a tag is asked for, and
    the total size.  The array of the dumper holds the bytes that were
    copied from it. *)
Lemma main_tags_layout (embedId3 : bool) (id6 : id666) (s' : str_buffer) :
  main_tags may_alloc fuel embedId3 id6 id3_buffer = Done (None, s') ->
  holds s' (if embedId3 then tag_frames id6 else [])
  /\ (embedId3 = true ->
      negb (strnlen (dumper id6) 256 =? 0) = true ->
      in_bounds (dumper id6) 0 (strnlen (game id6) 256) = true).
Proof.
  unfold main_tags.
  destruct (malloc may_alloc 4096) as [p|] eqn:Hp; [|discriminate].
  rewrite (main_tags_prologue _ p _ Hp).
  destruct embedId3.
  - intros Hrun.
    apply (attempt_text _ _ _ _ _ _ _ [] holds_empty_tag) in Hrun.
    destruct Hrun as (s1 & H1 & _ & Hrun).
    apply (attempt_text _ _ _ _ _ _ _ _ H1) in Hrun.
    destruct Hrun as (s2 & H2 & _ & Hrun).
    apply (attempt_private _ _ _ _ _ _ _ _ H2) in Hrun.
    destruct Hrun as (s3 & H3 & Hdumper & Hrun).
    apply (attempt_comment _ _ _ _ _ _ _ H3) in Hrun.
    destruct Hrun as (s4 & H4 & _ & Hrun).
    apply (attempt_text _ _ _ _ _ _ _ _ H4) in Hrun.
    destruct Hrun as (s5 & H5 & _ & Hrun).
    apply (attempt_text _ _ _ _ _ _ _ _ H5) in Hrun.
    destruct Hrun as (s6 & H6 & _ & Hrun).
    apply (attempt_text _ _ _ _ _ _ _ _ H6) in Hrun.
    destruct Hrun as (s7 & H7 & _ & Hrun).
    injection Hrun as Hs'. subst s7. split.
    + cbn [app] in H7. rewrite <- !app_assoc in H7. exact H7.
    + intros _ Hpresent. apply Hdumper in Hpresent.
      apply andb_prop in Hpresent. apply Hpresent.
  - intros Hrun. injection Hrun as Hs'. subst s'.
    split; [exact holds_empty_tag | discriminate].
Qed.

End MainTags.

Lemma slice_set_size (T : list Z) (off n : Z) :
  10 <= off ->
  (10 <= length T)%nat ->
  slice off n (set_size T) = slice off n T.
Proof.
  intros Hoff HT. unfold set_size.
  rewrite app_assoc.
  replace off with (10 + (off - 10)) at 1 by lia.
  rewrite slice_app_r
    by (try rewrite length_app, length_firstn, length_pack_uint32_syncsafe;
        lia).
  unfold slice. rewrite skipn_skipn. do 2 f_equal. lia.
Qed.

(** *** The size of the tag that [main] builds *)

Lemma length_optional (cond : bool) (F : list Z) :
  (length (optional cond F) <= length F)%nat.
Proof. destruct cond; cbn [optional length]; lia. Qed.

Lemma length_text_frame_le (frame data : list Z) (n : Z) :
  Z.of_nat (length (text_frame frame data n)) <= 12 + Z.max 0 n.
Proof.
  unfold text_frame.
  rewrite !length_app, !length_firstn, length_pack_uint32_syncsafe.
  cbn [length]. lia.
Qed.

Lemma length_comment_frame_le (data : list Z) (n : Z) :
  Z.of_nat (length (comment_frame data n)) <= 16 + Z.max 0 n.
Proof.
  unfold comment_frame.
  rewrite !length_app, !length_firstn, length_pack_uint32_syncsafe.
  cbn [length cstr]. lia.
Qed.

Lemma length_private_frame_le (description data : list Z) (n : Z) :
  Z.of_nat (length (private_frame description data n))
  <= 13 + Z.of_nat (length description) + Z.max 0 n.
Proof.
  unfold private_frame.
  rewrite !length_app, !length_firstn, length_pack_uint32_syncsafe.
  cbn [length cstr]. lia.
Qed.

Lemma strlen_le (s : list Z) : 0 <= strlen s <= Z.of_nat (length s).
Proof.
  pose proof (strnlen_le s (Z.of_nat (length s)) ltac:(lia)) as H.
  unfold strnlen in H. rewrite Nat2Z.id in H. exact H.
Qed.

Lemma length_yearTmp (y : Z) : (length (yearTmp y) <= 5)%nat.
Proof.
  unfold yearTmp. rewrite length_app, length_firstn. cbn [length]. lia.
Qed.

(** The fields are measured up to 256 bytes, so the frames of a tag stay
    far below the [2 ^ 28] bytes that the size field can count. *)
Lemma length_tag_frames (id6 : id666) :
  Z.of_nat (length (tag_frames id6)) <= 2048.
Proof.
  unfold tag_frames, frame_song, frame_game, frame_dumper, frame_comment,
    frame_artist, frame_publisher, frame_year.
  rewrite !length_app.
  pose proof (strnlen_le (song id6) 256 ltac:(lia)).
  pose proof (strnlen_le (game id6) 256 ltac:(lia)).
  pose proof (strnlen_le (comment id6) 256 ltac:(lia)).
  pose proof (strnlen_le (artist id6) 256 ltac:(lia)).
  pose proof (strnlen_le (publisher id6) 256 ltac:(lia)).
  pose proof (strlen_le (yearTmp (year id6))).
  pose proof (length_yearTmp (year id6)).
  repeat match goal with
         | |- context [optional ?c ?F] =>
             pose proof (length_optional c F);
             generalize dependent (optional c F); intros
         end.
  pose proof (length_text_frame_le (cstr "TIT2") (song id6)
                (strnlen (song id6) 256)).
  pose proof (length_text_frame_le (cstr "TALB") (game id6)
                (strnlen (game id6) 256)).
  pose proof (length_private_frame_le (cstr "spc_dumper") (dumper id6)
                (strnlen (game id6) 256)).
  pose proof (length_comment_frame_le (comment id6)
                (strnlen (comment id6) 256)).
  pose proof (length_text_frame_le (cstr "TPE1") (artist id6)
                (strnlen (artist id6) 256)).
  pose proof (length_text_frame_le (cstr "TPUB") (publisher id6)
                (strnlen (publisher id6) 256)).
  pose proof (length_text_frame_le (cstr "TDRC") (yearTmp (year id6))
                (strlen (yearTmp (year id6)))).
  change (length (cstr "spc_dumper")) with 10%nat in *.
  lia.
Qed.

Lemma slice_firstn (l : list Z) (off n k : Z) :
  0 <= off -> 0 <= n ->
  off + n <= k ->
  slice off n (firstn (Z.to_nat k) l) = slice off n l.
Proof.
  intros Hoff Hn Hk. unfold slice.
  rewrite skipn_firstn_comm, firstn_firstn.
  f_equal. lia.
Qed.

Lemma slice_size_field (T : list Z) :
  (10 <= length T)%nat ->
  slice 6 4 (set_size T) = pack_uint32_syncsafe (Z.of_nat (length T) - 10).
Proof.
  intros HT. unfold set_size.
  change (slice 6 4) with (slice (6 + 0) 4).
  rewrite slice_app_r by (try rewrite length_firstn; lia).
  rewrite slice_app_l by (try rewrite length_pack_uint32_syncsafe; lia).
  apply slice_all. reflexivity.
Qed.

(** In every run of [main] the total-size field of the finished tag is
    the used length minus 10: the width of the field is never reached. *)
Lemma main_tags_preamble_size (may_alloc : Z -> bool) (fuel : nat)
    (embedId3 : bool) (id6 : id666) (s' : str_buffer) :
  main_tags may_alloc fuel embedId3 id6 id3_buffer = Done (None, s') ->
  len s' <= 2058 /\ preamble_size s' = len s' - 10.
Proof.
  intros Hrun. apply main_tags_layout in Hrun.
  destruct Hrun as [[Hok Hused] _].
  destruct Hok as ((Hten & Hcap) & Hx & Hmax).
  set (Fs := if embedId3 then tag_frames id6 else []) in *.
  assert (HFs : Z.of_nat (length Fs) <= 2048).
  { subst Fs. destruct embedId3; [apply length_tag_frames | cbn; lia]. }
  assert (HT : length (preamble ++ Fs) = (10 + length Fs)%nat)
    by (rewrite length_app; reflexivity).
  assert (Hlen : len s' = 10 + Z.of_nat (length Fs)).
  { apply (f_equal (@length Z)) in Hused.
    unfold used in Hused.
    rewrite length_firstn, length_set_size, HT in Hused by lia.
    lia. }
  split; [lia|].
  unfold preamble_size.
  rewrite <- (slice_firstn (x s') 6 4 (len s')) by lia.
  fold (used s'). rewrite Hused, slice_size_field by lia.
  rewrite unpack_pack_syncsafe, HT.
  rewrite Z.mod_small by lia. lia.
Qed.

(** C10. When the dumper field is not empty, the "TXXX" frame that
    [main] builds carries, after the description, as many bytes of the
    dumper array as the game title is long, [strnlen (game, 256)], and
    its payload-length prefix counts that many; with a game title of 5
    bytes and a dumper name of 3 bytes the frame embeds 5 bytes. *)
Theorem dumper_frame_uses_game_length :
  (forall (may_alloc : Z -> bool) (fuel : nat) (id6 : id666)
     (s' : str_buffer),
     main_tags may_alloc fuel true id6 id3_buffer = Done (None, s') ->
     strnlen (dumper id6) 256 <> 0 ->
     let off := 10 + Z.of_nat (length (frame_song id6 ++ frame_game id6)) in
     let n := strnlen (game id6) 256 in
     slice off 4 (used s') = cstr "TXXX"
     /\ unpack_uint32_syncsafe (slice (off + 4) 4 (used s'))
        = 1 + strlen (cstr "spc_dumper") + 1 + n + 1
     /\ slice (off + 22) n (used s') = firstn (Z.to_nat n) (dumper id6)
     /\ Z.of_nat (length (firstn (Z.to_nat n) (dumper id6))) = n)
  /\ (strnlen (dumper zelda) 256 = 3
      /\ strnlen (game zelda) 256 = 5
      /\ exists s' : str_buffer,
           main_tags (fun _ => true) 0 true zelda id3_buffer
           = Done (None, s')
           /\ unpack_uint32_syncsafe (slice 31 4 (used s')) = 18
           /\ slice 49 5 (used s') = cstr "Bob" ++ [0; 0]).
Proof.
  split.
  - intros may_alloc fuel id6 s' Hrun Hpresent off n.
    apply main_tags_layout in Hrun. destruct Hrun as [[Hok Hused] Hread].
    pose proof (strnlen_le (game id6) 256 ltac:(lia)) as Hn. fold n in Hn.
    assert (Hcond : negb (strnlen (dumper id6) 256 =? 0) = true)
      by (apply negb_true_iff, Z.eqb_neq; exact Hpresent).
    specialize (Hread eq_refl Hcond). fold n in Hread.
    assert (Hsrc : in_bounds (cstr "spc_dumper") 0 (strlen (cstr "spc_dumper"))
                   && in_bounds (dumper id6) 0 n = true)
      by (rewrite Hread; reflexivity).
    pose proof (length_private_frame _ _ _ Hsrc) as HF.
    change (strlen (cstr "spc_dumper")) with 10 in *.
    apply in_bounds_true in Hread.
    assert (Hlen : Z.of_nat (length (firstn (Z.to_nat n) (dumper id6))) = n)
      by (rewrite length_firstn; lia).
    assert (Hslice : forall k m : Z,
              0 <= k -> 0 <= m ->
              k + m <= 10 + (1 + 10 + 1 + n + 1) ->
              slice (off + k) m (used s')
              = slice k m
                  (private_frame (cstr "spc_dumper") (dumper id6) n)).
    { intros k m Hk Hm Hkm. rewrite Hused.
      rewrite slice_set_size
        by (subst off; try rewrite length_app; cbn [preamble cstr length app];
            lia).
      unfold tag_frames, frame_dumper. rewrite Hcond. cbn [optional].
      rewrite (app_assoc (frame_song id6)).
      rewrite (app_assoc preamble).
      subst off. rewrite slice_app_r
        by (try rewrite length_app; cbn [preamble cstr length app]; lia).
      fold n. apply slice_app_l; lia. }
    split; [|split; [|split]].
    + replace off with (off + 0) by lia.
      rewrite Hslice by lia. reflexivity.
    + rewrite Hslice by lia.
      rewrite slice_private_prefix, unpack_pack_syncsafe.
      change (strlen (cstr "spc_dumper")) with 10.
      apply Z.mod_small. lia.
    + rewrite Hslice by lia.
      unfold private_frame.
      change (strlen (cstr "spc_dumper")) with 10.
      rewrite !app_assoc, <- (app_assoc _ _ [0]).
      replace 22 with (22 + 0) by lia.
      rewrite slice_app_r by (reflexivity || lia).
      rewrite slice_app_l by lia.
      apply slice_all. exact Hlen.
    + exact Hlen.
  - split; [reflexivity|]. split; [reflexivity|].
    eexists. split; [vm_compute; reflexivity|].
    split; vm_compute; reflexivity.
Qed.

Lemma dumper_frame_uses_game_length_witness :
  strnlen (dumper zelda) 256 <> 0
  /\ exists s' : str_buffer,
       main_tags (fun _ => true) 0 true zelda id3_buffer = Done (None, s')
       /\ slice (10 + Z.of_nat (length (frame_song zelda ++ frame_game zelda))
                 + 22)
            (strnlen (game zelda) 256) (used s')
          = firstn (Z.to_nat (strnlen (game zelda) 256)) (dumper zelda)
       /\ Z.of_nat (length (firstn (Z.to_nat (strnlen (game zelda) 256))
                              (dumper zelda)))
          = 5.
Proof.
  assert (Hpresent : strnlen (dumper zelda) 256 <> 0)
    by (vm_compute; discriminate).
  split; [exact Hpresent|].
  eexists. split; [vm_compute; reflexivity|].
  refine ((fun H => conj (proj1 (proj2 (proj2 H))) _)
            (proj1 dumper_frame_uses_game_length (fun _ => true) 0%nat zelda
               _ _ Hpresent)).
  - reflexivity.
  - vm_compute. reflexivity.
Defined.

(** * Further properties

    Properties of the parts of the program that the statements above
    leave out, and of the same parts on every input: the packer in
    closed form, the layout of the header, the rendered file as a
    whole, the allocation of the tag builder, the command line, the
    name of the output file, and the times on the error stream. *)

(** ** Little-endian fields *)

Lemma unpack_pack_uint16le (n : Z) :
  unpack_uint32le (pack_uint16le n) = n mod 2 ^ 16.
Proof.
  unfold unpack_uint32le, pack_uint16le, u8. cbn [fold_right].
  rewrite !Z.shiftr_div_pow2 by lia.
  change (2 ^ 8) with 256. change (2 ^ 16) with 65536.
  Z.to_euclidean_division_equations. lia.
Qed.

Lemma unpack_pack_int16le (n : Z) :
  unpack_int16le (pack_int16le n) = i16 n.
Proof.
  unfold unpack_int16le, pack_int16le, u8, i16. cbn [fold_right].
  rewrite !Z.shiftr_div_pow2 by lia.
  change (2 ^ 8) with 256. change (2 ^ 16) with 65536.
  change (2 ^ 15) with 32768.
  Z.to_euclidean_division_equations. lia.
Qed.

Lemma u8_range (z : Z) : 0 <= u8 z < 256.
Proof. unfold u8. apply Z.mod_pos_bound. lia. Qed.

(** X1.  The three packers write little-endian fields that read back: a
    32-bit value through [pack_uint32le], a 16-bit value through
    [pack_uint16le], and a signed 16-bit sample through
    [pack_int16le] each come back unchanged from the bytes; and
    whatever the argument, every cell written is a byte. *)
Theorem pack_le_round_trip :
  (forall n : Z,
     0 <= n < 2 ^ 32 -> unpack_uint32le (pack_uint32le n) = n)
  /\ (forall n : Z,
        0 <= n < 2 ^ 16 -> unpack_uint32le (pack_uint16le n) = n)
  /\ (forall n : Z,
        - 2 ^ 15 <= n < 2 ^ 15 -> unpack_int16le (pack_int16le n) = n)
  /\ (forall n : Z,
        Forall (fun b => 0 <= b < 256)
          (pack_uint32le n ++ pack_uint16le n ++ pack_int16le n)).
Proof.
  split; [|split; [|split]].
  - intros n Hn. rewrite unpack_pack_uint32le. apply Z.mod_small. exact Hn.
  - intros n Hn. rewrite unpack_pack_uint16le. apply Z.mod_small. exact Hn.
  - intros n Hn. rewrite unpack_pack_int16le. unfold i16.
    change (2 ^ 15) with 32768 in *. change (2 ^ 16) with 65536.
    rewrite Z.mod_small by lia. lia.
  - intros n. unfold pack_uint32le, pack_uint16le, pack_int16le.
    cbn [app]. repeat constructor; apply u8_range.
Qed.

Lemma pack_le_round_trip_witness :
  unpack_uint32le (pack_uint32le 4036) = 4036
  /\ unpack_uint32le (pack_uint16le 32000) = 32000
  /\ unpack_int16le (pack_int16le (-100)) = -100.
Proof.
  destruct pack_le_round_trip as (H32 & H16 & Hs & _).
  split; [apply H32; lia | split; [apply H16; lia | apply Hs; lia]].
Defined.

(** ** The frame packer in closed form *)

Lemma skipn_nth {A : Type} (d : A) (k : nat) (l : list A) :
  (k < length l)%nat ->
  skipn k l = nth k l d :: skipn (S k) l.
Proof.
  revert l. induction k as [|k IH]; intros [|c l] Hk; cbn [length] in Hk;
    try lia; [reflexivity|].
  cbn [skipn nth]. rewrite IH by lia. reflexivity.
Qed.

Lemma read_nth (s : list Z) (k : Z) :
  0 <= k < Z.of_nat (length s) ->
  read s k = Done (nth (Z.to_nat k) s 0).
Proof.
  intros Hk. unfold read, load.
  replace (in_bounds s k 1) with true
    by (symmetry; apply in_bounds_true; lia).
  rewrite (skipn_nth 0) by lia. reflexivity.
Qed.

Lemma read_outside (s : list Z) (k : Z) :
  Z.of_nat (length s) <= k ->
  read s k = Undefined.
Proof.
  intros Hk. unfold read, load.
  destruct (in_bounds s k 1) eqn:Hin; [|reflexivity].
  apply in_bounds_true in Hin. lia.
Qed.

Lemma length_splice {A : Type} (off : nat) (cells mem : list A) :
  (off + length cells <= length mem)%nat ->
  length (splice off cells mem) = length mem.
Proof.
  intros Hfit. unfold splice.
  rewrite !length_app, length_firstn, length_skipn. lia.
Qed.

Lemma poke_splice (d : Z) (off : nat) (acc cells mem : list Z) :
  d = Z.of_nat off + Z.of_nat (length acc) ->
  (off + length acc + length cells <= length mem)%nat ->
  poke d cells (splice off acc mem)
  = Done (tt, splice off (acc ++ cells) mem).
Proof.
  intros Hd Hfit. unfold poke, store.
  replace (in_bounds (splice off acc mem) d (Z.of_nat (length cells)))
    with true
    by (symmetry; apply in_bounds_true; rewrite length_splice by lia; lia).
  replace (Z.to_nat d) with (off + length acc)%nat by lia.
  unfold splice. rewrite splice_twice by lia. reflexivity.
Qed.

Lemma poke_outside (d : Z) (cells mem : list Z) :
  Z.of_nat (length mem) < d + Z.of_nat (length cells) ->
  poke d cells mem = Undefined.
Proof.
  intros Hd. unfold poke, store.
  destruct (in_bounds mem d (Z.of_nat (length cells))) eqn:Hin;
    [|reflexivity].
  apply in_bounds_true in Hin. lia.
Qed.

Lemma splice_nil {A : Type} (off : nat) (mem : list A) :
  splice off [] mem = mem.
Proof.
  unfold splice. cbn [app length]. rewrite Nat.add_0_r.
  apply firstn_skipn.
Qed.

Lemma packed_app (l1 l2 : list Z) : packed (l1 ++ l2) = packed l1 ++ packed l2.
Proof. unfold packed. apply flat_map_app. Qed.

Lemma length_packed (l : list Z) : length (packed l) = (2 * length l)%nat.
Proof.
  induction l as [|c l IH]; [reflexivity|].
  unfold packed in *. cbn [flat_map length pack_int16le app].
  rewrite IH. lia.
Qed.

Lemma pack_frames_loop_splice (fuel : nat) (s : list Z) (frameCount : Z)
    (off : nat) (mem : list Z) :
  forall (i : Z) (acc : list Z),
    0 <= i <= frameCount ->
    frameCount < 2 ^ 31 ->
    frameCount - i <= Z.of_nat fuel ->
    2 * frameCount <= Z.of_nat (length s) ->
    Z.of_nat off + Z.of_nat (length acc) + 4 * (frameCount - i)
    <= Z.of_nat (length mem) ->
    pack_frames_loop fuel s frameCount i
      (Z.of_nat off + Z.of_nat (length acc)) (splice off acc mem)
    = Done (tt, splice off
                  (acc ++ packed (firstn (Z.to_nat (2 * (frameCount - i)))
                                    (skipn (Z.to_nat (2 * i)) s)))
                  mem).
Proof.
  induction fuel as [|fuel IH]; intros i acc Hi Hmax Hfuel Hs Hfit;
    cbn [pack_frames_loop]; destruct (i <? frameCount) eqn:Hlt;
    try (apply Z.ltb_ge in Hlt;
         replace (frameCount - i) with 0 by lia;
         cbn [Z.mul Z.to_nat firstn]; unfold packed; cbn [flat_map];
         rewrite app_nil_r; reflexivity);
    apply Z.ltb_lt in Hlt; [lia|].
  change (2 ^ 31) with 2147483648 in Hmax.
  rewrite (u32_small (i * 2)) by (change (2 ^ 32) with 4294967296; lia).
  rewrite !u32_small by (change (2 ^ 32) with 4294967296; lia).
  unfold bind at 1. unfold lift at 1.
  rewrite read_nth by lia.
  unfold bind at 1. rewrite poke_splice by (cbn [pack_int16le length]; lia).
  unfold bind at 1. unfold lift at 1.
  rewrite read_nth by lia.
  unfold bind at 1.
  rewrite poke_splice
    by (rewrite ?length_app; cbn [pack_int16le length sizeof_int16_t];
        unfold sizeof_int16_t; lia).
  set (l := nth (Z.to_nat (i * 2 + 0)) s 0).
  set (r := nth (Z.to_nat (i * 2 + 1)) s 0).
  replace (Z.of_nat off + Z.of_nat (length acc) + sizeof_int16_t * CHANNELS)
    with (Z.of_nat off
          + Z.of_nat (length ((acc ++ pack_int16le l) ++ pack_int16le r)))
    by (rewrite !length_app; cbn [pack_int16le length];
        unfold sizeof_int16_t, CHANNELS; lia).
  rewrite IH;
    try (rewrite !length_app; cbn [pack_int16le length]); try lia.
  do 2 f_equal. rewrite <- !app_assoc. f_equal.
  replace (Z.to_nat (2 * (frameCount - i)))
    with (S (S (Z.to_nat (2 * (frameCount - (i + 1)))))) by lia.
  rewrite (skipn_nth 0 (Z.to_nat (2 * i))) by lia.
  rewrite (skipn_nth 0 (S (Z.to_nat (2 * i)))) by lia.
  cbn [firstn]. unfold packed. cbn [flat_map].
  subst l r.
  replace (Z.to_nat (i * 2 + 0)) with (Z.to_nat (2 * i)) by lia.
  replace (Z.to_nat (i * 2 + 1)) with (S (Z.to_nat (2 * i))) by lia.
  replace (Z.to_nat (2 * (i + 1))) with (S (S (Z.to_nat (2 * i)))) by lia.
  rewrite <- ?app_assoc. reflexivity.
Qed.

Lemma pack_frames_done (s : list Z) (frameCount : Z) (mem : list Z) :
  0 <= frameCount < 2 ^ 31 ->
  2 * frameCount <= Z.of_nat (length s) ->
  4 * frameCount <= Z.of_nat (length mem) ->
  pack_frames s frameCount mem
  = Done (tt, packed (firstn (Z.to_nat (2 * frameCount)) s)
              ++ skipn (Z.to_nat (4 * frameCount)) mem).
Proof.
  intros Hn Hs Hmem. unfold pack_frames.
  pose proof (pack_frames_loop_splice (Z.to_nat frameCount) s frameCount
                0 mem 0 []) as Hloop.
  rewrite splice_nil in Hloop. cbn [length Z.of_nat Z.add] in Hloop.
  rewrite Hloop by lia. clear Hloop.
  rewrite Z.sub_0_r. change (Z.to_nat (2 * 0)) with 0%nat.
  cbn [skipn app]. unfold splice.
  cbn [firstn app Nat.add]. rewrite length_packed, length_firstn.
  do 3 f_equal. f_equal. lia.
Qed.

Lemma lift_Done {S A : Type} (o : outcome A) (s s' : S) (v : A) :
  lift o s = Done (v, s') -> o = Done v /\ s' = s.
Proof.
  destruct o; cbn [lift]; intros H; try discriminate H.
  inversion H. split; reflexivity.
Qed.

Lemma read_Done (s : list Z) (k v : Z) :
  read s k = Done v -> 0 <= k < Z.of_nat (length s).
Proof.
  unfold read, load. destruct (in_bounds s k 1) eqn:Hin; [|discriminate].
  apply in_bounds_true in Hin. lia.
Qed.

Lemma poke_Done (d : Z) (cells mem mem' : list Z) (u : unit) :
  poke d cells mem = Done (u, mem') ->
  0 <= d /\ d + Z.of_nat (length cells) <= Z.of_nat (length mem)
  /\ length mem' = length mem.
Proof.
  unfold poke. destruct (store mem d cells) as [m | |] eqn:Hst;
    try discriminate.
  intros H. inversion H. subst m.
  pose proof (length_store _ _ _ _ Hst) as Hlen.
  unfold store in Hst.
  destruct (in_bounds mem d (Z.of_nat (length cells))) eqn:Hin;
    [|discriminate Hst].
  apply in_bounds_true in Hin. lia.
Qed.

(** A run of the packer that ends has stayed inside both buffers. *)
Lemma pack_frames_loop_bounds (fuel : nat) (s : list Z) (frameCount : Z) :
  forall (i d : Z) (mem mem' : list Z) (u : unit),
    0 <= i < frameCount ->
    frameCount < 2 ^ 31 ->
    pack_frames_loop fuel s frameCount i d mem = Done (u, mem') ->
    2 * frameCount <= Z.of_nat (length s)
    /\ d + 4 * (frameCount - i) <= Z.of_nat (length mem).
Proof.
  induction fuel as [|fuel IH]; intros i d mem mem' u Hi Hmax Hrun;
    cbn [pack_frames_loop] in Hrun;
    replace (i <? frameCount) with true in Hrun
      by (symmetry; apply Z.ltb_lt; lia);
    [discriminate Hrun|].
  change (2 ^ 31) with 2147483648 in Hmax.
  rewrite (u32_small (i * 2)) in Hrun
    by (change (2 ^ 32) with 4294967296; lia).
  rewrite !u32_small in Hrun by (change (2 ^ 32) with 4294967296; lia).
  apply bind_Done in Hrun. destruct Hrun as (l & m0 & Hl & Hrun).
  apply lift_Done in Hl. destruct Hl as [Hl ->]. apply read_Done in Hl.
  apply bind_Done in Hrun. destruct Hrun as (u1 & m1 & Hp1 & Hrun).
  apply poke_Done in Hp1. destruct Hp1 as (Hd & _ & Hlen1).
  apply bind_Done in Hrun. destruct Hrun as (r & m2 & Hr & Hrun).
  apply lift_Done in Hr. destruct Hr as [Hr ->]. apply read_Done in Hr.
  apply bind_Done in Hrun. destruct Hrun as (u2 & m3 & Hp2 & Hrun).
  apply poke_Done in Hp2. destruct Hp2 as (_ & Hfit2 & Hlen3).
  cbn [pack_int16le length] in Hfit2. unfold sizeof_int16_t in Hfit2.
  destruct (Z_lt_le_dec (i + 1) frameCount) as [Hmore | Hlast].
  - apply IH in Hrun; [|lia|lia].
    unfold sizeof_int16_t, CHANNELS in Hrun. lia.
  - lia.
Qed.

Lemma pack_frames_eq (s : list Z) (frameCount : Z)
    (mem : list Z) :
  0 <= frameCount < 2 ^ 31 ->
  pack_frames s frameCount mem
  = if in_bounds s 0 (2 * frameCount) && in_bounds mem 0 (4 * frameCount)
    then Done (tt, packed (firstn (Z.to_nat (2 * frameCount)) s)
                   ++ skipn (Z.to_nat (4 * frameCount)) mem)
    else Undefined.
Proof.
  intros Hn.
  destruct (in_bounds s 0 (2 * frameCount) && in_bounds mem 0 (4 * frameCount))
    eqn:Hin.
  - apply andb_prop in Hin. destruct Hin as [Hs Hmem].
    apply in_bounds_true in Hs. apply in_bounds_true in Hmem.
    apply pack_frames_done; lia.
  - destruct (pack_frames s frameCount mem) as [[u mem'] | |] eqn:Hrun;
      [|reflexivity|].
    + exfalso. destruct (Z.eq_dec frameCount 0) as [-> | Hpos].
      * cbn in Hin. discriminate Hin.
      * unfold pack_frames in Hrun.
        apply pack_frames_loop_bounds in Hrun; [|lia|lia].
        apply andb_false_iff in Hin.
        destruct Hin as [Hin | Hin];
          (assert (Hin' : in_bounds s 0 (2 * frameCount) = true
                          /\ in_bounds mem 0 (4 * frameCount) = true)
             by (split; apply in_bounds_true; lia));
          destruct Hin' as [Hs Hm]; congruence.
    + exfalso. revert Hrun. apply pack_frames_no_timeout.
      change (2 ^ 31) with 2147483648 in Hn.
      change (2 ^ 32) with 4294967296. lia.
Qed.

(** X2.  The frame packer in closed form.  For a frame count below
    [2 ^ 31], [pack_frames] replaces the first [4 * frameCount]
    bytes of the destination by the little-endian bytes of the first
    [2 * frameCount] samples and leaves the bytes after them as they
    were; it is undefined exactly when the samples or the
    destination are shorter than that, and it never runs forever. *)
Theorem pack_frames_closed_form (s : list Z) (frameCount : Z)
    (mem : list Z) :
  0 <= frameCount < 2 ^ 31 ->
  pack_frames s frameCount mem
  = if in_bounds s 0 (2 * frameCount) && in_bounds mem 0 (4 * frameCount)
    then Done (tt, packed (firstn (Z.to_nat (2 * frameCount)) s)
                   ++ skipn (Z.to_nat (4 * frameCount)) mem)
    else Undefined.
Proof. exact (pack_frames_eq s frameCount mem). Qed.

Lemma pack_frames_closed_form_witness :
  0 <= 2 < 2 ^ 31
  /\ pack_frames [100; -100; 258; -2] 2 [9; 9; 9; 9; 9; 9; 9; 9; 9; 9]
     = Done (tt, [100; 0; 156; 255; 2; 1; 254; 255; 9; 9])
  /\ pack_frames [100; -100; 258] 2 [9; 9; 9; 9; 9; 9; 9; 9; 9; 9]
     = Undefined.
Proof.
  split; [lia|]. split.
  - rewrite (pack_frames_closed_form [100; -100; 258; -2] 2
               [9; 9; 9; 9; 9; 9; 9; 9; 9; 9]) by lia.
    reflexivity.
  - reflexivity.
Defined.

Lemma slice_packed (l rest : list Z) :
  forall j : nat,
    (j < length l)%nat ->
    firstn 2 (skipn (2 * j) (packed l ++ rest)) = pack_int16le (nth j l 0).
Proof.
  induction l as [|c l IH]; intros j Hj; cbn [length] in Hj; [lia|].
  destruct j as [|j].
  - reflexivity.
  - replace (2 * S j)%nat with (S (S (2 * j))) by lia.
    unfold packed. cbn [flat_map pack_int16le app skipn nth].
    apply IH. lia.
Qed.

(** X3.  What the packer wrote reads back as the samples.  After
    [pack_frames], frame [k] of the destination is the pair of
    samples [2 * k] and [2 * k + 1], each reduced to 16 bits; for
    samples that are 16-bit values already it is the pair itself. *)
Theorem pack_frames_round_trip (s : list Z) (frameCount : Z)
    (mem mem' : list Z) (k : Z) :
  0 <= frameCount < 2 ^ 31 ->
  pack_frames s frameCount mem = Done (tt, mem') ->
  0 <= k < frameCount ->
  frame_at k mem'
  = (i16 (nth (Z.to_nat (2 * k)) s 0), i16 (nth (Z.to_nat (2 * k + 1)) s 0))
  /\ (Forall (fun v => - 2 ^ 15 <= v < 2 ^ 15) s ->
      frame_at k mem'
      = (nth (Z.to_nat (2 * k)) s 0, nth (Z.to_nat (2 * k + 1)) s 0)).
Proof.
  intros Hn Hrun Hk.
  rewrite pack_frames_eq in Hrun by exact Hn.
  destruct (in_bounds s 0 (2 * frameCount) && in_bounds mem 0 (4 * frameCount))
    eqn:Hin; [|discriminate Hrun].
  apply andb_prop in Hin. destruct Hin as [Hs Hmem].
  apply in_bounds_true in Hs.
  assert (Hmem' : mem' = packed (firstn (Z.to_nat (2 * frameCount)) s)
                          ++ skipn (Z.to_nat (4 * frameCount)) mem)
    by congruence.
  clear Hrun. subst mem'.
  assert (Hframe :
            frame_at k
              (packed (firstn (Z.to_nat (2 * frameCount)) s)
               ++ skipn (Z.to_nat (4 * frameCount)) mem)
            = (i16 (nth (Z.to_nat (2 * k)) s 0),
               i16 (nth (Z.to_nat (2 * k + 1)) s 0))).
  { unfold frame_at, slice.
    replace (Z.to_nat (4 * k)) with (2 * Z.to_nat (2 * k))%nat by lia.
    replace (Z.to_nat (4 * k + 2)) with (2 * Z.to_nat (2 * k + 1))%nat by lia.
    change (Z.to_nat 2) with 2%nat.
    rewrite !slice_packed by (rewrite length_firstn; lia).
    rewrite !unpack_pack_int16le.
    rewrite !nth_firstn.
    replace (Z.to_nat (2 * k) <? Z.to_nat (2 * frameCount))%nat with true
      by (symmetry; apply Nat.ltb_lt; lia).
    replace (Z.to_nat (2 * k + 1) <? Z.to_nat (2 * frameCount))%nat with true
      by (symmetry; apply Nat.ltb_lt; lia).
    reflexivity. }
  split; [exact Hframe|].
  intros Hrange. rewrite Hframe.
  assert (Hi16 : forall j : nat, i16 (nth j s 0) = nth j s 0).
  { intros j. destruct (Nat.lt_ge_cases j (length s)) as [Hj | Hj].
    - rewrite Forall_forall in Hrange.
      specialize (Hrange (nth j s 0) (nth_In s 0 Hj)).
      unfold i16. change (2 ^ 15) with 32768 in *. change (2 ^ 16) with 65536.
      rewrite Z.mod_small by lia. lia.
    - rewrite nth_overflow by exact Hj. reflexivity. }
  rewrite !Hi16. reflexivity.
Qed.

Lemma pack_frames_round_trip_witness :
  0 <= 2 < 2 ^ 31
  /\ 0 <= 1 < 2
  /\ Forall (fun v => - 2 ^ 15 <= v < 2 ^ 15) [100; -100; 258; -2]
  /\ frame_at 1 [100; 0; 156; 255; 2; 1; 254; 255; 9; 9] = (258, -2).
Proof.
  split; [lia|]. split; [lia|].
  assert (Hrange : Forall (fun v => - 2 ^ 15 <= v < 2 ^ 15)
                     [100; -100; 258; -2])
    by (repeat constructor; lia).
  split; [exact Hrange|].
  apply (pack_frames_round_trip [100; -100; 258; -2] 2
           [9; 9; 9; 9; 9; 9; 9; 9; 9; 9]
           [100; 0; 156; 255; 2; 1; 254; 255; 9; 9] 1
           ltac:(lia) eq_refl ltac:(lia)).
  exact Hrange.
Defined.

(** ** The writers

    The bytes that the writers deliver, also to a device that stops
    accepting them, for the statements on the rendered file; and the
    layout of the header. *)

Lemma write_fields_any_device (fields : list (list Z)) :
  forall (w : list Z) (r : Z),
    0 <= r ->
    write_fields fields {| written := w; room := r |}
    = Done (if Z.of_nat (length (concat fields)) <=? r then 1 else 0,
            {| written := w ++ firstn (Z.to_nat r) (concat fields);
               room := r - Z.min r (Z.of_nat (length (concat fields))) |}).
Proof.
  induction fields as [|p rest IH]; intros w r Hr; cbn [write_fields concat].
  - cbn [length Z.of_nat]. unfold ret.
    replace (0 <=? r) with true by (symmetry; apply Z.leb_le; lia).
    rewrite firstn_nil, app_nil_r. do 2 f_equal. f_equal. lia.
  - rewrite length_app, firstn_app.
    destruct (Z_lt_le_dec r (Z.of_nat (length p))) as [Hshort | Hall].
    + rewrite or_return_0_short by lia.
      replace (Z.of_nat (length p + length (concat rest)) <=? r) with false
        by (symmetry; apply Z.leb_gt; lia).
      replace (Z.to_nat r - length p)%nat with 0%nat by lia.
      cbn [firstn]. rewrite app_nil_r. do 2 f_equal. f_equal. lia.
    + rewrite or_return_0_fwrite by lia.
      rewrite IH by lia.
      rewrite (firstn_all2 p) by lia. rewrite <- app_assoc.
      replace (Z.to_nat (r - Z.of_nat (length p)))
        with (Z.to_nat r - length p)%nat by lia.
      f_equal. f_equal.
      * destruct (Z.leb_spec (Z.of_nat (length (concat rest)))
                    (r - Z.of_nat (length p)));
          destruct (Z.leb_spec (Z.of_nat (length p + length (concat rest))) r);
          try reflexivity; lia.
      * f_equal. lia.
Qed.

Lemma write_wav_header_device (totalFrames : Z) (id3 : str_buffer)
    (f : FILE) :
  0 <= room f ->
  let dataSize := (totalFrames * 2 * 2) mod 2 ^ 32 in
  let id3Size := if 10 <? len id3 then len id3 + 8 else 0 in
  write_wav_header totalFrames id3 f
  = Done (if 44 <=? room f then 1 else 0,
          {| written :=
               written f
               ++ firstn (Z.to_nat (room f))
                    (wav_header ((dataSize + 44 - 8 + id3Size) mod 2 ^ 32)
                       dataSize);
             room := room f - Z.min (room f) 44 |}).
Proof.
  intros Hr dataSize id3Size. destruct f as [w r]. cbn [room written] in *.
  change (write_wav_header totalFrames id3)
    with (write_fields
            [ cstr "RIFF";
              pack_uint32le
                (u32 (u32 (u32 (u32 (u64 (u64 (totalFrames * 2) * 2)) + 44)
                           - 8)
                      + (if 10 <? len id3 then u32 (len id3 + 8) else 0)));
              cstr "WAVE"; cstr "fmt "; pack_uint32le 16; pack_uint16le 1;
              pack_uint16le 2; pack_uint32le 32000; pack_uint32le 128000;
              pack_uint16le 4; pack_uint16le 16; cstr "data";
              pack_uint32le (u32 (u64 (u64 (totalFrames * 2) * 2))) ]).
  rewrite write_fields_any_device by exact Hr.
  rewrite wrap_riff, wrap_frames.
  reflexivity.
Qed.

Lemma write_frames_device (d : list Z) (frameCount : Z) (f : FILE) :
  0 <= frameCount ->
  4 * frameCount <= Z.of_nat (length d) ->
  0 <= room f ->
  write_frames d frameCount f
  = Done (if 4 * frameCount <=? room f then 1 else 0,
          {| written :=
               written f
               ++ firstn (Z.to_nat (Z.min (4 * frameCount) (room f))) d;
             room := room f - Z.min (4 * frameCount) (room f) |}).
Proof.
  intros Hn Hd Hr. destruct f as [w r]. cbn [room written] in *.
  unfold write_frames, bind, fwrite, sizeof_int16_t, CHANNELS.
  change (2 * 2) with 4.
  rewrite load_all by lia. cbn [room written]. unfold ret.
  replace (Z.max 0 (Z.min (4 * frameCount) r))
    with (Z.min (4 * frameCount) r) by lia.
  rewrite firstn_firstn.
  replace (Nat.min (Z.to_nat (Z.min (4 * frameCount) r))
             (Z.to_nat (4 * frameCount)))
    with (Z.to_nat (Z.min (4 * frameCount) r)) by lia.
  f_equal. f_equal.
  destruct (Z.leb_spec (4 * frameCount) r) as [Hall | Hshort].
  - replace (Z.min (4 * frameCount) r) with (frameCount * 4) by lia.
    rewrite Z.div_mul by lia. rewrite Z.eqb_refl. reflexivity.
  - replace (Z.min (4 * frameCount) r) with r by lia.
    replace (r / 4 =? frameCount) with false; [reflexivity|].
    symmetry. apply Z.eqb_neq. Z.to_euclidean_division_equations. lia.
Qed.

Lemma wav_header_riff_header (riffSize dataSize : Z) :
  wav_header riffSize dataSize = riff_header riffSize dataSize.
Proof.
  unfold wav_header, riff_header.
  rewrite (pack_uint32le_le32 riffSize), (pack_uint32le_le32 dataSize).
  reflexivity.
Qed.

(** X4.  The header on a device with room for it.  [write_wav_header]
    writes the 44 bytes of the canonical header of 16-bit stereo PCM at
    32000 Hz, byte by byte: "RIFF", the size of the file less 8,
    "WAVE", "fmt " with a chunk of 16 bytes that holds format 1, 2
    channels, 32000 samples per second, 128000 bytes per second, 4
    bytes per frame and 16 bits per sample, then "data" and the size of
    the samples, every number in little-endian order; and it returns
    1. *)
Theorem write_wav_header_layout (totalFrames : Z) (id3 : str_buffer)
    (f : FILE) :
  44 <= room f ->
  write_wav_header totalFrames id3 f
  = Done (1, {| written :=
                  written f
                  ++ [82; 73; 70; 70] ++ le32 (riff_size totalFrames id3)
                  ++ [87; 65; 86; 69] ++ [102; 109; 116; 32]
                  ++ [16; 0; 0; 0] ++ [1; 0] ++ [2; 0]
                  ++ [0; 125; 0; 0] ++ [0; 244; 1; 0] ++ [4; 0] ++ [16; 0]
                  ++ [100; 97; 116; 97] ++ le32 (data_size totalFrames);
                room := room f - 44 |}).
Proof.
  intros Hroom.
  rewrite write_wav_header_device by lia. cbv zeta.
  replace (44 <=? room f) with true by (symmetry; apply Z.leb_le; lia).
  rewrite wav_header_riff_header.
  rewrite firstn_all2
    by (change (length (riff_header _ _)) with 44%nat; lia).
  replace (room f - Z.min (room f) 44) with (room f - 44) by lia.
  reflexivity.
Qed.

Lemma write_wav_header_layout_witness :
  write_wav_header 1000 long_tag {| written := [7]; room := 50 |}
  = Done (1, {| written :=
                  [7; 82; 73; 70; 70; 248; 16; 0; 0; 87; 65; 86; 69;
                   102; 109; 116; 32; 16; 0; 0; 0; 1; 0; 2; 0;
                   0; 125; 0; 0; 0; 244; 1; 0; 4; 0; 16; 0;
                   100; 97; 116; 97; 160; 15; 0; 0];
                room := 6 |}).
Proof.
  rewrite (write_wav_header_layout 1000 long_tag
             {| written := [7]; room := 50 |}) by (cbn; lia).
  reflexivity.
Defined.

(** ** The window of the fade *)

Lemma scale_Done (k : Z) (fade : double) (data data' : list Z) (u : unit) :
  scale k fade data = Done (u, data') ->
  0 <= k
  /\ length data' = length data
  /\ firstn (Z.to_nat k) data' = firstn (Z.to_nat k) data
  /\ skipn (Z.to_nat k + 1) data' = skipn (Z.to_nat k + 1) data.
Proof.
  unfold scale. intros Hrun.
  apply bind_Done in Hrun. destruct Hrun as (v & d1 & Hpeek & Hrun).
  unfold peek in Hpeek. apply lift_Done in Hpeek. destruct Hpeek as [_ ->].
  apply bind_Done in Hrun. destruct Hrun as (v' & d2 & Hconv & Hrun).
  apply lift_Done in Hconv. destruct Hconv as [_ ->].
  unfold poke, store in Hrun.
  destruct (in_bounds data k (Z.of_nat (length [v']))) eqn:Hin;
    [|discriminate Hrun].
  apply in_bounds_true in Hin. cbn [length] in Hin.
  assert (Hdata' : data' = firstn (Z.to_nat k) data ++ [v']
                           ++ skipn (Z.to_nat k + length [v']) data)
    by congruence.
  clear Hrun. subst data'. cbn [length].
  assert (Hk : length (firstn (Z.to_nat k) data) = Z.to_nat k)
    by (rewrite length_firstn; lia).
  split; [lia|]. split; [|split].
  - rewrite !length_app, Hk, length_skipn. cbn [length]. lia.
  - rewrite firstn_app, Hk, Nat.sub_diag, firstn_firstn, Nat.min_id.
    cbn [firstn]. apply app_nil_r.
  - rewrite skipn_app, Hk, skipn_all2 by lia.
    replace (Z.to_nat k + 1 - Z.to_nat k)%nat with 1%nat by lia.
    reflexivity.
Qed.

Lemma firstn_le_eq {A : Type} (n m : nat) (l1 l2 : list A) :
  (n <= m)%nat ->
  firstn m l1 = firstn m l2 ->
  firstn n l1 = firstn n l2.
Proof.
  intros Hn Heq.
  replace n with (Nat.min n m) by lia.
  rewrite <- !firstn_firstn, Heq. reflexivity.
Qed.

Lemma skipn_ge_eq {A : Type} (n m : nat) (l1 l2 : list A) :
  (n <= m)%nat ->
  skipn n l1 = skipn n l2 ->
  skipn m l1 = skipn m l2.
Proof.
  intros Hn Heq.
  replace m with ((m - n) + n)%nat by lia.
  rewrite <- !skipn_skipn, Heq. reflexivity.
Qed.

(** The loop writes the samples of the frames from [i] to
    [frameCount - 1] and no others. *)
Lemma fade_loop_untouched (fuel : nat) (framesFade frameCount f : Z) :
  forall (i : Z) (data data' : list Z) (u : unit),
    0 <= i ->
    frameCount <= 2 ^ 31 ->
    fade_loop fuel framesFade frameCount f i data = Done (u, data') ->
    length data' = length data
    /\ firstn (Z.to_nat (2 * i)) data' = firstn (Z.to_nat (2 * i)) data
    /\ skipn (Z.to_nat (2 * frameCount)) data'
       = skipn (Z.to_nat (2 * frameCount)) data.
Proof.
  induction fuel as [|fuel IH]; intros i data data' u Hi Hmax Hrun;
    cbn [fade_loop] in Hrun; destruct (i <? frameCount) eqn:Hlt;
    try discriminate Hrun;
    try (unfold ret in Hrun;
         assert (data' = data) by congruence; subst data';
         repeat split; reflexivity).
  apply Z.ltb_lt in Hlt. change (2 ^ 31) with 2147483648 in Hmax.
  rewrite (u32_small (i * 2)) in Hrun
    by (change (2 ^ 32) with 4294967296; lia).
  rewrite !u32_small in Hrun by (change (2 ^ 32) with 4294967296; lia).
  apply bind_Done in Hrun. destruct Hrun as (fade & d0 & Hfade & Hrun).
  apply lift_Done in Hfade. destruct Hfade as [_ ->].
  apply bind_Done in Hrun. destruct Hrun as (u1 & d1 & H1 & Hrun).
  apply scale_Done in H1. destruct H1 as (_ & L1 & F1 & S1).
  apply bind_Done in Hrun. destruct Hrun as (u2 & d2 & H2 & Hrun).
  apply scale_Done in H2. destruct H2 as (_ & L2 & F2 & S2).
  apply IH in Hrun; [|lia|change (2 ^ 31) with 2147483648; lia].
  destruct Hrun as (L3 & F3 & S3).
  split; [congruence|]. split.
  - apply (firstn_le_eq (Z.to_nat (2 * i))) in F3; [|lia].
    apply (firstn_le_eq (Z.to_nat (2 * i))) in F2; [|lia].
    replace (Z.to_nat (i * 2 + 0)) with (Z.to_nat (2 * i)) in F1 by lia.
    congruence.
  - apply (skipn_ge_eq _ (Z.to_nat (2 * frameCount))) in S2; [|lia].
    apply (skipn_ge_eq _ (Z.to_nat (2 * frameCount))) in S1; [|lia].
    congruence.
Qed.

(** X7.  The fade writes inside its window only.  A call of
    [fade_frames] that ends keeps the size of the sample buffer,
    leaves the samples of the frames before
    [framesRem - framesFade] as they were, and leaves everything
    after the [frameCount] frames of the chunk as it was. *)
Theorem fade_frames_untouched (framesRem framesFade frameCount : Z)
    (data data' : list Z) :
  0 <= framesFade ->
  0 <= framesRem < 2 ^ 32 ->
  0 <= frameCount <= 2 ^ 31 ->
  fade_frames framesRem framesFade frameCount data = Done (tt, data') ->
  length data' = length data
  /\ firstn (Z.to_nat (2 * (framesRem - framesFade))) data'
     = firstn (Z.to_nat (2 * (framesRem - framesFade))) data
  /\ skipn (Z.to_nat (2 * frameCount)) data'
     = skipn (Z.to_nat (2 * frameCount)) data.
Proof.
  intros Hfade Hrem Hcount Hrun. unfold fade_frames in Hrun.
  destruct (framesFade <? u32 (framesRem - frameCount));
    [unfold ret in Hrun; assert (data' = data) by congruence; subst data';
     repeat split; reflexivity|].
  unfold fade_window in Hrun.
  destruct (framesFade <? framesRem) eqn:Hlt.
  - apply Z.ltb_lt in Hlt.
    rewrite (u32_small (framesRem - framesFade)) in Hrun by lia.
    apply fade_loop_untouched in Hrun; [exact Hrun | lia | lia].
  - apply Z.ltb_ge in Hlt.
    apply fade_loop_untouched in Hrun; [|lia|lia].
    destruct Hrun as (L & _ & S). split; [exact L|]. split; [|exact S].
    replace (Z.to_nat (2 * (framesRem - framesFade))) with 0%nat by lia.
    reflexivity.
Qed.

Lemma fade_frames_untouched_witness :
  fade_frames 4 2 4 [100; -100; 100; -100; 100; -100; 100; -100; 7; 7]
  = Done (tt, [100; -100; 100; -100; 100; -100; 50; -50; 7; 7])
  /\ length [100; -100; 100; -100; 100; -100; 50; -50; 7; 7]
     = length [100; -100; 100; -100; 100; -100; 100; -100; 7; 7]
  /\ firstn (Z.to_nat (2 * (4 - 2)))
       [100; -100; 100; -100; 100; -100; 50; -50; 7; 7]
     = firstn (Z.to_nat (2 * (4 - 2)))
         [100; -100; 100; -100; 100; -100; 100; -100; 7; 7]
  /\ skipn (Z.to_nat (2 * 4)) [100; -100; 100; -100; 100; -100; 50; -50; 7; 7]
     = skipn (Z.to_nat (2 * 4))
         [100; -100; 100; -100; 100; -100; 100; -100; 7; 7].
Proof.
  split; [vm_compute; reflexivity|].
  apply (fade_frames_untouched 4 2 4
           [100; -100; 100; -100; 100; -100; 100; -100; 7; 7]
           [100; -100; 100; -100; 100; -100; 50; -50; 7; 7]);
    [lia | lia | lia | vm_compute; reflexivity].
Defined.

(** ** The rendered file *)

Lemma firstn_app_fill {A : Type} (n : nat) (l1 l2 : list A) (k : nat) :
  k = (n - length l1)%nat ->
  firstn n l1 ++ firstn k l2 = firstn n (l1 ++ l2).
Proof. intros ->. symmetry. apply firstn_app. Qed.

Lemma pack_frames_Done (s : list Z) (frameCount : Z) (mem mem' : list Z)
    (u : unit) :
  0 <= frameCount < 2 ^ 31 ->
  pack_frames s frameCount mem = Done (u, mem') ->
  mem' = packed (firstn (Z.to_nat (2 * frameCount)) s)
         ++ skipn (Z.to_nat (4 * frameCount)) mem
  /\ 2 * frameCount <= Z.of_nat (length s)
  /\ 4 * frameCount <= Z.of_nat (length mem).
Proof.
  intros Hn Hrun. rewrite pack_frames_eq in Hrun by exact Hn.
  destruct (in_bounds s 0 (2 * frameCount)) eqn:Hs;
    [|discriminate Hrun].
  destruct (in_bounds mem 0 (4 * frameCount)) eqn:Hm;
    [|discriminate Hrun].
  apply in_bounds_true in Hs. apply in_bounds_true in Hm.
  cbn [andb] in Hrun. split; [congruence | lia].
Qed.

Section RenderFile.

Variables SNES_SPC SPC_Filter : Type.
Variable spc_play : SNES_SPC -> Z -> list Z -> SNES_SPC * list Z.
Variable spc_filter_run : SPC_Filter -> list Z -> Z -> SPC_Filter * list Z.

Let job' : Type := job SNES_SPC SPC_Filter.

(** Every run of the loop that ends has delivered the packed samples
    that the decoder, the filter and the fade produce for [totalFrames]
    frames, as far as the device accepted them. *)
Lemma render_loop_written (fuel : nat) (fadeFrames : Z) :
  forall (totalFrames : Z) (j j' : job') (u : unit),
    0 <= totalFrames < 2 ^ 64 ->
    0 <= room (out j) ->
    render_loop spc_play spc_filter_run fuel totalFrames fadeFrames j
    = Done (u, j') ->
    exists samples : list Z,
      rendered spc_play spc_filter_run fuel totalFrames fadeFrames
        (spc j) (flt j) (buf j)
      = Done samples
      /\ Z.of_nat (length samples) = 2 * totalFrames
      /\ written (out j')
         = written (out j) ++ firstn (Z.to_nat (room (out j))) (packed samples)
      /\ room (out j') = room (out j) - Z.min (room (out j)) (4 * totalFrames).
Proof.
  induction fuel as [|fuel IH]; intros totalFrames j j' u Hrange Hroom;
    cbn [render_loop rendered]; destruct (totalFrames =? 0) eqn:Hzero;
    try discriminate;
    try (apply Z.eqb_eq in Hzero; subst totalFrames;
         intros Hrun; unfold ret in Hrun;
         assert (j' = j) by congruence; subst j';
         exists []; cbn [length packed flat_map];
         rewrite firstn_nil, app_nil_r; repeat split; lia).
  apply Z.eqb_neq in Hzero.
  set (fc := if totalFrames <? 4096 then totalFrames else 4096).
  assert (Hfc : 1 <= fc <= 4096 /\ fc <= totalFrames)
    by (subst fc; destruct (totalFrames <? 4096) eqn:Hlt;
        [apply Z.ltb_lt in Hlt | apply Z.ltb_ge in Hlt]; lia).
  intros Hrun.
  apply bind_Done in Hrun. destruct Hrun as (u1 & j1 & Hdec & Hrun).
  unfold decode in Hdec.
  destruct (spc_play (spc j) (fc * 2) (buf j)) as [spc' b1].
  destruct (spc_filter_run (flt j) b1 (fc * 2)) as [flt' b2].
  assert (Hj1 : j1 = {| spc := spc'; flt := flt'; buf := b2; pac := pac j;
                        out := out j; stderr := stderr j |})
    by congruence.
  clear Hdec.
  assert (Hout1 : out j1 = out j) by (subst j1; reflexivity).
  apply bind_Done in Hrun. destruct Hrun as (u2 & j2 & Hfade & Hrun).
  apply zoom_Done in Hfade. destruct Hfade as (b & Hfade & Hj2).
  assert (Hbuf1 : buf j1 = b2) by (subst j1; reflexivity).
  rewrite Hbuf1 in Hfade. rewrite Hfade.
  rewrite bind_get in Hrun.
  apply bind_Done in Hrun. destruct Hrun as (u3 & j3 & Hpack & Hrun).
  apply zoom_Done in Hpack. destruct Hpack as (p & Hpack & Hj3).
  rewrite bind_get in Hrun.
  apply bind_Done in Hrun. destruct Hrun as (u4 & j4 & Hwrite & Hrun).
  apply zoom_Done in Hwrite. destruct Hwrite as (f & Hwrite & Hj4).
  rewrite (u64_small (totalFrames - fc)) in Hrun by lia.
  apply pack_frames_Done in Hpack; [|change (2 ^ 31) with 2147483648; lia].
  destruct Hpack as (Hp & Hsrc & Hdst).
  assert (Hpac3 : pac j3 = p) by (subst j3; reflexivity).
  assert (Hout3 : out j3 = out j) by (subst j3 j2; exact Hout1).
  rewrite Hpac3, Hout3 in Hwrite.
  set (chunk := firstn (Z.to_nat (2 * fc)) (buf j2)) in *.
  assert (Hchunk : Z.of_nat (length chunk) = 2 * fc)
    by (subst chunk; rewrite length_firstn; lia).
  assert (Hplen : Z.of_nat (length p) = Z.of_nat (length (pac j2))).
  { rewrite Hp, length_app, length_packed, length_skipn. lia. }
  rewrite write_frames_device in Hwrite by lia.
  assert (Hf : f = {| written :=
                        written (out j)
                        ++ firstn (Z.to_nat (room (out j))) (packed chunk);
                      room := room (out j) - Z.min (4 * fc) (room (out j)) |}).
  { assert (Hcut : firstn (Z.to_nat (Z.min (4 * fc) (room (out j)))) p
                   = firstn (Z.to_nat (room (out j))) (packed chunk)).
    { rewrite Hp, firstn_app, length_packed.
      replace (Z.to_nat (Z.min (4 * fc) (room (out j))) - 2 * length chunk)%nat
        with 0%nat by lia.
      cbn [firstn]. rewrite app_nil_r.
      destruct (Z_lt_le_dec (room (out j)) (4 * fc)) as [Hshort | Hall].
      - f_equal. lia.
      - rewrite !firstn_all2 by (rewrite length_packed; lia). reflexivity. }
    rewrite Hcut in Hwrite. congruence. }
  apply IH in Hrun; [|lia|subst j4 f; cbn [out set_out room]; lia].
  destruct Hrun as (rest & Hstream & Hrest & Hwritten & Hleft).
  assert (Hout4 : out j4 = f) by (subst j4; reflexivity).
  rewrite Hout4, Hf in Hwritten, Hleft. cbn [written room] in Hwritten, Hleft.
  assert (Hstate : spc j4 = spc' /\ flt j4 = flt' /\ buf j4 = b)
    by (subst j4 j3 j2 j1; repeat split; reflexivity).
  destruct Hstate as (Hspc4 & Hflt4 & Hbuf4).
  rewrite Hspc4, Hflt4, Hbuf4 in Hstream. rewrite Hstream.
  assert (Hbuf2 : buf j2 = b) by (subst j2; reflexivity).
  exists (chunk ++ rest). split; [subst chunk; rewrite Hbuf2; reflexivity|].
  split; [rewrite length_app; lia|]. split.
  - rewrite Hwritten, packed_app, <- app_assoc. f_equal.
    apply firstn_app_fill. rewrite length_packed. lia.
  - clearbody fc. clear - Hleft Hfc Hroom. lia.
Qed.

(** Every run of the rendering part of [main] that ends has delivered
    the header, the packed samples and the footer, as far as the device
    accepted them, and ends with status 0. *)
Lemma main_render_prefix (fuel : nat) (totalFrames fadeFrames : Z)
    (id3 : str_buffer) (j j' : job') (r : Z) :
  0 <= totalFrames < 2 ^ 64 ->
  0 <= len id3 <= Z.of_nat (length (x id3)) ->
  0 <= room (out j) ->
  main_render spc_play spc_filter_run fuel totalFrames fadeFrames id3 j
  = Done (r, j') ->
  exists samples : list Z,
    rendered spc_play spc_filter_run fuel totalFrames fadeFrames
      (spc j) (flt j) (buf j)
    = Done samples
    /\ Z.of_nat (length samples) = 2 * totalFrames
    /\ written (out j')
       = written (out j)
         ++ firstn (Z.to_nat (room (out j)))
              (riff_header (riff_size totalFrames id3) (data_size totalFrames)
               ++ packed samples ++ wav_footer id3)
    /\ r = 0.
Proof.
  intros Hrange Hlen Hroom Hrun. unfold main_render in Hrun.
  apply bind_Done in Hrun. destruct Hrun as (r1 & j1 & Hhdr & Hrun).
  apply zoom_Done in Hhdr. destruct Hhdr as (f1 & Hhdr & Hj1).
  rewrite write_wav_header_device, wav_header_riff_header in Hhdr
    by exact Hroom.
  apply bind_Done in Hrun. destruct Hrun as (u2 & j2 & Hloop & Hrun).
  assert (Hf1 : out j1 = f1) by (subst j1; reflexivity).
  assert (Hf1' : f1 = {| written :=
                           written (out j)
                           ++ firstn (Z.to_nat (room (out j)))
                                (riff_header (riff_size totalFrames id3)
                                   (data_size totalFrames));
                         room := room (out j) - Z.min (room (out j)) 44 |})
    by (unfold riff_size, data_size; congruence).
  assert (Hstate1 : spc j1 = spc j /\ flt j1 = flt j /\ buf j1 = buf j)
    by (subst j1; repeat split; reflexivity).
  destruct Hstate1 as (Hspc1 & Hflt1 & Hbuf1).
  apply render_loop_written in Hloop; [|exact Hrange|rewrite Hf1, Hf1'; cbn [room]; lia].
  destruct Hloop as (samples & Hstream & Hsamples & Hwritten2 & Hroom2).
  rewrite Hspc1, Hflt1, Hbuf1 in Hstream.
  rewrite Hf1, Hf1' in Hwritten2, Hroom2. cbn [written room] in *.
  apply bind_Done in Hrun. destruct Hrun as (r3 & j3 & Hftr & Hrun).
  apply zoom_Done in Hftr. destruct Hftr as (f3 & Hftr & Hj3).
  unfold ret in Hrun.
  assert (Hr : r = 0) by congruence.
  assert (Hj : j' = j3) by congruence.
  exists samples. split; [exact Hstream|].
  split; [exact Hsamples|]. split; [|exact Hr].
  assert (Hout' : out j' = f3) by (subst j' j3; reflexivity).
  rewrite Hout'.
  assert (Hroom2' : 0 <= room (out j2)) by (clear - Hroom2 Hroom; lia).
  set (hdr := riff_header (riff_size totalFrames id3) (data_size totalFrames))
    in *.
  assert (Hhdrlen : length hdr = 44%nat) by reflexivity.
  assert (Hf3 : written f3
                = written (out j2)
                  ++ firstn (Z.to_nat (room (out j2))) (wav_footer id3)).
  { unfold wav_footer. destruct (Z.eq_dec (len id3) 10) as [H10 | H10].
    - unfold write_wav_footer in Hftr. rewrite H10 in *.
      cbn [Z.eqb Pos.eqb] in *. unfold ret in Hftr.
      rewrite firstn_nil, app_nil_r. congruence.
    - rewrite write_wav_footer_any_device, pack_uint32le_le32 in Hftr
        by (try exact Hroom2'; clear - H10 Hlen; lia).
      replace (len id3 =? 10) with false
        by (symmetry; apply Z.eqb_neq; exact H10).
      inversion Hftr. reflexivity. }
  rewrite Hf3, Hwritten2, Hroom2, <- !app_assoc. f_equal.
  rewrite <- (firstn_app_fill (Z.to_nat (room (out j))) hdr _
                (Z.to_nat (room (out j) - Z.min (room (out j)) 44)))
    by (rewrite Hhdrlen; lia).
  f_equal.
  apply firstn_app_fill. rewrite length_packed.
  clear - Hsamples Hroom. lia.
Qed.

(** Without a fade, the samples are those of the decoder and the
    filter. *)
Lemma rendered_without_fade (fuel : nat) :
  forall (totalFrames : Z) (st : SNES_SPC) (ft : SPC_Filter) (b : list Z),
    0 <= totalFrames < 2 ^ 64 ->
    totalFrames <= 4096 * Z.of_nat fuel ->
    rendered spc_play spc_filter_run fuel totalFrames 0 st ft b
    = Done (decoded spc_play spc_filter_run fuel totalFrames st ft b).
Proof.
  induction fuel as [|fuel IH]; intros totalFrames st ft b Hrange Hfuel;
    cbn [rendered decoded]; destruct (totalFrames =? 0) eqn:Hzero;
    try reflexivity;
    apply Z.eqb_neq in Hzero; [lia|].
  set (fc := if totalFrames <? 4096 then totalFrames else 4096).
  assert (Hfc : 1 <= fc <= 4096 /\ fc <= totalFrames
                /\ totalFrames - fc <= 4096 * Z.of_nat fuel)
    by (subst fc; destruct (totalFrames <? 4096) eqn:Hlt;
        [apply Z.ltb_lt in Hlt | apply Z.ltb_ge in Hlt]; lia).
  clearbody fc.
  destruct (spc_play st (fc * 2) b) as [st' b1].
  destruct (spc_filter_run ft b1 (fc * 2)) as [ft' b2].
  change (u32 0) with 0.
  rewrite fade_frames_no_window_any
    by (try apply u32_range; change (2 ^ 32) with 4294967296; lia).
  rewrite IH by lia. reflexivity.
Qed.

End RenderFile.

Section RenderWithoutFade.

Variables SNES_SPC SPC_Filter : Type.
Variable spc_play : SNES_SPC -> Z -> list Z -> SNES_SPC * list Z.
Variable spc_filter_run : SPC_Filter -> list Z -> Z -> SPC_Filter * list Z.

(** The collaborators work in place: they keep the size of the sample
    buffer. *)
Hypothesis play_length :
  forall (st : SNES_SPC) (n : Z) (b : list Z),
    0 <= n <= Z.of_nat (length b) ->
    length (snd (spc_play st n b)) = length b.

Hypothesis filter_length :
  forall (st : SPC_Filter) (b : list Z) (n : Z),
    0 <= n <= Z.of_nat (length b) ->
    length (snd (spc_filter_run st b n)) = length b.

Let job' : Type := job SNES_SPC SPC_Filter.

(** Without a fade, the loop ends for every frame count. *)
Lemma render_loop_without_fade (fuel : nat) :
  forall (totalFrames : Z) (j : job'),
    0 <= totalFrames < 2 ^ 64 ->
    totalFrames <= 4096 * Z.of_nat fuel ->
    2 * 4096 <= Z.of_nat (length (buf j)) ->
    4 * 4096 <= Z.of_nat (length (pac j)) ->
    0 <= room (out j) ->
    exists j' : job',
      render_loop spc_play spc_filter_run fuel totalFrames 0 j
      = Done (tt, j').
Proof.
  induction fuel as [|fuel IH]; intros totalFrames j Hrange Hfuel Hbuf Hpac Hroom;
    cbn [render_loop]; destruct (totalFrames =? 0) eqn:Hzero;
    try (exists j; reflexivity);
    apply Z.eqb_neq in Hzero; [lia|].
  set (fc := if totalFrames <? 4096 then totalFrames else 4096).
  assert (Hfc : 1 <= fc <= 4096 /\ fc <= totalFrames
                /\ totalFrames - fc <= 4096 * Z.of_nat fuel)
    by (subst fc; destruct (totalFrames <? 4096) eqn:Hlt;
        [apply Z.ltb_lt in Hlt | apply Z.ltb_ge in Hlt]; lia).
  clearbody fc.
  unfold bind at 1. unfold decode.
  pose proof (play_length (spc j) (fc * 2) (buf j) ltac:(lia)) as Hplay.
  destruct (spc_play (spc j) (fc * 2) (buf j)) as [spc' b1].
  cbn [snd] in Hplay.
  pose proof (filter_length (flt j) b1 (fc * 2) ltac:(lia)) as Hfilter.
  destruct (spc_filter_run (flt j) b1 (fc * 2)) as [flt' b2].
  cbn [snd] in Hfilter.
  unfold bind at 1. unfold zoom at 1. cbn [buf].
  change (u32 0) with 0.
  rewrite fade_frames_no_window_any
    by (try apply u32_range; change (2 ^ 32) with 4294967296; lia).
  rewrite bind_get. unfold bind at 1. unfold zoom at 1.
  cbn [set_buf set_pac set_out spc flt buf pac out stderr].
  rewrite pack_frames_done
    by (try (change (2 ^ 31) with 2147483648); lia).
  rewrite bind_get. unfold bind at 1. unfold zoom at 1.
  cbn [set_buf set_pac set_out spc flt buf pac out stderr].
  rewrite write_frames_device
    by (try rewrite length_app, length_packed, length_firstn, length_skipn;
        lia).
  cbn [set_buf set_pac set_out spc flt buf pac out stderr].
  rewrite (u64_small (totalFrames - fc)) by lia.
  apply IH; cbn [set_buf set_pac set_out spc flt buf pac out stderr room];
    try lia.
  rewrite length_app, length_packed, length_firstn, length_skipn. lia.
Qed.


End RenderWithoutFade.

(** X9.  Whatever the decoder, the filter, the fade and the device do,
    a run of the rendering part of [main] that ends has delivered a
    prefix of the file it set out to write, cut where the device
    stopped accepting bytes: the header, then the samples, then the
    footer.  The samples are those that the decoder left in the buffer,
    chunk by chunk, after the filter and the fade, [totalFrames] frames
    in all.  The run ends with status 0 also when bytes were lost. *)
Theorem main_render_written {SNES_SPC SPC_Filter : Type}
    (spc_play : SNES_SPC -> Z -> list Z -> SNES_SPC * list Z)
    (spc_filter_run : SPC_Filter -> list Z -> Z -> SPC_Filter * list Z)
    (fuel : nat) (totalFrames fadeFrames : Z) (id3 : str_buffer)
    (j j' : job SNES_SPC SPC_Filter) (r : Z) :
  0 <= totalFrames < 2 ^ 64 ->
  0 <= len id3 <= Z.of_nat (length (x id3)) ->
  0 <= room (out j) ->
  main_render spc_play spc_filter_run fuel totalFrames fadeFrames id3 j
  = Done (r, j') ->
  exists samples : list Z,
    rendered spc_play spc_filter_run fuel totalFrames fadeFrames
      (spc j) (flt j) (buf j)
    = Done samples
    /\ Z.of_nat (length samples) = 2 * totalFrames
    /\ written (out j')
       = written (out j)
         ++ firstn (Z.to_nat (room (out j)))
              (riff_header (riff_size totalFrames id3) (data_size totalFrames)
               ++ packed samples ++ wav_footer id3)
    /\ r = 0.
Proof.
  exact (main_render_prefix SNES_SPC SPC_Filter spc_play spc_filter_run fuel
           totalFrames fadeFrames id3 j j' r).
Qed.

Lemma main_render_written_witness :
  exists j' : job unit unit,
    main_render (constant_play 100 (-100)) identity_filter 1 2 2 marked_tag
      (booth 50)
    = Done (0, j')
    /\ rendered (constant_play 100 (-100)) identity_filter 1 2 2 tt tt
         [0; 0; 0; 0]
       = Done [100; -100; 50; -50]
    /\ written (out j')
       = [82; 73; 70; 70; 64; 0; 0; 0; 87; 65; 86; 69; 102; 109; 116; 32;
          16; 0; 0; 0; 1; 0; 2; 0; 0; 125; 0; 0; 0; 244; 1; 0; 4; 0; 16; 0;
          100; 97; 116; 97; 8; 0; 0; 0]
         ++ [100; 0; 156; 255; 50; 0].
Proof.
  destruct (main_render (constant_play 100 (-100)) identity_filter 1 2 2
              marked_tag (booth 50)) as [[r j'] | |] eqn:Hrun;
    [|vm_compute in Hrun; discriminate Hrun ..].
  destruct (main_render_written (constant_play 100 (-100)) identity_filter
              1 2 2 marked_tag (booth 50) j' r)
    as (samples & Hstream & _ & Hw & ->);
    [lia | cbn; lia | cbn; lia | exact Hrun |].
  exists j'. split; [reflexivity|].
  assert (Hsamples : samples = [100; -100; 50; -50])
    by (vm_compute in Hstream; congruence).
  subst samples. split; [exact Hstream|].
  rewrite Hw. vm_compute. reflexivity.
Defined.

Lemma length_concat_pairs (l r : Z) (n : nat) :
  length (concat (repeat [l; r] n)) = (2 * n)%nat.
Proof.
  induction n as [|n IH]; [reflexivity|].
  cbn [repeat concat app length]. rewrite IH. lia.
Qed.

Lemma constant_play_length (l r : Z) (st : unit) (n : Z) (b : list Z) :
  0 <= n <= Z.of_nat (length b) ->
  length (snd (constant_play l r st n b)) = length b.
Proof.
  intros Hn. unfold constant_play. cbn [snd].
  rewrite length_app, length_firstn, length_skipn, length_concat_pairs. lia.
Qed.

Lemma identity_filter_length (st : unit) (b : list Z) (n : Z) :
  0 <= n <= Z.of_nat (length b) ->
  length (snd (identity_filter st b n)) = length b.
Proof. reflexivity. Qed.


(** ** The tag builder and its memory *)

Section GrowMore.

Variable may_alloc : Z -> bool.

(** Whatever the allocator does, while the capacity stays below
    [2 ^ 32] the loop only adds room in steps of 512 bytes, and it stops
    at the first capacity that holds [need] bytes. *)
Lemma grow_steps (fuel : nat) (need : Z) :
  forall (s s' : str_buffer) (r : Z),
    tag_ok s ->
    need + 512 <= 2 ^ 32 ->
    grow may_alloc fuel need s = Done (r, s') ->
    exists k : Z,
      0 <= k
      /\ x s' = x s ++ repeat 0 (Z.to_nat (512 * k))
      /\ a s' = a s + 512 * k
      /\ len s' = len s
      /\ (k = 0 \/ a s' < need + 512)
      /\ (r = 0 /\ need <= a s' \/ r = -1 /\ a s' < need).
Proof.
  assert (Hstay : forall s : str_buffer, need <= a s ->
            exists k : Z,
              0 <= k
              /\ x s = x s ++ repeat 0 (Z.to_nat (512 * k))
              /\ a s = a s + 512 * k
              /\ len s = len s
              /\ (k = 0 \/ a s < need + 512)
              /\ (0 = 0 /\ need <= a s \/ 0 = -1 /\ a s < need)).
  { intros s Hfit. exists 0. cbn [Z.mul Z.to_nat repeat]. rewrite app_nil_r.
    repeat split; try lia. }
  induction fuel as [|fuel IH]; intros s s' r Hok Hmax Hrun;
    cbn [grow] in Hrun; destruct (a s <? need) eqn:Hneed;
    try discriminate Hrun;
    try (apply Z.ltb_ge in Hneed; inversion Hrun; subst;
         apply Hstay; exact Hneed).
  apply Z.ltb_lt in Hneed.
  destruct Hok as (Hlen & Hx & Hcap).
  rewrite (u32_small (a s + 512)) in Hrun by lia.
  unfold realloc in Hrun.
  destruct ((0 <? a s + 512) && may_alloc (a s + 512)).
  - rewrite firstn_all2 in Hrun by lia.
    replace (Z.to_nat (a s + 512) - length (x s))%nat with 512%nat in Hrun
      by lia.
    apply IH in Hrun;
      [|unfold tag_ok; cbn [x a len]; rewrite length_app, repeat_length; lia
       |exact Hmax].
    destruct Hrun as (k & Hk & Hx' & Ha' & Hlen' & Hmin & Hres).
    cbn [x a len] in *.
    exists (k + 1). repeat split; try lia.
    rewrite Hx', <- app_assoc, <- repeat_app. do 2 f_equal. lia.
  - inversion Hrun. subst. exists 0.
    cbn [Z.mul Z.to_nat repeat]. rewrite app_nil_r.
    repeat split; try lia.
Qed.

End GrowMore.

Section AddFrameMore.

Variable may_alloc : Z -> bool.
Variable body : M str_buffer Z.
Variable F : list Z.

Hypothesis body_eq :
  forall t : str_buffer,
    0 <= len t <= Z.of_nat (length (x t)) ->
    Z.of_nat (length (x t)) < 2 ^ 32 ->
    body t = (emit F ;; id3_update_len ;; ret 0) t.

(** Every outcome of an addition whose sizes stay below [2 ^ 32]. *)
Lemma add_frame_outcome (fuel : nat) (need : Z) (s s' : str_buffer) (r : Z) :
  tag_ok s ->
  need = len s + Z.of_nat (length F) ->
  need + 512 <= 2 ^ 32 ->
  (r0 <- grow may_alloc fuel need ;;
   if r0 =? -1 then ret (-1) else body) s = Done (r, s') ->
  exists k : Z,
    0 <= k
    /\ a s' = a s + 512 * k
    /\ (k = 0 \/ a s' < need + 512)
    /\ (r = 0 /\ need <= a s' /\ extended s F s'
        \/ r = -1 /\ a s' < need /\ len s' = len s
           /\ x s' = x s ++ repeat 0 (Z.to_nat (512 * k))).
Proof.
  intros Hok Hneed Hmax Hrun. unfold bind in Hrun.
  destruct (grow may_alloc fuel need s) as [[r0 s1] | |] eqn:Hgrow;
    try discriminate Hrun.
  apply grow_steps in Hgrow; [|exact Hok | exact Hmax].
  destruct Hgrow as (k & Hk & Hx1 & Ha1 & Hlen1 & Hmin & Hres).
  pose proof Hok as (Hlen & Hx & Hcap).
  destruct Hres as [[Hr0 Hfit] | [Hr0 Hfit]]; subst r0; cbn [Z.eqb] in Hrun.
  - assert (Hxlen : Z.of_nat (length (x s1)) = a s1).
    { rewrite Hx1, length_app, repeat_length. lia. }
    rewrite body_eq in Hrun by lia.
    rewrite emit_sealed in Hrun by lia.
    replace (in_bounds (x s1) (len s1) (Z.of_nat (length F))) with true
      in Hrun by (symmetry; apply in_bounds_true; lia).
    inversion Hrun. subst r s'. clear Hrun.
    exists k. cbn [sealed appended set_x a].
    split; [exact Hk|]. split; [exact Ha1|]. split; [exact Hmin|].
    left. split; [reflexivity|]. split; [exact Hfit|].
    apply sealed_appended_extended; try assumption; try lia.
    exists (Z.to_nat (512 * k)). repeat split; [exact Hx1 | lia | exact Hlen1].
  - inversion Hrun. subst r s'. clear Hrun.
    exists k. split; [exact Hk|]. split; [exact Ha1|]. split; [exact Hmin|].
    right. repeat split; assumption.
Qed.

(** A frame that fits the capacity is added without the allocator. *)
Lemma add_frame_fits (fuel : nat) (need : Z) (s : str_buffer) :
  tag_ok s ->
  need = len s + Z.of_nat (length F) ->
  need <= a s ->
  (r0 <- grow may_alloc fuel need ;;
   if r0 =? -1 then ret (-1) else body) s
  = Done (0, sealed (appended F s)).
Proof.
  intros (Hlen & Hx & Hcap) Hneed Hfit. unfold bind.
  replace (grow may_alloc fuel need s) with (Done (0, s)).
  - cbn [Z.eqb]. rewrite body_eq by lia. rewrite emit_sealed by lia.
    replace (in_bounds (x s) (len s) (Z.of_nat (length F))) with true
      by (symmetry; apply in_bounds_true; lia).
    reflexivity.
  - destruct fuel; cbn [grow];
      replace (a s <? need) with false by (symmetry; apply Z.ltb_ge; lia);
      reflexivity.
Qed.

End AddFrameMore.

(** The length of a frame is its ten header bytes and its payload. *)
Lemma length_frame_of (op : tag_op) :
  readable op = true ->
  Z.of_nat (length (frame_of op)) = 10 + payload_length op.
Proof.
  destruct op as [frame data n | data n | description data n];
    cbn [readable frame_of payload_length]; intros Hsrc.
  - rewrite length_text_frame by exact Hsrc. lia.
  - rewrite length_comment_frame by exact Hsrc. lia.
  - rewrite length_private_frame by exact Hsrc. lia.
Qed.

Lemma readable_payload (op : tag_op) :
  readable op = true -> 2 <= payload_length op.
Proof.
  destruct op as [frame data n | data n | description data n];
    cbn [readable payload_length]; intros Hsrc.
  - apply andb_prop in Hsrc. destruct Hsrc as [_ Hd].
    apply in_bounds_true in Hd. lia.
  - apply in_bounds_true in Hsrc. lia.
  - apply andb_prop in Hsrc. destruct Hsrc as [_ Hd].
    apply in_bounds_true in Hd. pose proof (strlen_le description). lia.
Qed.

(** The three functions as one allocation loop followed by a body. *)
Lemma run_op_eq (may_alloc : Z -> bool) (fuel : nat) (op : tag_op)
    (s : str_buffer) :
  tag_ok s ->
  readable op = true ->
  len s + 10 + payload_length op < 2 ^ 32 ->
  run_op may_alloc fuel op s
  = (r0 <- grow may_alloc fuel (len s + 10 + payload_length op) ;;
     if r0 =? -1 then ret (-1)
     else match op with
          | AddText frame data n => append_text frame data n
          | AddComment data n => append_comment data n
          | AddPrivate description data n =>
              append_private description data n
          end) s.
Proof.
  intros (Hlen & Hx & Hcap) Hsrc Hmax.
  pose proof (readable_payload op Hsrc) as Hpay.
  destruct op as [frame data n | data n | description data n];
    cbn [run_op readable payload_length] in *;
    [unfold id3_add_text | unfold id3_add_comment | unfold id3_add_private];
    rewrite bind_get.
  - apply andb_prop in Hsrc. destruct Hsrc as [_ Hd].
    apply in_bounds_true in Hd.
    rewrite (u64_small (1 + n)), (u64_small (1 + n + 1)), (u32_small (len s + 10)),
      u64_small by lia.
    replace (len s + 10 + (1 + n + 1)) with (len s + 10 + (n + 2)) by lia.
    reflexivity.
  - apply in_bounds_true in Hsrc.
    rewrite (u64_small (1 + 3 + n)), (u64_small (1 + 3 + n + 1)),
      (u64_small (1 + 3 + n + 1 + 1)), (u32_small (len s + 10)), u64_small
      by lia.
    replace (len s + 10 + (1 + 3 + n + 1 + 1)) with (len s + 10 + (n + 6))
      by lia.
    reflexivity.
  - apply andb_prop in Hsrc. destruct Hsrc as [_ Hd].
    apply in_bounds_true in Hd. pose proof (strlen_le description).
    rewrite (u64_small (1 + strlen description)),
      (u64_small (1 + strlen description + 1)),
      (u64_small (1 + strlen description + 1 + n)),
      (u64_small (1 + strlen description + 1 + n + 1)),
      (u32_small (len s + 10)), u64_small by lia.
    reflexivity.
Qed.

Lemma body_of_op (op : tag_op) (t : str_buffer) :
  readable op = true ->
  0 <= len t <= Z.of_nat (length (x t)) ->
  Z.of_nat (length (x t)) < 2 ^ 32 ->
  match op with
  | AddText frame data n => append_text frame data n
  | AddComment data n => append_comment data n
  | AddPrivate description data n => append_private description data n
  end t
  = (emit (frame_of op) ;; id3_update_len ;; ret 0) t.
Proof.
  intros Hsrc Hlen Hx.
  destruct op as [frame data n | data n | description data n];
    cbn [readable frame_of] in *.
  - rewrite append_text_eq, Hsrc by assumption. reflexivity.
  - rewrite append_comment_eq, Hsrc by assumption. reflexivity.
  - rewrite append_private_eq, Hsrc by assumption. reflexivity.
Qed.

(** Every outcome of [id3_add_text], [id3_add_comment] and
    [id3_add_private] on sizes below [2 ^ 32]. *)
Lemma run_op_outcome (may_alloc : Z -> bool) (fuel : nat) (op : tag_op)
    (s s' : str_buffer) (r : Z) :
  tag_ok s ->
  readable op = true ->
  len s + 10 + payload_length op + 512 <= 2 ^ 32 ->
  run_op may_alloc fuel op s = Done (r, s') ->
  exists k : Z,
    0 <= k
    /\ a s' = a s + 512 * k
    /\ (k = 0 \/ a s' < len s + 10 + payload_length op + 512)
    /\ (r = 0 /\ len s + 10 + payload_length op <= a s'
          /\ extended s (frame_of op) s'
        \/ r = -1 /\ a s' < len s + 10 + payload_length op /\ len s' = len s
           /\ x s' = x s ++ repeat 0 (Z.to_nat (512 * k))).
Proof.
  intros Hok Hsrc Hmax Hrun.
  rewrite run_op_eq in Hrun by (try assumption; lia).
  apply (add_frame_outcome may_alloc _ (frame_of op)) in Hrun;
    try assumption.
  - intros t Ht Hx. apply body_of_op; assumption.
  - rewrite length_frame_of by exact Hsrc. lia.
Qed.

Lemma run_op_fits (may_alloc : Z -> bool) (fuel : nat) (op : tag_op)
    (s : str_buffer) :
  tag_ok s ->
  readable op = true ->
  len s + 10 + payload_length op <= a s ->
  run_op may_alloc fuel op s = Done (0, sealed (appended (frame_of op) s)).
Proof.
  intros Hok Hsrc Hfit. pose proof Hok as (Hlen & Hx & Hcap).
  rewrite run_op_eq by (try assumption; lia).
  apply add_frame_fits; try assumption.
  - intros t Ht Hxt. apply body_of_op; assumption.
  - rewrite length_frame_of by exact Hsrc. lia.
Qed.

Lemma run_op_enough (may_alloc : Z -> bool) (fuel : nat) (op : tag_op)
    (s : str_buffer) :
  (forall n : Z, may_alloc n = true) ->
  tag_ok s ->
  readable op = true ->
  len s + 10 + payload_length op + 512 <= 2 ^ 32 ->
  len s + 10 + payload_length op - a s <= 512 * Z.of_nat fuel ->
  exists s' : str_buffer, run_op may_alloc fuel op s = Done (0, s').
Proof.
  intros Hgrant Hok Hsrc Hmax Hfuel.
  rewrite run_op_eq by (try assumption; lia).
  apply (add_frame_enough may_alloc _ (frame_of op) true); try assumption.
  - intros t Ht Hx. cbn iota. apply body_of_op; assumption.
  - reflexivity.
  - rewrite length_frame_of by exact Hsrc. lia.
Qed.

Lemma holds_len (s : str_buffer) (Fs : list Z) :
  holds s Fs -> len s = 10 + Z.of_nat (length Fs).
Proof.
  intros [(Hlen & Hx & Hcap) Hused].
  apply (f_equal (@length Z)) in Hused.
  unfold used in Hused. rewrite length_firstn in Hused.
  rewrite length_set_size in Hused
    by (rewrite length_app; cbn [preamble cstr length app]; lia).
  rewrite length_app in Hused. cbn [preamble cstr length app] in Hused. lia.
Qed.

Section MainTagsTotal.

Variable may_alloc : Z -> bool.
Variable fuel : nat.

(** One guarded addition of [main] whose frame fits the capacity. *)
Lemma attempt_fits (cond : bool) (op : tag_op) (k : M str_buffer (option Z))
    (s : str_buffer) (Fs : list Z) (B C : Z)
    (P : outcome (option Z * str_buffer) -> Prop) :
  holds s Fs ->
  a s = 4096 ->
  Z.of_nat (length Fs) <= B ->
  Z.of_nat (length (frame_of op)) <= C ->
  10 + B + C <= 4096 ->
  (cond = true -> readable op = true) ->
  (forall s1 : str_buffer,
     holds s1 (Fs ++ optional cond (frame_of op)) ->
     a s1 = 4096 ->
     Z.of_nat (length (Fs ++ optional cond (frame_of op))) <= B + C ->
     P (k s1)) ->
  P (attempt cond (run_op may_alloc fuel op) k s).
Proof.
  intros Hholds Ha HB HC Hroom Hsrc Hk.
  pose proof (holds_len s Fs Hholds) as Hlen.
  unfold attempt. destruct cond; cbn [optional] in *.
  - specialize (Hsrc eq_refl).
    pose proof (length_frame_of op Hsrc) as HF.
    unfold bind. rewrite run_op_fits by (try apply Hholds; try assumption; lia).
    cbn [Z.eqb]. apply Hk.
    + apply (holds_extended s); [exact Hholds|].
      destruct Hholds as [Hok _]. pose proof Hok as (Hl & Hx & Hcap).
      apply sealed_appended_extended;
        [exact Hok | apply grown_refl | lia | lia].
    + exact Ha.
    + rewrite length_app. lia.
  - apply Hk; [rewrite app_nil_r; exact Hholds | exact Ha |].
    rewrite app_nil_r. pose proof (Zle_0_nat (length (frame_of op))). lia.
Qed.

End MainTagsTotal.

Lemma strnlen_nat_length (s : list Z) (maxlen : nat) :
  (strnlen_nat s maxlen <= length s)%nat.
Proof.
  revert s. induction maxlen as [|n IH]; intros [|c s]; cbn [strnlen_nat length];
    try lia.
  destruct (c =? 0); [lia|]. specialize (IH s). lia.
Qed.

Lemma strnlen_in_bounds (s : list Z) (maxlen : Z) :
  in_bounds s 0 (strnlen s maxlen) = true.
Proof.
  apply in_bounds_true. unfold strnlen.
  pose proof (strnlen_nat_length s (Z.to_nat maxlen)). lia.
Qed.

Lemma strlen_in_bounds (s : list Z) : in_bounds s 0 (strlen s) = true.
Proof. apply in_bounds_true. pose proof (strlen_le s). lia. Qed.

Lemma text_frame_le_268 (frame data : list Z) :
  Z.of_nat (length (text_frame frame data (strnlen data 256))) <= 268.
Proof.
  pose proof (length_text_frame_le frame data (strnlen data 256)).
  pose proof (strnlen_le data 256). lia.
Qed.

(** X10.  The tag of [main] fits its first allocation.  Once the 4096
    bytes of the tag buffer are allocated, the tag part of [main]
    succeeds for every id666 record whose dumper field is at least
    as long as the game title read for its frame: no later
    allocation is asked for, the capacity stays 4096, and the tag is
    the preamble followed by the frames of the record. *)
Theorem main_tags_never_reallocates (may_alloc : Z -> bool) (fuel : nat)
    (embedId3 : bool) (id6 : id666) :
  may_alloc 4096 = true ->
  strnlen (game id6) 256 <= Z.of_nat (length (dumper id6)) ->
  exists s' : str_buffer,
    main_tags may_alloc fuel embedId3 id6 id3_buffer = Done (None, s')
    /\ a s' = 4096
    /\ Z.of_nat (length (x s')) = 4096
    /\ len s' = 10 + Z.of_nat (length (if embedId3 then tag_frames id6 else []))
    /\ used s'
       = set_size (preamble ++ (if embedId3 then tag_frames id6 else [])).
Proof.
  intros Hgrant Hdumper. unfold main_tags.
  assert (Hp : malloc may_alloc 4096 = Some (repeat 0 (Z.to_nat 4096))).
  { unfold malloc. rewrite Hgrant. reflexivity. }
  rewrite Hp. rewrite (main_tags_prologue may_alloc _ _ _ Hp).
  set (P := fun o : outcome (option Z * str_buffer) =>
              exists s' : str_buffer,
                o = Done (None, s')
                /\ a s' = 4096
                /\ Z.of_nat (length (x s')) = 4096
                /\ len s'
                   = 10 + Z.of_nat (length (if embedId3 then tag_frames id6
                                            else []))
                /\ used s'
                   = set_size (preamble
                               ++ (if embedId3 then tag_frames id6 else []))).
  assert (Hend : forall (s1 : str_buffer),
            holds s1 (if embedId3 then tag_frames id6 else []) ->
            a s1 = 4096 -> P (Done (None, s1))).
  { intros s1 Hholds Ha. exists s1.
    pose proof (holds_len _ _ Hholds) as Hlen.
    destruct Hholds as [(Hl & Hx & Hcap) Hused].
    repeat split; try assumption. lia. }
  change (P ((if embedId3 then
    attempt (negb (strnlen (song id6) 256 =? 0))
      (run_op may_alloc fuel
         (AddText (cstr "TIT2") (song id6) (strnlen (song id6) 256)))
    (attempt (negb (strnlen (game id6) 256 =? 0))
      (run_op may_alloc fuel
         (AddText (cstr "TALB") (game id6) (strnlen (game id6) 256)))
    (attempt (negb (strnlen (dumper id6) 256 =? 0))
      (run_op may_alloc fuel
         (AddPrivate (cstr "spc_dumper") (dumper id6)
            (strnlen (game id6) 256)))
    (attempt (negb (strnlen (comment id6) 256 =? 0))
      (run_op may_alloc fuel
         (AddComment (comment id6) (strnlen (comment id6) 256)))
    (attempt (negb (strnlen (artist id6) 256 =? 0))
      (run_op may_alloc fuel
         (AddText (cstr "TPE1") (artist id6) (strnlen (artist id6) 256)))
    (attempt (negb (strnlen (publisher id6) 256 =? 0))
      (run_op may_alloc fuel
         (AddText (cstr "TPUB") (publisher id6)
            (strnlen (publisher id6) 256)))
    (attempt (negb (year id6 =? -1))
      (run_op may_alloc fuel
         (AddText (cstr "TDRC") (yearTmp (year id6))
            (strlen (yearTmp (year id6)))))
    (ret None)))))))
    else ret None) empty_tag)).
  destruct embedId3; [|apply Hend; [exact holds_empty_tag | reflexivity]].
  apply (attempt_fits _ _ _ _ _ _ [] 0 268); cbn [frame_of readable];
    [exact holds_empty_tag | reflexivity | cbn [length]; lia
    | apply text_frame_le_268 | lia
    | intros _; rewrite strnlen_in_bounds; reflexivity |].
  intros s1 H1 A1 B1.
  eapply (attempt_fits _ _ _ _ _ _ _ _ 268); cbn [frame_of readable];
    [exact H1 | exact A1 | exact B1
    | apply text_frame_le_268 | lia
    | intros _; rewrite strnlen_in_bounds; reflexivity |].
  intros s2 H2 A2 B2.
  eapply (attempt_fits _ _ _ _ _ _ _ _ 279); cbn [frame_of readable];
    [exact H2 | exact A2 | exact B2 | | lia | |].
  { pose proof (length_private_frame_le (cstr "spc_dumper") (dumper id6)
                  (strnlen (game id6) 256)) as Hle.
    pose proof (strnlen_le (game id6) 256).
    change (Z.of_nat (length (cstr "spc_dumper"))) with 10 in Hle. lia. }
  { intros _. rewrite strlen_in_bounds. cbn [andb].
    apply in_bounds_true. pose proof (strnlen_le (game id6) 256). lia. }
  intros s3 H3 A3 B3.
  eapply (attempt_fits _ _ _ _ _ _ _ _ 272); cbn [frame_of readable];
    [exact H3 | exact A3 | exact B3 | | lia
    | intros _; apply strnlen_in_bounds |].
  { pose proof (length_comment_frame_le (comment id6)
                  (strnlen (comment id6) 256)).
    pose proof (strnlen_le (comment id6) 256). lia. }
  intros s4 H4 A4 B4.
  eapply (attempt_fits _ _ _ _ _ _ _ _ 268); cbn [frame_of readable];
    [exact H4 | exact A4 | exact B4
    | apply text_frame_le_268 | lia
    | intros _; rewrite strnlen_in_bounds; reflexivity |].
  intros s5 H5 A5 B5.
  eapply (attempt_fits _ _ _ _ _ _ _ _ 268); cbn [frame_of readable];
    [exact H5 | exact A5 | exact B5
    | apply text_frame_le_268 | lia
    | intros _; rewrite strnlen_in_bounds; reflexivity |].
  intros s6 H6 A6 B6.
  eapply (attempt_fits _ _ _ _ _ _ _ _ 17); cbn [frame_of readable];
    [exact H6 | exact A6 | exact B6 | | lia
    | intros _; rewrite (strlen_in_bounds (yearTmp (year id6)));
      reflexivity |].
  { pose proof (length_text_frame_le (cstr "TDRC") (yearTmp (year id6))
                  (strlen (yearTmp (year id6)))).
    pose proof (strlen_le (yearTmp (year id6))).
    pose proof (length_yearTmp (year id6)). lia. }
  intros s7 H7 A7 B7.
  apply Hend; [|exact A7].
  cbn [app] in H7. rewrite <- !app_assoc in H7. exact H7.
Qed.

Lemma main_tags_never_reallocates_witness :
  strnlen (game zelda) 256 <= Z.of_nat (length (dumper zelda))
  /\ exists s' : str_buffer,
       main_tags (fun n => n =? 4096) 0 true zelda id3_buffer
       = Done (None, s')
       /\ a s' = 4096
       /\ Z.of_nat (length (x s')) = 4096
       /\ len s' = 10 + Z.of_nat (length (tag_frames zelda))
       /\ used s' = set_size (preamble ++ tag_frames zelda).
Proof.
  split; [vm_compute; discriminate|].
  apply (main_tags_never_reallocates (fun n => n =? 4096) 0 true zelda);
    [reflexivity | vm_compute; discriminate].
Defined.

Lemma small_tag_ok : tag_ok small_tag.
Proof. unfold tag_ok. cbn. lia. Qed.

(** X11.  Frame layout.  Each successful call of [id3_add_text],
    [id3_add_comment] or [id3_add_private] appends exactly one
    frame to the used part of the tag, rewrites the size in the
    preamble and keeps the buffer well formed. *)
Theorem id3_add_frame_layout (may_alloc : Z -> bool) (fuel : nat)
    (op : tag_op) (s s' : str_buffer) :
  tag_ok s ->
  run_op may_alloc fuel op s = Done (0, s') ->
  tag_ok s'
  /\ len s' = len s + Z.of_nat (length (frame_of op))
  /\ used s' = set_size (used s ++ frame_of op).
Proof.
  intros Hok Hrun. apply run_op_inv in Hrun; [|exact Hok].
  destruct Hrun as (Hok' & Hlen & Hused & _). repeat split; try assumption;
    apply Hok'.
Qed.

Lemma id3_add_frame_layout_witness :
  tag_ok small_tag
  /\ exists s' : str_buffer,
       run_op (fun _ => false) 0 (AddText (cstr "TIT2") (cstr "Hello") 5)
         small_tag
       = Done (0, s')
       /\ used s'
          = cstr "ID3" ++ [4; 0; 0; 0; 0; 0; 17]
            ++ cstr "TIT2" ++ [0; 0; 0; 7] ++ [0; 0; 3] ++ cstr "Hello" ++ [0]
       /\ tag_ok s'
       /\ len s'
          = len small_tag
            + Z.of_nat (length (frame_of (AddText (cstr "TIT2")
                                            (cstr "Hello") 5)))
       /\ used s'
          = set_size (used small_tag
                      ++ frame_of (AddText (cstr "TIT2") (cstr "Hello") 5)).
Proof.
  split; [exact small_tag_ok|].
  eexists. split; [vm_compute; reflexivity|].
  split; [vm_compute; reflexivity|].
  apply (id3_add_frame_layout (fun _ => false) 0
           (AddText (cstr "TIT2") (cstr "Hello") 5) small_tag _ small_tag_ok).
  vm_compute. reflexivity.
Defined.

(** X12.  Capacity.  An addition grows the buffer in steps of 512 bytes
    and by no more steps than the frame needs: the capacity after
    the call is the capacity before plus a multiple of 512, the
    buffer has that size, and if it grew at all it is less than 512
    bytes above the need. *)
Theorem id3_add_capacity (may_alloc : Z -> bool) (fuel : nat) (op : tag_op)
    (s s' : str_buffer) (r : Z) :
  tag_ok s ->
  readable op = true ->
  len s + 10 + payload_length op + 512 <= 2 ^ 32 ->
  run_op may_alloc fuel op s = Done (r, s') ->
  exists k : Z,
    0 <= k
    /\ a s' = a s + 512 * k
    /\ Z.of_nat (length (x s')) = a s'
    /\ (k = 0 \/ a s' - 512 < len s + 10 + payload_length op)
    /\ (r = 0 -> len s + 10 + payload_length op <= a s').
Proof.
  intros Hok Hsrc Hmax Hrun.
  destruct (run_op_outcome _ _ _ _ _ _ Hok Hsrc Hmax Hrun)
    as (k & Hk & Ha & Hmin & Hres).
  exists k. split; [exact Hk|]. split; [exact Ha|].
  split; [|split; [lia|]].
  - destruct Hres as [(_ & _ & Hext) | (_ & _ & _ & Hx)].
    + destruct Hext as ((_ & Hx & _) & _). exact Hx.
    + destruct Hok as (_ & Hx0 & _).
      rewrite Hx, length_app, repeat_length. lia.
  - destruct Hres as [(_ & Hfit & _) | (Hr & _)]; [intros _; exact Hfit|].
    intros H0. lia.
Qed.

Lemma id3_add_capacity_witness :
  tag_ok small_tag
  /\ readable (AddComment (cstr "ripped in 1994") 14) = true
  /\ exists s' : str_buffer,
       run_op (fun _ => true) 1 (AddComment (cstr "ripped in 1994") 14)
         small_tag
       = Done (0, s')
       /\ a s' = 544
       /\ exists k : Z,
            0 <= k
            /\ a s' = a small_tag + 512 * k
            /\ Z.of_nat (length (x s')) = a s'
            /\ (k = 0
                \/ a s' - 512
                   < len small_tag + 10
                     + payload_length (AddComment (cstr "ripped in 1994") 14))
            /\ (0 = 0 ->
                len small_tag + 10
                + payload_length (AddComment (cstr "ripped in 1994") 14)
                <= a s').
Proof.
  split; [exact small_tag_ok|]. split; [reflexivity|].
  eexists. split; [vm_compute; reflexivity|].
  split; [reflexivity|].
  apply (id3_add_capacity (fun _ => true) 1
           (AddComment (cstr "ripped in 1994") 14) small_tag _ 0
           small_tag_ok eq_refl).
  - vm_compute. discriminate.
  - vm_compute. reflexivity.
Defined.

(** X13.  Failure keeps the tag.  The only failure of an addition is the
    result -1 of a refused allocation; the tag is then what it was,
    with the same length and the same used bytes, in a buffer that
    may have grown but is still too small for the frame. *)
Theorem id3_add_failure_keeps_tag (may_alloc : Z -> bool) (fuel : nat)
    (op : tag_op) (s s' : str_buffer) (r : Z) :
  tag_ok s ->
  readable op = true ->
  len s + 10 + payload_length op + 512 <= 2 ^ 32 ->
  run_op may_alloc fuel op s = Done (r, s') ->
  r <> 0 ->
  r = -1
  /\ tag_ok s'
  /\ len s' = len s
  /\ used s' = used s
  /\ a s' < len s + 10 + payload_length op.
Proof.
  intros Hok Hsrc Hmax Hrun Hr.
  destruct (run_op_outcome _ _ _ _ _ _ Hok Hsrc Hmax Hrun)
    as (k & Hk & Ha & Hmin & [(H0 & _) | (Hfail & Hsmall & Hlen & Hx)]);
    [contradiction|].
  pose proof Hok as (Hl & Hx0 & Hcap).
  assert (Hgrown : grown s s').
  { exists (Z.to_nat (512 * k)). repeat split; [exact Hx | lia | exact Hlen]. }
  destruct (grown_used s s' ltac:(lia) Hgrown) as (Hused & _ & Hxlen & _).
  split; [exact Hfail|]. split; [|repeat split; assumption].
  unfold tag_ok. lia.
Qed.

Lemma id3_add_failure_keeps_tag_witness :
  tag_ok small_tag
  /\ readable (AddComment (cstr "ripped in 1994") 14) = true
  /\ run_op (fun _ => false) 1 (AddComment (cstr "ripped in 1994") 14)
       small_tag
     = Done (-1, small_tag)
  /\ -1 = -1
  /\ tag_ok small_tag
  /\ len small_tag = len small_tag
  /\ used small_tag = used small_tag
  /\ a small_tag
     < len small_tag + 10
       + payload_length (AddComment (cstr "ripped in 1994") 14).
Proof.
  split; [exact small_tag_ok|]. split; [reflexivity|].
  split; [vm_compute; reflexivity|].
  apply (id3_add_failure_keeps_tag (fun _ => false) 1
           (AddComment (cstr "ripped in 1994") 14) small_tag small_tag (-1)
           small_tag_ok eq_refl).
  - vm_compute. discriminate.
  - vm_compute. reflexivity.
  - discriminate.
Defined.

(** X14.  A frame that fits needs no allocation.  When the frame fits
    the capacity, the addition succeeds with the same result for
    every allocator, and the buffer keeps its capacity and size. *)
Theorem id3_add_fits_without_allocation (op : tag_op) (s : str_buffer) :
  tag_ok s ->
  readable op = true ->
  len s + 10 + payload_length op <= a s ->
  exists s' : str_buffer,
    (forall (may_alloc : Z -> bool) (fuel : nat),
       run_op may_alloc fuel op s = Done (0, s'))
    /\ a s' = a s
    /\ length (x s') = length (x s).
Proof.
  intros Hok Hsrc Hfit.
  exists (sealed (appended (frame_of op) s)). split; [|split].
  - intros may_alloc fuel. apply run_op_fits; assumption.
  - reflexivity.
  - pose proof (length_frame_of op Hsrc) as HF.
    destruct Hok as (Hlen & Hx & Hcap).
    pose proof (sealed_appended_extended s s (frame_of op)
                  (conj Hlen (conj Hx Hcap)) (grown_refl s) Hcap
                  ltac:(lia)) as ((_ & Hx' & _) & _).
    cbn [sealed appended set_x a] in Hx'. apply Nat2Z.inj. lia.
Qed.

Lemma id3_add_fits_without_allocation_witness :
  tag_ok small_tag
  /\ readable (AddText (cstr "TIT2") (cstr "Hello") 5) = true
  /\ len small_tag + 10 + payload_length (AddText (cstr "TIT2") (cstr "Hello") 5)
     <= a small_tag
  /\ exists s' : str_buffer,
       (forall (may_alloc : Z -> bool) (fuel : nat),
          run_op may_alloc fuel (AddText (cstr "TIT2") (cstr "Hello") 5)
            small_tag
          = Done (0, s'))
       /\ a s' = a small_tag
       /\ length (x s') = length (x small_tag).
Proof.
  split; [exact small_tag_ok|]. split; [reflexivity|].
  split; [vm_compute; discriminate|].
  apply (id3_add_fits_without_allocation
           (AddText (cstr "TIT2") (cstr "Hello") 5) small_tag
           small_tag_ok eq_refl).
  vm_compute. discriminate.
Defined.

(** X15.  With memory to spare, every addition succeeds.  If the
    allocator never refuses, an addition to a well-formed tag
    returns 0 after at most one allocation for each 512 bytes that
    are missing, and the tag is longer by the ten header bytes and
    the payload of the frame. *)
Theorem id3_add_succeeds (may_alloc : Z -> bool) (fuel : nat) (op : tag_op)
    (s : str_buffer) :
  (forall n : Z, may_alloc n = true) ->
  tag_ok s ->
  readable op = true ->
  len s + 10 + payload_length op + 512 <= 2 ^ 32 ->
  len s + 10 + payload_length op - a s <= 512 * Z.of_nat fuel ->
  exists s' : str_buffer,
    run_op may_alloc fuel op s = Done (0, s')
    /\ len s' = len s + 10 + payload_length op
    /\ used s' = set_size (used s ++ frame_of op).
Proof.
  intros Hgrant Hok Hsrc Hmax Hfuel.
  destruct (run_op_enough may_alloc fuel op s Hgrant Hok Hsrc Hmax Hfuel)
    as (s' & Hrun).
  exists s'. split; [exact Hrun|].
  apply run_op_inv in Hrun; [|exact Hok].
  destruct Hrun as (_ & Hlen & Hused & _).
  rewrite length_frame_of in Hlen by exact Hsrc.
  split; [lia | exact Hused].
Qed.

Lemma id3_add_succeeds_witness :
  tag_ok small_tag
  /\ readable (AddPrivate (cstr "spc_dumper") (cstr "abc") 3) = true
  /\ exists s' : str_buffer,
       run_op (fun _ => true) 1 (AddPrivate (cstr "spc_dumper") (cstr "abc") 3)
         small_tag
       = Done (0, s')
       /\ len s'
          = len small_tag + 10
            + payload_length (AddPrivate (cstr "spc_dumper") (cstr "abc") 3)
       /\ used s'
          = set_size (used small_tag
                      ++ frame_of (AddPrivate (cstr "spc_dumper")
                                     (cstr "abc") 3)).
Proof.
  split; [exact small_tag_ok|]. split; [reflexivity|].
  apply (id3_add_succeeds (fun _ => true) 1
           (AddPrivate (cstr "spc_dumper") (cstr "abc") 3) small_tag
           (fun _ => eq_refl) small_tag_ok eq_refl).
  - vm_compute. discriminate.
  - vm_compute. discriminate.
Defined.

(** X16.  [id3_init] starts the tag over.  On a buffer of ten bytes or
    more it writes the preamble of an empty tag, with size 0, over
    the first ten bytes and sets the length to 10, whatever the
    buffer held and whatever its length was; the capacity and the
    bytes after the preamble stay.  On a shorter buffer it writes out
    of bounds. *)
Theorem id3_init_preamble (s : str_buffer) :
  id3_init s
  = if in_bounds (x s) 0 10
    then Done (tt, {| x := preamble ++ skipn 10 (x s); a := a s; len := 10 |})
    else Undefined.
Proof.
  destruct s as [mem cap used_len].
  do 10 (destruct mem as [|? mem]; [reflexivity|]).
  reflexivity.
Qed.

(** ** Numbers on the command line *)

Lemma scan_uint_loop_end (rest : list Z) (num : Z) :
  no_digit rest -> scan_uint_loop rest num = num.
Proof.
  destruct rest as [|c rest]; [reflexivity|]. cbn [no_digit scan_uint_loop].
  intros Hc. destruct (c =? 0); [reflexivity|].
  replace ((c <? 48) || (57 <? c)) with true; [reflexivity|].
  symmetry. apply orb_true_iff.
  destruct Hc; [left; apply Z.ltb_lt | right; apply Z.ltb_lt]; assumption.
Qed.

Lemma u32_step (num k : Z) :
  u32 (u32 (u32 num * 10) + k) = u32 (k + 10 * num).
Proof.
  unfold u32. change (2 ^ 32) with 4294967296.
  Z.to_euclidean_division_equations. lia.
Qed.

Lemma u32_value_acc (d : Decimal.uint) :
  forall a1 a2 : Z, u32 a1 = u32 a2 -> u32 (value_acc d a1) = u32 (value_acc d a2).
Proof.
  induction d; intros a1 a2 Ha; cbn [value_acc]; try exact Ha;
    apply IHd; unfold u32 in *; change (2 ^ 32) with 4294967296 in *;
    Z.to_euclidean_division_equations; lia.
Qed.

Lemma scan_uint_loop_digit (k : Z) (s : list Z) (num : Z) :
  0 <= k <= 9 ->
  scan_uint_loop ((48 + k) :: s) (u32 num)
  = scan_uint_loop s (u32 (k + 10 * num)).
Proof.
  intros Hk. cbn [scan_uint_loop].
  replace (48 + k =? 0) with false by (symmetry; apply Z.eqb_neq; lia).
  replace (48 + k <? 48) with false by (symmetry; apply Z.ltb_ge; lia).
  replace (57 <? 48 + k) with false by (symmetry; apply Z.ltb_ge; lia).
  cbn [orb]. rewrite u32_step. do 2 f_equal. lia.
Qed.

Lemma scan_uint_loop_digits (d : Decimal.uint) (rest : list Z) :
  no_digit rest ->
  forall num : Z,
    scan_uint_loop (digits d ++ rest) (u32 num) = u32 (value_acc d num).
Proof.
  intros Hrest. unfold digits.
  induction d; intros num; cbn [NilEmpty.string_of_uint cstr app value_acc];
    try (apply scan_uint_loop_end; exact Hrest).
  - rewrite (scan_uint_loop_digit 0) by lia. apply IHd.
  - rewrite (scan_uint_loop_digit 1) by lia. apply IHd.
  - rewrite (scan_uint_loop_digit 2) by lia. apply IHd.
  - rewrite (scan_uint_loop_digit 3) by lia. apply IHd.
  - rewrite (scan_uint_loop_digit 4) by lia. apply IHd.
  - rewrite (scan_uint_loop_digit 5) by lia. apply IHd.
  - rewrite (scan_uint_loop_digit 6) by lia. apply IHd.
  - rewrite (scan_uint_loop_digit 7) by lia. apply IHd.
  - rewrite (scan_uint_loop_digit 8) by lia. apply IHd.
  - rewrite (scan_uint_loop_digit 9) by lia. apply IHd.
Qed.

Lemma value_acc_pos (d : Decimal.uint) (acc : positive) :
  value_acc d (Z.pos acc) = Z.pos (Pos.of_uint_acc d acc).
Proof.
  revert acc. induction d; intros acc; cbn [value_acc Pos.of_uint_acc];
    try reflexivity; rewrite <- IHd; f_equal; lia.
Qed.

Lemma value_acc_0 (d : Decimal.uint) :
  value_acc d 0 = Z.of_N (N.of_uint d).
Proof.
  unfold N.of_uint.
  induction d; cbn [value_acc Pos.of_uint]; try reflexivity;
    try exact IHd; cbn [Z.mul Z.add Z.of_N]; apply value_acc_pos.
Qed.

Lemma scan_uint_digits (d : Decimal.uint) (rest : list Z) :
  no_digit rest ->
  scan_uint (digits d ++ rest) = Z.of_N (N.of_uint d) mod 2 ^ 32.
Proof.
  intros Hrest. unfold scan_uint.
  change 0 with (u32 0) at 1.
  rewrite scan_uint_loop_digits by exact Hrest.
  rewrite value_acc_0. reflexivity.
Qed.

Lemma decimal_digits (n : Z) :
  0 <= n -> decimal n = digits (N.to_uint (Z.to_N n)).
Proof.
  intros Hn. unfold decimal, digits.
  destruct n as [|p|p]; [reflexivity | | lia].
  cbn [Z.to_int Z.to_N N.to_uint NilZero.string_of_int].
  unfold NilZero.string_of_uint.
  pose proof (DecimalPos.Unsigned.to_uint_nonnil p) as Hnil.
  destruct (Pos.to_uint p); try reflexivity. contradiction.
Qed.

(** X17.  [scan_uint] reads a decimal number modulo [2 ^ 32].  On a run
    of digits followed by the end of the string or by any other
    character, the result is the number the digits denote, reduced
    modulo [2 ^ 32]; leading zeros do not matter; the text that
    [%d] prints for [n] reads back as [n mod 2 ^ 32]; and a string
    that does not start with a digit reads as 0. *)
Theorem scan_uint_decimal :
  (forall (d : Decimal.uint) (rest : list Z),
     no_digit rest ->
     scan_uint (digits d ++ rest) = Z.of_N (N.of_uint d) mod 2 ^ 32)
  /\ (forall (n : Z) (rest : list Z),
        0 <= n ->
        no_digit rest ->
        scan_uint (decimal n ++ rest) = n mod 2 ^ 32)
  /\ (forall rest : list Z, no_digit rest -> scan_uint rest = 0).
Proof.
  split; [exact scan_uint_digits|]. split.
  - intros n rest Hn Hrest.
    rewrite decimal_digits, scan_uint_digits by assumption.
    rewrite DecimalN.Unsigned.of_to, Z2N.id by exact Hn. reflexivity.
  - intros rest Hrest. apply scan_uint_loop_end. exact Hrest.
Qed.

Lemma scan_uint_decimal_witness :
  scan_uint (cstr "0384" ++ cstr "Hz") = 384
  /\ scan_uint (decimal 4294967297 ++ []) = 1
  /\ scan_uint (cstr "-5") = 0.
Proof.
  destruct scan_uint_decimal as (Hd & Hn & H0).
  split; [|split].
  - apply (Hd (Decimal.D0 (Decimal.D3 (Decimal.D8 (Decimal.D4 Decimal.Nil))))
             (cstr "Hz")).
    cbn. lia.
  - apply (Hn 4294967297 []); [lia | exact I].
  - apply (H0 (cstr "-5")). cbn. lia.
Defined.

(** ** The command line *)

Lemma usage_eq (self : list Z) (e : Z) (err : list Z) :
  usage self e err = Done (e, err ++ usage_text self).
Proof.
  unfold usage, usage_text, bind, fprintf, ret.
  rewrite <- !app_assoc. reflexivity.
Qed.

Lemma usage_exit (self : list Z) (err : list Z) :
  (r <- usage self 1 ;; ret (Exit r)) err
  = Done (Exit 1, err ++ usage_text self).
Proof. unfold bind. rewrite usage_eq. reflexivity. Qed.

Lemma loop_outcome_skip (self : list Z) (argv : list (list Z)) (k : nat)
    (err : list Z) (p : parsed) (err' : list Z) :
  loop_outcome self (skipn k argv) err p err' ->
  loop_outcome self argv err p err'.
Proof.
  destruct p as [r | o rest]; cbn [loop_outcome]; [exact (fun H => H)|].
  intros (Herr & Hamp & j & Hrest). split; [exact Herr|].
  split; [exact Hamp|].
  exists (j + k)%nat. rewrite Hrest. apply skipn_skipn.
Qed.

Lemma parse_options_outcome (n : nat) (self : list Z) :
  forall (argv : list (list Z)) (o : settings) (err : list Z) (p : parsed)
    (err' : list Z),
    (length argv <= n)%nat ->
    amp o <> 0 ->
    parse_options self o argv err = Done (p, err') ->
    loop_outcome self argv err p err'.
Proof.
  induction n as [|n IH]; intros argv o err p err' Hn Hamp Hrun.
  - destruct argv; [|cbn [length] in Hn; lia].
    cbn [parse_options] in Hrun. unfold ret in Hrun.
    inversion Hrun. subst.
    split; [reflexivity | split; [exact Hamp | exists 0%nat; reflexivity]].
  - destruct argv as [|arg rest].
    { cbn [parse_options] in Hrun. unfold ret in Hrun.
      inversion Hrun. subst.
      split; [reflexivity | split; [exact Hamp | exists 0%nat; reflexivity]]. }
    cbn [length] in Hn.
    assert (Hstep : forall (o1 : settings),
              amp o1 <> 0 ->
              parse_options self o1 rest err = Done (p, err') ->
              loop_outcome self (arg :: rest) err p err').
    { intros o1 Ha1 H1. apply (loop_outcome_skip _ _ 1). cbn [skipn].
      apply (IH rest o1); [lia | exact Ha1 | exact H1]. }
    assert (Hvalue : forall (set : Z -> settings -> settings),
              (forall v : Z, v <> 0 -> amp (set v o) <> 0) ->
              match strchr arg (chr "=") with
              | Some c =>
                  let v := scan_uint (tl c) in
                  if v =? 0 then r <- usage self 1 ;; ret (Exit r)
                  else parse_options self (set v o) rest
              | None =>
                  match rest with
                  | [] => fun _ => Undefined
                  | s :: rest' =>
                      let v := scan_uint s in
                      if v =? 0 then r <- usage self 1 ;; ret (Exit r)
                      else parse_options self (set v o) rest'
                  end
              end err = Done (p, err') ->
              loop_outcome self (arg :: rest) err p err').
    { intros set Hset H1.
      destruct (strchr arg (chr "=")) as [c|].
      - cbv zeta in H1. destruct (Z.eqb_spec (scan_uint (tl c)) 0) as [|Hv].
        + rewrite usage_exit in H1. inversion H1. split; reflexivity.
        + apply (Hstep _ (Hset _ Hv) H1).
      - destruct rest as [|s rest']; [discriminate H1|].
        cbv zeta in H1. destruct (Z.eqb_spec (scan_uint s) 0) as [|Hv].
        + rewrite usage_exit in H1. inversion H1. split; reflexivity.
        + apply (loop_outcome_skip _ _ 2). cbn [skipn].
          apply (IH rest' (set (scan_uint s) o));
            [cbn [length] in Hn; lia | exact (Hset _ Hv) | exact H1]. }
    cbn [parse_options] in Hrun.
    destruct (str_equals arg (cstr "--")).
    { unfold ret in Hrun. inversion Hrun. subst.
      split; [reflexivity | split; [exact Hamp | exists 1%nat; reflexivity]]. }
    destruct (str_istarts arg (cstr "--amp"));
      [exact (Hvalue set_amp (fun v Hv => Hv) Hrun)|].
    destruct (str_istarts arg (cstr "--use-amp-tag"));
      [exact (Hstep (set_useAmpTag 1 o) Hamp Hrun)|].
    destruct (str_istarts arg (cstr "--id3"));
      [exact (Hstep (set_embedId3 1 o) Hamp Hrun)|].
    destruct (str_istarts arg (cstr "--fade"));
      [exact (Hvalue set_fadeSecs (fun _ _ => Hamp) Hrun)|].
    destruct (str_istarts arg (cstr "--length"));
      [exact (Hvalue set_totalSecs (fun _ _ => Hamp) Hrun)|].
    unfold ret in Hrun. inversion Hrun. subst.
    split; [reflexivity | split; [exact Hamp | exists 0%nat; reflexivity]].
Qed.

(** X18.  How the option part of [main] ends.  A run that ends either
    exits with status 1 after printing the three lines of [usage]
    and nothing else, or goes on with at least one file name left,
    the names being a tail of the command line, nothing printed, and
    an amplitude that is not 0. *)
Theorem main_options_outcome (self : list Z) (argv : list (list Z))
    (err : list Z) (p : parsed) (err' : list Z) :
  main_options self argv err = Done (p, err') ->
  match p with
  | Exit r => r = 1 /\ err' = err ++ usage_text self
  | Files o rest =>
      err' = err /\ rest <> [] /\ (exists k : nat, rest = skipn k argv)
      /\ amp o <> 0
  end.
Proof.
  unfold main_options. intros Hrun.
  apply bind_Done in Hrun. destruct Hrun as (p1 & err1 & Hloop & Hend).
  apply (parse_options_outcome (length argv)) in Hloop;
    [|lia|discriminate].
  destruct p1 as [r | o rest]; cbn [loop_outcome] in Hloop.
  - unfold ret in Hend. inversion Hend. subst. exact Hloop.
  - destruct Hloop as (Herr & Hamp & k & Hrest). subst err1.
    destruct rest as [|file rest].
    + rewrite usage_exit in Hend. inversion Hend. split; reflexivity.
    + unfold ret in Hend. inversion Hend. subst.
      split; [reflexivity|]. split; [discriminate|].
      split; [exists k; exact Hrest | exact Hamp].
Qed.

Lemma main_options_outcome_witness :
  main_options (cstr "spc2wav")
    [cstr "--amp"; cstr "256"; cstr "--id3"; cstr "in.spc"; cstr "out.wav"] []
  = Done (Files {| amp := 256; useAmpTag := 0; embedId3 := 1;
                   fadeSecs := 0; totalSecs := 0 |}
            [cstr "in.spc"; cstr "out.wav"], [])
  /\ [cstr "in.spc"; cstr "out.wav"] <> []
  /\ (exists k : nat,
        [cstr "in.spc"; cstr "out.wav"]
        = skipn k [cstr "--amp"; cstr "256"; cstr "--id3"; cstr "in.spc";
                   cstr "out.wav"])
  /\ 256 <> 0.
Proof.
  split; [reflexivity|].
  exact (proj2 (main_options_outcome (cstr "spc2wav")
           [cstr "--amp"; cstr "256"; cstr "--id3"; cstr "in.spc";
            cstr "out.wav"] []
           (Files {| amp := 256; useAmpTag := 0; embedId3 := 1;
                     fadeSecs := 0; totalSecs := 0 |}
              [cstr "in.spc"; cstr "out.wav"]) [] eq_refl)).
Defined.

(** *** Options that take a value *)

Lemma tolower_zero (c : Z) : tolower c = 0 -> c = 0.
Proof.
  unfold tolower. destruct ((65 <=? c) && (c <=? 90)) eqn:Hup; [|tauto].
  apply andb_prop in Hup. destruct Hup as [Hlo _].
  apply Z.leb_le in Hlo. lia.
Qed.

Lemma nth_tl (s : list Z) (k : nat) : nth k (tl s) 0 = nth (S k) s 0.
Proof. destruct s; [destruct k; reflexivity | reflexivity]. Qed.

Lemma hd_nth (s : list Z) : hd 0 s = nth 0 s 0.
Proof. destruct s; reflexivity. Qed.

(** Two strings that compare equal up to [n] agree, without regard to
    case, before the end of the second. *)
Lemma strncasecmp_nth (n : nat) :
  forall (s1 s2 : list Z) (k : nat),
    strncasecmp s1 s2 n = 0 ->
    (k < n)%nat ->
    (forall i : nat, (i < k)%nat -> nth i s2 0 <> 0) ->
    tolower (nth k s1 0) = tolower (nth k s2 0).
Proof.
  induction n as [|n IH]; intros s1 s2 k Hcmp Hk Hs2; [lia|].
  cbn [strncasecmp] in Hcmp. cbv zeta in Hcmp.
  destruct (Z.eqb_spec (tolower (hd 0 s1)) (tolower (hd 0 s2))) as [Heq | Hne];
    [|lia].
  destruct k as [|k]; [rewrite <- !hd_nth; exact Heq|].
  destruct (Z.eqb_spec (tolower (hd 0 s1)) 0) as [Hend | _].
  - exfalso. apply (Hs2 0%nat); [lia|].
    rewrite <- hd_nth. apply tolower_zero. congruence.
  - rewrite <- !nth_tl. apply IH; [exact Hcmp | lia |].
    intros i Hi. rewrite nth_tl. apply Hs2. lia.
Qed.

Lemma str_istarts_third (arg key : list Z) :
  str_istarts arg key = true ->
  (3 <= Z.to_nat (strlen key))%nat ->
  nth 0 key 0 <> 0 -> nth 1 key 0 <> 0 ->
  tolower (nth 2 arg 0) = tolower (nth 2 key 0).
Proof.
  unfold str_istarts. intros Hcmp Hlen H0 H1. apply Z.eqb_eq in Hcmp.
  apply (strncasecmp_nth _ _ _ 2 Hcmp); [lia|].
  intros [|[|i]] Hi; [exact H0 | exact H1 | lia].
Qed.

Lemma strcmp_nth (s1 : list Z) :
  forall (s2 : list Z) (k : nat),
    strcmp s1 s2 = 0 ->
    (forall i : nat, (i < k)%nat -> nth i s2 0 <> 0) ->
    nth k s1 0 = nth k s2 0.
Proof.
  induction s1 as [|c1 t1 IH]; intros [|c2 t2] k Hcmp Hs2;
    cbn [strcmp] in Hcmp.
  - reflexivity.
  - destruct k as [|k]; [cbn [nth]; lia|].
    exfalso. apply (Hs2 0%nat); [lia | cbn [nth]; lia].
  - destruct k as [|k]; [cbn [nth]; lia|].
    exfalso. apply (Hs2 0%nat); [lia | reflexivity].
  - destruct (Z.eqb_spec c1 c2) as [Heq | Hne]; [|lia].
    destruct k as [|k]; [exact Heq|].
    destruct (Z.eqb_spec c1 0) as [Hend | _].
    + exfalso. apply (Hs2 0%nat); [lia | cbn [nth]; lia].
    + cbn [nth]. apply IH; [exact Hcmp|].
      intros i Hi. apply (Hs2 (S i)). lia.
Qed.

Lemma option_setter_not_dashes (arg : list Z)
    (set : Z -> settings -> settings) :
  option_setter arg = Some set ->
  str_equals arg (cstr "--") = false
  /\ (str_istarts arg (cstr "--amp") = false ->
      str_istarts arg (cstr "--use-amp-tag") = false
      /\ str_istarts arg (cstr "--id3") = false).
Proof.
  unfold option_setter. intros Hset.
  assert (Hthird : tolower (nth 2 arg 0) = 97
                   \/ tolower (nth 2 arg 0) = 102
                   \/ tolower (nth 2 arg 0) = 108).
  { destruct (str_istarts arg (cstr "--amp")) eqn:Hamp.
    { left. apply (str_istarts_third _ _ Hamp); cbn; lia || discriminate. }
    destruct (str_istarts arg (cstr "--fade")) eqn:Hfade.
    { right. left.
      apply (str_istarts_third _ _ Hfade); cbn; lia || discriminate. }
    destruct (str_istarts arg (cstr "--length")) eqn:Hlength;
      [|discriminate Hset].
    right. right.
    apply (str_istarts_third _ _ Hlength); cbn; lia || discriminate. }
  split.
  - destruct (str_equals arg (cstr "--")) eqn:Heq; [|reflexivity].
    exfalso. unfold str_equals in Heq. apply Z.eqb_eq in Heq.
    assert (H2 : nth 2 arg 0 = 0).
    { apply (strcmp_nth _ _ 2 Heq).
      intros [|[|i]] Hi; cbn; [discriminate | discriminate | lia]. }
    rewrite H2 in Hthird. cbn in Hthird. lia.
  - intros Hamp.
    assert (Hfl : tolower (nth 2 arg 0) = 102 \/ tolower (nth 2 arg 0) = 108).
    { destruct Hthird as [Ha | Hfl]; [|exact Hfl].
      rewrite Hamp in Hset.
      destruct (str_istarts arg (cstr "--fade")) eqn:Hfade.
      - left. apply (str_istarts_third _ _ Hfade); cbn; lia || discriminate.
      - destruct (str_istarts arg (cstr "--length")) eqn:Hlength;
          [|discriminate Hset].
        right.
        apply (str_istarts_third _ _ Hlength); cbn; lia || discriminate. }
    split.
    + destruct (str_istarts arg (cstr "--use-amp-tag")) eqn:Huse;
        [|reflexivity].
      exfalso.
      assert (H2 : tolower (nth 2 arg 0) = 117)
        by (apply (str_istarts_third _ _ Huse); cbn; lia || discriminate).
      lia.
    + destruct (str_istarts arg (cstr "--id3")) eqn:Hid3; [|reflexivity].
      exfalso.
      assert (H2 : tolower (nth 2 arg 0) = 105)
        by (apply (str_istarts_third _ _ Hid3); cbn; lia || discriminate).
      lia.
Qed.

(** The step of the option loop at an option that takes a value. *)
Lemma parse_value_option (self : list Z) (o : settings) (arg : list Z)
    (rest : list (list Z)) (set : Z -> settings -> settings) :
  option_setter arg = Some set ->
  parse_options self o (arg :: rest)
  = match strchr arg (chr "=") with
    | Some c =>
        if scan_uint (tl c) =? 0 then r <- usage self 1 ;; ret (Exit r)
        else parse_options self (set (scan_uint (tl c)) o) rest
    | None =>
        match rest with
        | [] => fun _ => Undefined
        | s :: rest' =>
            if scan_uint s =? 0 then r <- usage self 1 ;; ret (Exit r)
            else parse_options self (set (scan_uint s) o) rest'
        end
    end.
Proof.
  intros Hset.
  destruct (option_setter_not_dashes arg set Hset) as [Hdashes Hflags].
  cbn [parse_options]. rewrite Hdashes.
  unfold option_setter in Hset.
  destruct (str_istarts arg (cstr "--amp")) eqn:Hamp.
  { assert (set = set_amp) by congruence. subst set. reflexivity. }
  destruct (Hflags eq_refl) as [Huse Hid3]. rewrite Huse, Hid3.
  destruct (str_istarts arg (cstr "--fade")) eqn:Hfade.
  { assert (set = set_fadeSecs) by congruence. subst set. reflexivity. }
  destruct (str_istarts arg (cstr "--length")) eqn:Hlength;
    [|discriminate Hset].
  assert (set = set_totalSecs) by congruence. subst set. reflexivity.
Qed.

(** X19.  An option that takes a value, given last and without one.
    When [--amp], [--fade] or [--length] is the last word of the
    command line and carries no [=], the program reads the value
    from the word after the last one: [scan_uint] is called on the
    null pointer that ends [argv]. *)
Theorem option_without_value (self : list Z) (o : settings) (arg : list Z)
    (set : Z -> settings -> settings) (err : list Z) :
  option_setter arg = Some set ->
  strchr arg (chr "=") = None ->
  parse_options self o [arg] err = Undefined
  /\ main_options self [arg] err = Undefined.
Proof.
  intros Hset Hvalue.
  assert (Hloop : forall o1 : settings,
            parse_options self o1 [arg] err = Undefined)
    by (intros o1; rewrite (parse_value_option _ _ _ _ set Hset), Hvalue;
        reflexivity).
  split; [apply Hloop|].
  unfold main_options, bind. rewrite Hloop. reflexivity.
Qed.

Lemma option_without_value_witness :
  option_setter (cstr "--length") = Some set_totalSecs
  /\ strchr (cstr "--length") (chr "=") = None
  /\ parse_options (cstr "spc2wav") initial_settings [cstr "--length"] []
     = Undefined
  /\ main_options (cstr "spc2wav") [cstr "--length"] [] = Undefined.
Proof.
  split; [reflexivity|]. split; [reflexivity|].
  exact (option_without_value (cstr "spc2wav") initial_settings
           (cstr "--length") set_totalSecs [] eq_refl eq_refl).
Defined.

(** X20.  A value that reads as zero ends the run with the usage text.
    Whether the value follows [=] or is the next word, if
    [scan_uint] reads it as 0 the program prints the usage text and
    exits with status 1, whatever follows on the command line. *)
Theorem option_value_zero (self : list Z) (o : settings) (arg : list Z)
    (set : Z -> settings -> settings) (rest : list (list Z))
    (err : list Z) :
  option_setter arg = Some set ->
  (forall c : list Z,
     strchr arg (chr "=") = Some c ->
     scan_uint (tl c) = 0 ->
     parse_options self o (arg :: rest) err
     = Done (Exit 1, err ++ usage_text self))
  /\ (forall v : list Z,
        strchr arg (chr "=") = None ->
        scan_uint v = 0 ->
        parse_options self o (arg :: v :: rest) err
        = Done (Exit 1, err ++ usage_text self)).
Proof.
  intros Hset. split.
  - intros c Hc Hv.
    rewrite (parse_value_option _ _ _ _ set Hset), Hc, Hv.
    apply usage_exit.
  - intros v Hnone Hv.
    rewrite (parse_value_option _ _ _ _ set Hset), Hnone, Hv.
    apply usage_exit.
Qed.

Lemma option_value_zero_witness :
  option_setter (cstr "--fade=0") = Some set_fadeSecs
  /\ parse_options (cstr "spc2wav") initial_settings
       [cstr "--fade=0"; cstr "in.spc"] []
     = Done (Exit 1, [] ++ usage_text (cstr "spc2wav"))
  /\ parse_options (cstr "spc2wav") initial_settings
       [cstr "--amp"; cstr "loud"; cstr "in.spc"] []
     = Done (Exit 1, [] ++ usage_text (cstr "spc2wav")).
Proof.
  split; [reflexivity|]. split.
  - exact (proj1 (option_value_zero (cstr "spc2wav") initial_settings
                    (cstr "--fade=0") set_fadeSecs [cstr "in.spc"] []
                    eq_refl)
             (cstr "=0") eq_refl eq_refl).
  - exact (proj2 (option_value_zero (cstr "spc2wav") initial_settings
                    (cstr "--amp") set_amp [cstr "in.spc"] [] eq_refl)
             (cstr "loud") eq_refl eq_refl).
Defined.

Lemma strncasecmp_prefix (key : list Z) :
  forall name rest : list Z,
    map tolower name = map tolower key ->
    Forall (fun c => c <> 0) key ->
    strncasecmp (name ++ rest) key (length key) = 0.
Proof.
  induction key as [|k key IH]; intros name rest Hname Hkey; [reflexivity|].
  destruct name as [|c name]; [discriminate Hname|].
  cbn [map] in Hname. injection Hname as Hc Hname.
  inversion Hkey as [|k' key' Hk Hkey']. subst.
  cbn [length strncasecmp app hd tl]. cbv zeta. rewrite Hc, Z.eqb_refl.
  destruct (Z.eqb_spec (tolower k) 0) as [Hzero | _].
  - apply tolower_zero in Hzero. contradiction.
  - apply IH; assumption.
Qed.

Lemma strchr_app (pre post : list Z) (ch : Z) :
  ch <> 0 ->
  Forall (fun c => c <> 0 /\ c <> ch) pre ->
  strchr (pre ++ ch :: post) ch = Some (ch :: post).
Proof.
  intros Hch Hpre. induction Hpre as [|c pre [Hc0 Hc] _ IH]; cbn [app strchr].
  - replace (ch =? 0) with false by (symmetry; apply Z.eqb_neq; exact Hch).
    rewrite Z.eqb_refl. reflexivity.
  - replace (c =? 0) with false by (symmetry; apply Z.eqb_neq; exact Hc0).
    replace (c =? ch) with false by (symmetry; apply Z.eqb_neq; exact Hc).
    exact IH.
Qed.

Lemma option_setter_prefix (key name rest : list Z)
    (set : Z -> settings -> settings) :
  In (key, set) value_options ->
  map tolower name = key ->
  option_setter (name ++ rest) = Some set.
Proof.
  intros Hin Hname.
  assert (Hstarts : str_istarts (name ++ rest) key = true).
  { unfold str_istarts. apply Z.eqb_eq.
    replace (Z.to_nat (strlen key)) with (length key)
      by (destruct Hin as [H | [H | [H | []]]]; inversion H; reflexivity).
    apply strncasecmp_prefix.
    - rewrite Hname.
      destruct Hin as [H | [H | [H | []]]]; inversion H; reflexivity.
    - destruct Hin as [H | [H | [H | []]]]; inversion H;
        repeat constructor; discriminate. }
  clear Hname. unfold option_setter.
  destruct Hin as [H | [H | [H | []]]];
    [ assert (Hk : key = cstr "--amp") by congruence;
      assert (Hs : set = set_amp) by congruence
    | assert (Hk : key = cstr "--fade") by congruence;
      assert (Hs : set = set_fadeSecs) by congruence
    | assert (Hk : key = cstr "--length") by congruence;
      assert (Hs : set = set_totalSecs) by congruence ];
    clear H; subst key set.
  - rewrite Hstarts. reflexivity.
  - destruct (str_istarts (name ++ rest) (cstr "--amp")) eqn:Hamp.
    { exfalso.
      pose proof (str_istarts_third _ _ Hamp) as H1.
      pose proof (str_istarts_third _ _ Hstarts) as H2.
      rewrite H2 in H1 by (cbn; lia || discriminate).
      specialize (H1 ltac:(cbn; lia) ltac:(discriminate) ltac:(discriminate)).
      discriminate H1. }
    rewrite Hstarts. reflexivity.
  - destruct (str_istarts (name ++ rest) (cstr "--amp")) eqn:Hamp.
    { exfalso.
      pose proof (str_istarts_third _ _ Hamp) as H1.
      pose proof (str_istarts_third _ _ Hstarts) as H2.
      rewrite H2 in H1 by (cbn; lia || discriminate).
      specialize (H1 ltac:(cbn; lia) ltac:(discriminate) ltac:(discriminate)).
      discriminate H1. }
    destruct (str_istarts (name ++ rest) (cstr "--fade")) eqn:Hfade.
    { exfalso.
      pose proof (str_istarts_third _ _ Hfade) as H1.
      pose proof (str_istarts_third _ _ Hstarts) as H2.
      rewrite H2 in H1 by (cbn; lia || discriminate).
      specialize (H1 ltac:(cbn; lia) ltac:(discriminate) ltac:(discriminate)).
      discriminate H1. }
    rewrite Hstarts. reflexivity.
Qed.

(** X21.  Options are recognised by a prefix, without regard to case.
    A word that starts with the letters of [--amp], [--fade] or
    [--length] in any case, goes on with any characters and then
    carries [=] and a value that does not read as 0, sets the
    setting of that option to the value and the loop goes on with
    the next word. *)
Theorem option_names_by_prefix (self : list Z) (o : settings)
    (key name tail value : list Z) (set : Z -> settings -> settings)
    (rest : list (list Z)) (err : list Z) :
  In (key, set) value_options ->
  map tolower name = key ->
  Forall (fun c => c <> 0 /\ c <> chr "=") (name ++ tail) ->
  scan_uint value <> 0 ->
  parse_options self o ((name ++ tail ++ chr "=" :: value) :: rest) err
  = parse_options self (set (scan_uint value) o) rest err.
Proof.
  intros Hin Hname Hplain Hvalue.
  rewrite (parse_value_option _ _ _ _ set)
    by (apply (option_setter_prefix key); assumption).
  rewrite app_assoc, strchr_app by (try discriminate; exact Hplain).
  cbn [tl].
  replace (scan_uint value =? 0) with false
    by (symmetry; apply Z.eqb_neq; exact Hvalue).
  reflexivity.
Qed.

Lemma option_names_by_prefix_witness :
  In (cstr "--length", set_totalSecs) value_options
  /\ map tolower (cstr "--LENGTH") = cstr "--length"
  /\ parse_options (cstr "spc2wav") initial_settings
       [cstr "--LENGTH-in-seconds=90"; cstr "in.spc"] []
     = parse_options (cstr "spc2wav") (set_totalSecs 90 initial_settings)
         [cstr "in.spc"] [].
Proof.
  split; [right; right; left; reflexivity|]. split; [reflexivity|].
  apply (option_names_by_prefix (cstr "spc2wav") initial_settings
           (cstr "--length") (cstr "--LENGTH") (cstr "-in-seconds")
           (cstr "90") set_totalSecs [cstr "in.spc"] []).
  - right; right; left; reflexivity.
  - reflexivity.
  - repeat constructor; discriminate.
  - discriminate.
Defined.

(** ** The name of the output file *)

Lemma strnlen_nat_ends (s rest : list Z) :
  Forall (fun c => c <> 0) s ->
  ends rest ->
  forall n : nat,
    (length s <= n)%nat ->
    strnlen_nat (s ++ rest) n = length s.
Proof.
  intros Hs Hrest. induction Hs as [|c s Hc _ IH]; intros n Hn.
  - cbn [app length]. destruct n as [|n]; [destruct rest; reflexivity|].
    destruct rest as [|r rest]; [reflexivity|].
    cbn [strnlen_nat]. cbn [ends] in Hrest. subst r. reflexivity.
  - cbn [length] in Hn. destruct n as [|n]; [lia|].
    cbn [app strnlen_nat length].
    replace (c =? 0) with false by (symmetry; apply Z.eqb_neq; exact Hc).
    rewrite IH by lia. reflexivity.
Qed.

Lemma strlen_ends (s rest : list Z) :
  Forall (fun c => c <> 0) s ->
  ends rest ->
  strlen (s ++ rest) = Z.of_nat (length s).
Proof.
  intros Hs Hrest. unfold strlen.
  rewrite strnlen_nat_ends by (try assumption; rewrite length_app; lia).
  reflexivity.
Qed.

Lemma chars_ends (s rest : list Z) :
  Forall (fun c => c <> 0) s ->
  ends rest ->
  chars (s ++ rest) = s.
Proof.
  intros Hs Hrest. unfold chars. rewrite strlen_ends by assumption.
  rewrite Nat2Z.id, firstn_app, Nat.sub_diag, firstn_all.
  cbn [firstn]. apply app_nil_r.
Qed.

Lemma strlen_plain (s : list Z) :
  Forall (fun c => c <> 0) s -> strlen s = Z.of_nat (length s).
Proof.
  intros Hs. rewrite <- (app_nil_r s) at 1. apply strlen_ends; [exact Hs|].
  exact I.
Qed.

Lemma chars_plain (s : list Z) :
  Forall (fun c => c <> 0) s -> chars s = s.
Proof.
  intros Hs. rewrite <- (app_nil_r s) at 1. apply chars_ends; [exact Hs|].
  exact I.
Qed.

Lemma strrchr_none (ext rest : list Z) (ch : Z) :
  Forall (fun c => c <> 0 /\ c <> ch) ext ->
  ends rest ->
  strrchr (ext ++ rest) ch = None.
Proof.
  intros Hext Hrest. induction Hext as [|c ext [Hc0 Hc] _ IH]; cbn [app].
  - destruct rest as [|r rest]; [reflexivity|].
    cbn [ends] in Hrest. subst r. reflexivity.
  - cbn [strrchr].
    replace (c =? 0) with false by (symmetry; apply Z.eqb_neq; exact Hc0).
    rewrite IH.
    replace (c =? ch) with false by (symmetry; apply Z.eqb_neq; exact Hc).
    reflexivity.
Qed.

Lemma strrchr_last (stem ext rest : list Z) (ch : Z) :
  ch <> 0 ->
  Forall (fun c => c <> 0) stem ->
  Forall (fun c => c <> 0 /\ c <> ch) ext ->
  ends rest ->
  strrchr (stem ++ ch :: ext ++ rest) ch = Some (Z.of_nat (length stem)).
Proof.
  intros Hch Hstem Hext Hrest.
  induction Hstem as [|c stem Hc _ IH]; cbn [app strrchr length].
  - replace (ch =? 0) with false by (symmetry; apply Z.eqb_neq; exact Hch).
    rewrite strrchr_none by assumption. rewrite Z.eqb_refl. reflexivity.
  - replace (c =? 0) with false by (symmetry; apply Z.eqb_neq; exact Hc).
    rewrite IH. f_equal. lia.
Qed.

Lemma poke_at (k : nat) (cells mem : list Z) :
  (k + length cells <= length mem)%nat ->
  poke (Z.of_nat k) cells mem
  = Done (tt, firstn k mem ++ cells ++ skipn (k + length cells) mem).
Proof.
  intros Hfit. unfold poke, store.
  replace (in_bounds mem (Z.of_nat k) (Z.of_nat (length cells))) with true
    by (symmetry; apply in_bounds_true; lia).
  rewrite Nat2Z.id. reflexivity.
Qed.

Lemma poke_beyond (k : nat) (cells mem : list Z) :
  (length mem < k + length cells)%nat ->
  poke (Z.of_nat k) cells mem = Undefined.
Proof.
  intros Hfit. unfold poke, store.
  destruct (in_bounds mem (Z.of_nat k) (Z.of_nat (length cells))) eqn:Hin;
    [|reflexivity].
  apply in_bounds_true in Hin. lia.
Qed.

(** Cutting the extension of a name that has one, inside an object. *)
Lemma cut_extension_eq (stem ext rest : list Z) :
  Forall (fun c => c <> 0) stem ->
  Forall (fun c => c <> 0 /\ c <> chr ".") ext ->
  ends rest ->
  cut_extension (stem ++ chr "." :: ext ++ rest)
  = Done (tt, stem ++ 0 :: ext ++ rest).
Proof.
  intros Hstem Hext Hrest. unfold cut_extension. rewrite bind_get.
  rewrite strrchr_last by (try assumption; discriminate).
  rewrite poke_at by (rewrite length_app; cbn [length]; lia).
  rewrite firstn_app, Nat.sub_diag, firstn_all. cbn [firstn].
  rewrite app_nil_r, skipn_app, skipn_all2 by (cbn [length]; lia).
  cbn [length].
  replace (length stem + 1 - length stem)%nat with 1%nat by lia.
  reflexivity.
Qed.

Lemma cut_extension_none (name rest : list Z) :
  Forall (fun c => c <> 0 /\ c <> chr ".") name ->
  ends rest ->
  cut_extension (name ++ rest) = Undefined.
Proof.
  intros Hname Hrest. unfold cut_extension. rewrite bind_get.
  rewrite strrchr_none by assumption. reflexivity.
Qed.

Lemma skipn_repeat_same {A : Type} (v : A) (k n : nat) :
  skipn k (repeat v n) = repeat v (n - k).
Proof.
  revert n. induction k as [|k IH]; intros [|n]; cbn [skipn repeat Nat.sub];
    try reflexivity.
  apply IH.
Qed.

Section OutFileProperties.

Variable may_alloc : Z -> bool.

Lemma strdup_eq (s : list Z) :
  Forall (fun c => c <> 0) s ->
  Z.of_nat (length s) + 1 < 2 ^ 64 ->
  strdup may_alloc s
  = if may_alloc (Z.of_nat (length s) + 1) then Some (s ++ [0]) else None.
Proof.
  intros Hs Hsize. unfold strdup, malloc.
  rewrite strlen_plain, chars_plain by exact Hs.
  rewrite u64_small by lia.
  replace (0 <? Z.of_nat (length s) + 1) with true
    by (symmetry; apply Z.ltb_lt; lia).
  cbn [andb]. destruct (may_alloc (Z.of_nat (length s) + 1)); reflexivity.
Qed.

Lemma plain_name (stem ext : list Z) :
  Forall (fun c => c <> 0) stem ->
  Forall (fun c => c <> 0 /\ c <> chr ".") ext ->
  Forall (fun c => c <> 0) (stem ++ chr "." :: ext).
Proof.
  intros Hstem Hext. apply Forall_app. split; [exact Hstem|].
  constructor; [discriminate|].
  apply (Forall_impl _ (fun c H => proj1 H) Hext).
Qed.

(** The second phase of the derivation: the copy into the new object. *)
Lemma rename_in_place (stem ext : list Z) :
  Forall (fun c => c <> 0) stem ->
  Forall (fun c => c <> 0 /\ c <> chr ".") ext ->
  (strcpy (stem ++ chr "." :: ext) ;; cut_extension ;; strcat (cstr ".wav"))
    (repeat 0 (length stem + 5))
  = if (length ext <=? 3)%nat
    then Done (tt, stem ++ cstr ".wav" ++ [0])
    else Undefined.
Proof.
  intros Hstem Hext.
  pose proof (plain_name stem ext Hstem Hext) as Hplain.
  unfold strcpy. rewrite chars_plain by exact Hplain.
  unfold bind at 1.
  destruct (Nat.leb_spec (length ext) 3) as [Hfit | Hlong].
  - change 0 with (Z.of_nat 0) at 1.
    rewrite poke_at
      by (rewrite !length_app, repeat_length; cbn [length]; lia).
    cbn [firstn app Nat.add].
    rewrite skipn_repeat_same. rewrite !length_app. cbn [length].
    replace (length stem + 5 - (length stem + S (length ext) + 1))%nat
      with (3 - length ext)%nat by lia.
    rewrite <- !app_assoc. cbn [app].
    unfold bind at 1.
    rewrite (cut_extension_eq stem ext (0 :: repeat 0 (3 - length ext)))
      by (try assumption; reflexivity).
    unfold strcat. rewrite bind_get.
    rewrite strlen_ends by (try assumption; reflexivity).
    change (chars (cstr ".wav") ++ [0]) with (cstr ".wav" ++ [0]).
    rewrite poke_at
      by (rewrite !length_app; cbn [length cstr app];
          rewrite length_app; cbn [length]; rewrite repeat_length; lia).
    rewrite firstn_app, Nat.sub_diag, firstn_all. cbn [firstn].
    rewrite app_nil_r, skipn_all2
      by (rewrite !length_app; cbn [length cstr app];
          rewrite length_app; cbn [length]; rewrite repeat_length; lia).
    rewrite app_nil_r. reflexivity.
  - change 0 with (Z.of_nat 0) at 1.
    rewrite poke_beyond
      by (rewrite !length_app, repeat_length; cbn [length]; lia).
    reflexivity.
Qed.

(** The name that [main] derives from a source name with an extension. *)
Lemma main_outfile_split (stem ext : list Z) :
  Forall (fun c => c <> 0) stem ->
  Forall (fun c => c <> 0 /\ c <> chr ".") ext ->
  Z.of_nat (length stem + length ext) + 8 < 2 ^ 31 ->
  main_outfile may_alloc [stem ++ chr "." :: ext]
  = if may_alloc (Z.of_nat (length (stem ++ chr "." :: ext)) + 1)
       && may_alloc (Z.of_nat (length stem) + 5)
       && (length ext <=? 3)%nat
    then Done (Some (stem ++ cstr ".wav" ++ [0]))
    else Undefined.
Proof.
  intros Hstem Hext Hsize.
  pose proof (plain_name stem ext Hstem Hext) as Hplain.
  assert (Hlen : length (stem ++ chr "." :: ext)
                 = (length stem + S (length ext))%nat)
    by (rewrite length_app; reflexivity).
  change (2 ^ 31) with 2147483648 in Hsize.
  cbn [main_outfile].
  rewrite strdup_eq
    by (try exact Hplain; rewrite Hlen;
        change (2 ^ 64) with 18446744073709551616; lia).
  destruct (may_alloc (Z.of_nat (length (stem ++ chr "." :: ext)) + 1));
    [|reflexivity].
  cbn [andb].
  rewrite <- app_assoc. cbn [app].
  rewrite (cut_extension_eq stem ext [0]) by (try assumption; reflexivity).
  rewrite strlen_ends by (try assumption; reflexivity).
  unfold snprintf_len.
  replace (Z.of_nat (length stem) + 4 <=? 2147483647) with true
    by (symmetry; apply Z.leb_le; lia).
  rewrite (u32_small (Z.of_nat (length stem) + 4))
    by (change (2 ^ 32) with 4294967296; lia).
  rewrite u32_small by (change (2 ^ 32) with 4294967296; lia).
  unfold malloc.
  replace (0 <? Z.of_nat (length stem) + 4 + 1) with true
    by (symmetry; apply Z.ltb_lt; lia).
  replace (Z.of_nat (length stem) + 4 + 1) with (Z.of_nat (length stem) + 5)
    by lia.
  cbn [andb].
  destruct (may_alloc (Z.of_nat (length stem) + 5)); [|reflexivity].
  cbn [andb].
  replace (Z.to_nat (Z.of_nat (length stem) + 5)) with (length stem + 5)%nat
    by lia.
  rewrite rename_in_place by assumption.
  destruct (length ext <=? 3)%nat; reflexivity.
Qed.

End OutFileProperties.

(** X22.  Names with an extension.  When the source is the only name and
    its last dot is followed by at most three characters, the
    output name is the source name with everything from the last
    dot on replaced by [.wav]. *)
Theorem main_outfile_derived (may_alloc : Z -> bool) (stem ext : list Z) :
  Forall (fun c => c <> 0) stem ->
  Forall (fun c => c <> 0 /\ c <> chr ".") ext ->
  Z.of_nat (length stem + length ext) + 8 < 2 ^ 31 ->
  (forall n : Z, may_alloc n = true) ->
  (length ext <= 3)%nat ->
  main_outfile may_alloc [stem ++ chr "." :: ext]
  = Done (Some (stem ++ cstr ".wav" ++ [0]))
  /\ chars (stem ++ cstr ".wav" ++ [0]) = stem ++ cstr ".wav".
Proof.
  intros Hstem Hext Hsize Hgrant Hshort.
  rewrite main_outfile_split by assumption.
  rewrite !Hgrant.
  replace (length ext <=? 3)%nat with true
    by (symmetry; apply Nat.leb_le; exact Hshort).
  split; [reflexivity|].
  change (cstr ".wav" ++ [0]) with ([46; 119; 97; 118] ++ [0]).
  rewrite app_assoc. apply chars_ends; [|reflexivity].
  apply Forall_app. split; [exact Hstem|]. repeat constructor; discriminate.
Qed.

Lemma main_outfile_derived_witness :
  main_outfile (fun _ => true) [cstr "music/intro.v2.spc"]
  = Done (Some (cstr "music/intro.v2" ++ cstr ".wav" ++ [0]))
  /\ chars (cstr "music/intro.v2" ++ cstr ".wav" ++ [0])
     = cstr "music/intro.v2" ++ cstr ".wav".
Proof.
  apply (main_outfile_derived (fun _ => true) (cstr "music/intro.v2")
           (cstr "spc")).
  - repeat constructor; discriminate.
  - repeat constructor; discriminate.
  - cbn. lia.
  - reflexivity.
  - cbn. lia.
Defined.

(** X23.  Names that the derivation cannot handle.  When the source is
    the only name, an extension of more than three characters makes
    [strcpy] write past the end of the object allocated for the
    output name, and a name without a dot makes the program store
    through the null pointer that [strrchr] returns; with any
    allocator. *)
Theorem main_outfile_undefined (may_alloc : Z -> bool) :
  (forall stem ext : list Z,
     Forall (fun c => c <> 0) stem ->
     Forall (fun c => c <> 0 /\ c <> chr ".") ext ->
     Z.of_nat (length stem + length ext) + 8 < 2 ^ 31 ->
     (3 < length ext)%nat ->
     main_outfile may_alloc [stem ++ chr "." :: ext] = Undefined)
  /\ (forall name : list Z,
        Forall (fun c => c <> 0 /\ c <> chr ".") name ->
        Z.of_nat (length name) + 1 < 2 ^ 64 ->
        main_outfile may_alloc [name] = Undefined).
Proof.
  split.
  - intros stem ext Hstem Hext Hsize Hlong.
    rewrite main_outfile_split by assumption.
    replace (length ext <=? 3)%nat with false
      by (symmetry; apply Nat.leb_gt; exact Hlong).
    rewrite andb_false_r. reflexivity.
  - intros name Hname Hsize. cbn [main_outfile].
    rewrite strdup_eq
      by (try exact Hsize; apply (Forall_impl _ (fun c H => proj1 H) Hname)).
    destruct (may_alloc (Z.of_nat (length name) + 1)); [|reflexivity].
    rewrite cut_extension_none by (try exact Hname; reflexivity).
    reflexivity.
Qed.

Lemma main_outfile_undefined_witness :
  main_outfile (fun _ => true) [cstr "song.spc2"] = Undefined
  /\ main_outfile (fun _ => true) [cstr "song"] = Undefined.
Proof.
  destruct (main_outfile_undefined (fun _ => true)) as [Hlong Hnone].
  split.
  - apply (Hlong (cstr "song") (cstr "spc2"));
      [repeat constructor; discriminate | repeat constructor; discriminate
      | cbn; lia | cbn; lia].
  - apply (Hnone (cstr "song"));
      [repeat constructor; discriminate | cbn; lia].
Defined.

(** ** Times on the error stream *)

Lemma digits_range (d : Decimal.uint) :
  Forall (fun c => 48 <= c <= 57) (digits d).
Proof.
  unfold digits.
  induction d; cbn [NilEmpty.string_of_uint cstr]; constructor;
    try assumption; unfold chr; cbn; lia.
Qed.

Lemma length_digits (d : Decimal.uint) :
  length (digits d) = Decimal.nb_digits d.
Proof.
  unfold digits.
  induction d; cbn [NilEmpty.string_of_uint cstr length Decimal.nb_digits];
    congruence.
Qed.

Lemma value_acc_lower (d : Decimal.uint) :
  forall acc : Z,
    0 <= acc -> acc * 10 ^ Z.of_nat (Decimal.nb_digits d) <= value_acc d acc.
Proof.
  induction d; intros acc Hacc; cbn [value_acc Decimal.nb_digits];
    try (change (Z.of_nat 0) with 0; lia);
    rewrite Nat2Z.inj_succ, Z.pow_succ_r by lia;
    pose proof (Z.pow_nonneg 10 (Z.of_nat (Decimal.nb_digits d))
                  ltac:(lia)) as Hpow;
    match goal with
    | |- _ <= value_acc _ ?a => specialize (IHd a ltac:(lia))
    end; nia.
Qed.

(** A canonical numeral does not start with the digit 0, unless it is
    zero. *)
Lemma to_uint_head (p : positive) :
  match Pos.to_uint p with
  | Decimal.Nil | Decimal.D0 _ => False
  | _ => True
  end.
Proof.
  pose proof (DecimalPos.Unsigned.to_of (Pos.to_uint p)) as Hnorm.
  rewrite DecimalPos.Unsigned.of_to in Hnorm. cbn [N.to_uint] in Hnorm.
  pose proof (DecimalPos.Unsigned.to_uint_nonnil p) as Hnil.
  pose proof (DecimalPos.Unsigned.to_uint_nonzero p) as Hzero.
  destruct (Pos.to_uint p) as [|l| | | | | | | | |]; try exact I;
    [contradiction|].
  unfold Decimal.unorm in Hnorm. cbn [Decimal.nzhead] in Hnorm.
  pose proof (DecimalFacts.nb_digits_nzhead l) as Hle.
  destruct (Decimal.nzhead l) eqn:Hhead;
    try (injection Hnorm as Hl; subst l; contradiction);
    try discriminate Hnorm.
  injection Hnorm as Hl. rewrite Hl in Hle.
  cbn [Decimal.nb_digits] in Hle. lia.
Qed.

Lemma length_decimal (v : Z) (k : nat) :
  0 <= v < 10 ^ Z.of_nat k -> (1 <= k)%nat ->
  (1 <= length (decimal v) <= k)%nat.
Proof.
  intros Hv Hk. rewrite decimal_digits by lia. rewrite length_digits.
  destruct v as [|p|p]; [cbn; lia | | lia].
  cbn [Z.to_N N.to_uint].
  pose proof (to_uint_head p) as Hhead.
  pose proof (value_acc_0 (Pos.to_uint p)) as Hvalue.
  unfold N.of_uint in Hvalue.
  rewrite DecimalPos.Unsigned.of_to in Hvalue. cbn [Z.of_N] in Hvalue.
  assert (Hbound : forall (l : Decimal.uint) (d : Z),
            1 <= d -> value_acc l d = Z.pos p ->
            (S (Decimal.nb_digits l) <= k)%nat).
  { intros l d Hd Hl.
    pose proof (value_acc_lower l d ltac:(lia)) as Hlow.
    destruct (Nat.le_gt_cases (S (Decimal.nb_digits l)) k) as [Hok | Hbig];
      [exact Hok|].
    exfalso.
    assert (Hpow : 10 ^ Z.of_nat k <= 10 ^ Z.of_nat (Decimal.nb_digits l))
      by (apply Z.pow_le_mono_r; lia).
    pose proof (Z.pow_pos_nonneg 10 (Z.of_nat k) ltac:(lia) ltac:(lia)).
    nia. }
  destruct (Pos.to_uint p) as [|l|l|l|l|l|l|l|l|l|l];
    try contradiction; cbn [value_acc Decimal.nb_digits] in *;
    (split; [lia|]);
    match goal with
    | H : value_acc l ?d = _ |- _ => exact (Hbound l d ltac:(lia) H)
    end.
Qed.

Lemma decimal_range (v : Z) :
  0 <= v -> Forall (fun c => 48 <= c <= 57) (decimal v).
Proof. intros Hv. rewrite decimal_digits by exact Hv. apply digits_range. Qed.

Lemma padded_range (w : nat) (v : Z) :
  0 <= v -> Forall (fun c => 48 <= c <= 57) (padded w v).
Proof.
  intros Hv. unfold padded. apply Forall_app. split.
  - apply Forall_forall. intros c Hc. apply repeat_spec in Hc. subst c.
    unfold chr. cbn. lia.
  - apply decimal_range. exact Hv.
Qed.

Lemma length_padded (w : nat) (v : Z) (k : nat) :
  0 <= v < 10 ^ Z.of_nat k -> (1 <= k)%nat -> (w <= k)%nat ->
  (w <= length (padded w v) <= k)%nat.
Proof.
  intros Hv Hk Hw. unfold padded. rewrite length_app, repeat_length.
  pose proof (length_decimal v k Hv Hk). lia.
Qed.

Lemma scan_uint_loop_zeros (k : nat) (s : list Z) :
  scan_uint_loop (repeat (chr "0") k ++ s) 0 = scan_uint_loop s 0.
Proof.
  induction k as [|k IH]; [reflexivity|]. cbn [repeat app].
  change (chr "0") with (48 + 0) at 1. change 0 with (u32 0) at 2.
  rewrite scan_uint_loop_digit by lia. exact IH.
Qed.

Lemma scan_uint_padded (w : nat) (v : Z) (rest : list Z) :
  0 <= v < 2 ^ 32 ->
  no_digit rest ->
  scan_uint (padded w v ++ rest) = v.
Proof.
  intros Hv Hrest. unfold scan_uint, padded.
  rewrite <- app_assoc, scan_uint_loop_zeros.
  change (scan_uint_loop (decimal v ++ rest) 0)
    with (scan_uint (decimal v ++ rest)).
  rewrite decimal_digits, scan_uint_digits by (try assumption; lia).
  rewrite DecimalN.Unsigned.of_to, Z2N.id by lia.
  apply Z.mod_small. exact Hv.
Qed.

Lemma strchr_after_digits (ds rest : list Z) (ch : Z) :
  Forall (fun c => 48 <= c <= 57) ds ->
  ch <> 0 -> ch < 48 \/ 57 < ch ->
  strchr (ds ++ ch :: rest) ch = Some (ch :: rest).
Proof.
  intros Hds Hch Hout. apply strchr_app; [exact Hch|].
  apply (Forall_impl _ (fun c (H : 48 <= c <= 57) =>
                          conj (ltac:(lia) : c <> 0) (ltac:(lia) : c <> ch))
           Hds).
Qed.

Lemma printf_0d_eq (w : nat) (v : Z) :
  v <= 2147483647 -> printf_0d w v = Done (padded w v).
Proof.
  intros Hv. unfold printf_0d, padded.
  replace (v <=? 2147483647) with true by (symmetry; apply Z.leb_le; exact Hv).
  reflexivity.
Qed.

(** [frame_to_time] in closed form, for a minute count that [int] has. *)
Lemma frame_to_time_eq (frames : Z) (buf : list Z) :
  0 <= frames ->
  frames / 1920000 <= 2147483647 ->
  length buf = 256%nat ->
  frame_to_time frames buf
  = Done (tt, time_text (frames / 1920000) (frames / 32000 mod 60)
                (frames / 32 mod 1000)
              ++ 0 :: skipn (length (time_text (frames / 1920000)
                                       (frames / 32000 mod 60)
                                       (frames / 32 mod 1000)) + 1)
                        (0 :: skipn 1 buf)).
Proof.
  intros Hframes Hmin Hbuf. unfold frame_to_time.
  assert (Hm : u32 (frames / 32 / 1000 / 60) = frames / 1920000).
  { rewrite !Z.div_div by lia. change (32 * 1000 * 60) with 1920000.
    apply u32_small. change (2 ^ 32) with 4294967296.
    pose proof (Z.div_pos frames 1920000 Hframes ltac:(lia)). lia. }
  assert (Hs : u32 (frames / 32 / 1000 mod 60) = frames / 32000 mod 60).
  { rewrite !Z.div_div by lia. change (32 * 1000) with 32000.
    apply u32_small. change (2 ^ 32) with 4294967296.
    pose proof (Z.mod_pos_bound (frames / 32000) 60 ltac:(lia)). lia. }
  assert (Hms : u32 (frames / 32 mod 1000) = frames / 32 mod 1000).
  { apply u32_small. change (2 ^ 32) with 4294967296.
    pose proof (Z.mod_pos_bound (frames / 32) 1000 ltac:(lia)). lia. }
  cbv zeta. rewrite Hm, Hs, Hms.
  set (min := frames / 1920000). set (sec := frames / 32000 mod 60).
  set (mill := frames / 32 mod 1000).
  assert (Hminr : 0 <= min < 2 ^ 32)
    by (subst min; change (2 ^ 32) with 4294967296;
        pose proof (Z.div_pos frames 1920000 Hframes ltac:(lia)); lia).
  assert (Hsecr : 0 <= sec < 2 ^ 32)
    by (subst sec; change (2 ^ 32) with 4294967296;
        pose proof (Z.mod_pos_bound (frames / 32000) 60 ltac:(lia)); lia).
  assert (Hmillr : 0 <= mill < 2 ^ 32)
    by (subst mill; change (2 ^ 32) with 4294967296;
        pose proof (Z.mod_pos_bound (frames / 32) 1000 ltac:(lia)); lia).
  unfold bind at 1. change 0 with (Z.of_nat 0) at 1.
  rewrite poke_at by (cbn [length]; lia).
  cbn [firstn app Nat.add length].
  unfold bind.
  rewrite !printf_0d_eq
    by (subst sec mill; try exact Hmin;
        try (pose proof (Z.mod_pos_bound (frames / 32000) 60 ltac:(lia)));
        try (pose proof (Z.mod_pos_bound (frames / 32) 1000 ltac:(lia)));
        lia).
  cbn [lift].
  assert (Hwide : forall v : Z, 0 <= v < 2 ^ 32 -> 0 <= v < 10 ^ Z.of_nat 10)
    by (intros v; change (2 ^ 32) with 4294967296;
        change (10 ^ Z.of_nat 10) with 10000000000; lia).
  pose proof (length_padded 2 min 10 (Hwide _ Hminr) ltac:(lia) ltac:(lia))
    as Lm.
  pose proof (length_padded 2 sec 10 (Hwide _ Hsecr) ltac:(lia) ltac:(lia))
    as Ls.
  pose proof (length_padded 3 mill 10 (Hwide _ Hmillr) ltac:(lia) ltac:(lia))
    as Lms.
  assert (Htext : (length (time_text min sec mill) <= 32)%nat)
    by (unfold time_text; rewrite !length_app; cbn [cstr length]; lia).
  change (padded 2 min ++ cstr ":" ++ padded 2 sec ++ cstr "." ++ padded 3 mill
          ++ [0])
    with (padded 2 min ++ cstr ":" ++ padded 2 sec ++ cstr "."
          ++ padded 3 mill ++ [0]).
  replace (padded 2 min ++ cstr ":" ++ padded 2 sec ++ cstr "."
           ++ padded 3 mill ++ [0])
    with (time_text min sec mill ++ [0])
    by (unfold time_text; rewrite <- !app_assoc; reflexivity).
  change 0 with (Z.of_nat 0) at 1.
  rewrite poke_at
    by (rewrite length_app; cbn [length]; rewrite length_skipn; lia).
  cbn [firstn app Nat.add]. rewrite <- app_assoc.
  rewrite length_app. reflexivity.
Qed.

(** X24.  The text of [frame_to_time] reads back as the time.  For a
    frame count whose minutes fit an [int], the text has 9 to 17
    characters inside the 256 bytes of the buffer, and its three
    fields, before the colon, between colon and dot, and after the
    dot, read as the minutes, the seconds below 60 and the
    milliseconds below 1000 of [frames / 32] milliseconds. *)
Theorem frame_to_time_reads_back (frames : Z) (buf : list Z) :
  0 <= frames ->
  frames / 1920000 <= 2147483647 ->
  length buf = 256%nat ->
  exists (buf' t1 t2 : list Z),
    frame_to_time frames buf = Done (tt, buf')
    /\ length buf' = 256%nat
    /\ 9 <= strlen buf' <= 17
    /\ scan_uint buf' = frames / 1920000
    /\ strchr buf' (chr ":") = Some (chr ":" :: t1)
    /\ scan_uint t1 = frames / 32000 mod 60
    /\ strchr t1 (chr ".") = Some (chr "." :: t2)
    /\ scan_uint t2 = frames / 32 mod 1000
    /\ frames / 1920000 * 60000 + frames / 32000 mod 60 * 1000
       + frames / 32 mod 1000
       = frames / 32.
Proof.
  intros Hframes Hmin Hbuf.
  rewrite frame_to_time_eq by assumption.
  assert (Harith : frames / 1920000 * 60000 + frames / 32000 mod 60 * 1000
                   + frames / 32 mod 1000
                   = frames / 32)
    by (Z.to_euclidean_division_equations; lia).
  set (min := frames / 1920000) in *. set (sec := frames / 32000 mod 60) in *.
  set (mill := frames / 32 mod 1000) in *.
  assert (Hminr : 0 <= min < 10 ^ Z.of_nat 10)
    by (subst min; change (10 ^ Z.of_nat 10) with 10000000000;
        pose proof (Z.div_pos frames 1920000 Hframes ltac:(lia)); lia).
  assert (Hsecr : 0 <= sec < 10 ^ Z.of_nat 2)
    by (subst sec; change (10 ^ Z.of_nat 2) with 100;
        pose proof (Z.mod_pos_bound (frames / 32000) 60 ltac:(lia)); lia).
  assert (Hmillr : 0 <= mill < 10 ^ Z.of_nat 3)
    by (subst mill; change (10 ^ Z.of_nat 3) with 1000;
        pose proof (Z.mod_pos_bound (frames / 32) 1000 ltac:(lia)); lia).
  pose proof (length_padded 2 min 10 Hminr ltac:(lia) ltac:(lia)) as Lm.
  pose proof (length_padded 2 sec 2 Hsecr ltac:(lia) ltac:(lia)) as Ls.
  pose proof (length_padded 3 mill 3 Hmillr ltac:(lia) ltac:(lia)) as Lms.
  pose proof (padded_range 2 min ltac:(lia)) as Rm.
  pose proof (padded_range 2 sec ltac:(lia)) as Rs.
  pose proof (padded_range 3 mill ltac:(lia)) as Rms.
  assert (Ltext : (9 <= length (time_text min sec mill) <= 17)%nat)
    by (unfold time_text; rewrite !length_app; cbn [cstr length]; lia).
  set (junk := skipn (length (time_text min sec mill) + 1) (0 :: skipn 1 buf)).
  exists (time_text min sec mill ++ 0 :: junk).
  exists (padded 2 sec ++ cstr "." ++ padded 3 mill ++ 0 :: junk).
  exists (padded 3 mill ++ 0 :: junk).
  change (10 ^ Z.of_nat 10) with 10000000000 in Hminr.
  change (10 ^ Z.of_nat 2) with 100 in Hsecr.
  change (10 ^ Z.of_nat 3) with 1000 in Hmillr.
  split; [reflexivity|]. split.
  { rewrite length_app. cbn [length]. subst junk.
    rewrite length_skipn. cbn [length]. rewrite length_skipn. lia. }
  split.
  { rewrite strlen_ends; [lia | | reflexivity].
    unfold time_text. rewrite !Forall_app.
    assert (Hnz : forall l : list Z,
              Forall (fun c => 48 <= c <= 57) l ->
              Forall (fun c => c <> 0) l)
      by (intros l; apply Forall_impl; intros; lia).
    repeat split; try (apply Hnz; assumption);
      repeat constructor; discriminate. }
  split.
  { unfold time_text. rewrite <- !app_assoc.
    apply scan_uint_padded;
      [change (2 ^ 32) with 4294967296; lia | cbn; lia]. }
  split.
  { unfold time_text. rewrite <- !app_assoc.
    apply strchr_after_digits; [exact Rm | discriminate | cbn; lia]. }
  split.
  { apply scan_uint_padded;
      [change (2 ^ 32) with 4294967296; lia | cbn; lia]. }
  split.
  { apply strchr_after_digits; [exact Rs | discriminate | cbn; lia]. }
  split; [|exact Harith].
  apply scan_uint_padded; [change (2 ^ 32) with 4294967296; lia | cbn; lia].
Qed.

Lemma frame_to_time_reads_back_witness :
  0 <= 3 * 1920000 + 25 * 32000 + 10 * 32 + 5
  /\ (3 * 1920000 + 25 * 32000 + 10 * 32 + 5) / 1920000 <= 2147483647
  /\ length time_buf = 256%nat
  /\ chars (match frame_to_time (3 * 1920000 + 25 * 32000 + 10 * 32 + 5)
                    time_buf with
            | Done (_, buf') => buf'
            | _ => []
            end)
     = cstr "03:25.010"
  /\ exists (buf' t1 t2 : list Z),
       frame_to_time (3 * 1920000 + 25 * 32000 + 10 * 32 + 5) time_buf
       = Done (tt, buf')
       /\ length buf' = 256%nat
       /\ 9 <= strlen buf' <= 17
       /\ scan_uint buf' = (3 * 1920000 + 25 * 32000 + 10 * 32 + 5) / 1920000
       /\ strchr buf' (chr ":") = Some (chr ":" :: t1)
       /\ scan_uint t1 = (3 * 1920000 + 25 * 32000 + 10 * 32 + 5) / 32000 mod 60
       /\ strchr t1 (chr ".") = Some (chr "." :: t2)
       /\ scan_uint t2 = (3 * 1920000 + 25 * 32000 + 10 * 32 + 5) / 32 mod 1000
       /\ (3 * 1920000 + 25 * 32000 + 10 * 32 + 5) / 1920000 * 60000
          + (3 * 1920000 + 25 * 32000 + 10 * 32 + 5) / 32000 mod 60 * 1000
          + (3 * 1920000 + 25 * 32000 + 10 * 32 + 5) / 32 mod 1000
          = (3 * 1920000 + 25 * 32000 + 10 * 32 + 5) / 32.
Proof.
  split; [lia|]. split; [vm_compute; discriminate|].
  split; [reflexivity|]. split; [vm_compute; reflexivity|].
  apply (frame_to_time_reads_back (3 * 1920000 + 25 * 32000 + 10 * 32 + 5)
           time_buf); [lia | vm_compute; discriminate | reflexivity].
Defined.

(** X25.  A length in seconds, as frames and as the text of a time.  A
    length given on the command line replaces the length of the
    file: it is [secs * 32000] frames without wrap-around, and
    [frame_to_time] prints it as the minutes and the seconds of
    [secs], padded to two digits, with [.000] after them. *)
Theorem frames_of_seconds (secs ticks : Z) (buf : list Z) :
  0 < secs < 2 ^ 32 ->
  length buf = 256%nat ->
  frames_of secs ticks = secs * 32000
  /\ exists buf' : list Z,
       frame_to_time (frames_of secs ticks) buf = Done (tt, buf')
       /\ chars buf'
          = padded 2 (secs / 60) ++ cstr ":" ++ padded 2 (secs mod 60)
            ++ cstr ".000".
Proof.
  intros Hsecs Hbuf. change (2 ^ 32) with 4294967296 in Hsecs.
  assert (Hframes : frames_of secs ticks = secs * 32000).
  { unfold frames_of.
    replace (secs =? 0) with false by (symmetry; apply Z.eqb_neq; lia).
    rewrite (u64_small secs)
      by (change (2 ^ 64) with 18446744073709551616; lia).
    apply u64_small. change (2 ^ 64) with 18446744073709551616. lia. }
  split; [exact Hframes|]. rewrite Hframes.
  assert (Hmin : secs * 32000 / 1920000 = secs / 60)
    by (Z.to_euclidean_division_equations; lia).
  assert (Hsec : secs * 32000 / 32000 mod 60 = secs mod 60)
    by (rewrite Z.div_mul by lia; reflexivity).
  assert (Hmill : secs * 32000 / 32 mod 1000 = 0)
    by (Z.to_euclidean_division_equations; lia).
  rewrite frame_to_time_eq
    by (try exact Hbuf; try rewrite Hmin;
        Z.to_euclidean_division_equations; lia).
  rewrite Hmin, Hsec, Hmill.
  eexists. split; [reflexivity|].
  assert (Htext : time_text (secs / 60) (secs mod 60) 0
                  = padded 2 (secs / 60) ++ cstr ":" ++ padded 2 (secs mod 60)
                    ++ cstr ".000")
    by reflexivity.
  rewrite Htext. apply chars_ends; [|reflexivity].
  assert (Hnz : forall l : list Z,
            Forall (fun c => 48 <= c <= 57) l ->
            Forall (fun c => c <> 0) l)
    by (intros l; apply Forall_impl; intros; lia).
  rewrite !Forall_app.
  repeat split;
    try (apply Hnz; apply padded_range; Z.to_euclidean_division_equations; lia);
    repeat constructor; discriminate.
Qed.

Lemma frames_of_seconds_witness :
  0 < 90 < 2 ^ 32
  /\ length time_buf = 256%nat
  /\ frames_of 90 0 = 90 * 32000
  /\ exists buf' : list Z,
       frame_to_time (frames_of 90 0) time_buf = Done (tt, buf')
       /\ chars buf'
          = padded 2 (90 / 60) ++ cstr ":" ++ padded 2 (90 mod 60)
            ++ cstr ".000".
Proof.
  split; [lia|]. split; [reflexivity|].
  apply (frames_of_seconds 90 0 time_buf); [lia | reflexivity].
Defined.
